(** * Symbol replacement and state-machine transformations of SDFGs

    A shallow embedding of three files of the DaCe transformation core:

    - [dace/sdfg/replace.py]: find-and-replace of symbols and data names;
    - [dace/transformation/interstate/const_symbol_to_map.py];
    - [dace/transformation/interstate/gpu_transform_sdfg.py].

    Python dictionaries keep their insertion order and several loops of the
    code depend on it, so a dictionary is an association list with the
    update discipline of a Python [dict]; Python sets are [gset]s.  A call
    that can raise returns a [result]: of a call that raises, the model
    keeps the exception, not the state the call left behind. *)

From Stdlib Require Import ZArith String Ascii Lia.
From stdpp Require Import base option list sorting strings pretty gmap.

Open Scope string_scope.
Open Scope list_scope.
Open Scope stdpp_scope.

(** ** Python runtime: exceptions and dictionaries *)

Module Py.

Inductive exn : Type :=
| UnboundLocalError (var : string)
| KeyError (key : string)
| AssertionError
| AttributeError (attr : string)
| IndexError
| RecursionError
| SyntaxError
| ValueError
| TypeError.

#[global] Instance exn_eq_dec : EqDecision exn.
Proof. solve_decision. Defined.

Inductive result (A : Type) : Type :=
| Ok (a : A)
| Raise (e : exn).
Arguments Ok {A} a.
Arguments Raise {A} e.

#[global] Instance result_ret : MRet result := fun A a => Ok a.
#[global] Instance result_bind : MBind result := fun A B k r =>
  match r with
  | Ok a => k a
  | Raise e => Raise e
  end.

(** [for x in xs: acc = body(acc, x)], leaving at the first exception. *)
Fixpoint for_each {A S} (body : S -> A -> result S) (xs : list A) (s : S)
  : result S :=
  match xs with
  | [] => Ok s
  | x :: xs' => s' ← body s x; for_each body xs' s'
  end.

(** A [dict] with string keys: pairs in insertion order, keys distinct. *)
Abbreviation dict V := (list (string * V)) (only parsing).

Section Dict.
Context {V : Type}.

Fixpoint get (k : string) (d : dict V) : option V :=
  match d with
  | [] => None
  | (k', v) :: d' => if String.eqb k k' then Some v else get k d'
  end.

Definition mem (k : string) (d : dict V) : bool :=
  match get k d with Some _ => true | None => false end.

Definition keys (d : dict V) : list string := d.*1.

(** [d[k] = v]: an existing key keeps its place, a new one goes last. *)
Fixpoint set (k : string) (v : V) (d : dict V) : dict V :=
  match d with
  | [] => [(k, v)]
  | (k', v') :: d' =>
      if String.eqb k k' then (k', v) :: d' else (k', v') :: set k v d'
  end.

(** [del d[k]] for a key known to be present; absent keys are the
    caller's business ([KeyError]). *)
Fixpoint del (k : string) (d : dict V) : dict V :=
  match d with
  | [] => []
  | (k', v') :: d' =>
      if String.eqb k k' then d' else (k', v') :: del k d'
  end.

(** [d.pop(k)] *)
Definition pop (k : string) (d : dict V) : result (dict V) :=
  if mem k d then Ok (del k d) else Raise (KeyError k).
End Dict.

End Py.

(** ** Strings: the few operations of [str] the code uses

    A character of a [string] stands for the Python character with the
    same code point: the texts of the model are the Python strings over
    the code points below 256. *)

Module Str.

(** ['c' in s] *)
Fixpoint contains (c : ascii) (s : string) : bool :=
  match s with
  | EmptyString => false
  | String c' s' => if Ascii.eqb c' c then true else contains c s'
  end.

(** [s.split(sep)] for a one-character separator: never the empty list. *)
Fixpoint split (sep : ascii) (s : string) : list string :=
  match s with
  | EmptyString => [EmptyString]
  | String c s' =>
      if Ascii.eqb c sep then EmptyString :: split sep s'
      else match split sep s' with
           | [] => [String c EmptyString]
           | t :: ts => String c t :: ts
           end
  end.

(** [sep.join(parts)] *)
Definition join (sep : string) (parts : list string) : string :=
  String.concat sep parts.

(** [[a-zA-Z0-9_]]: the letters and digits of ASCII and the underscore. *)
Definition is_ascii_word_char (c : ascii) : bool :=
  let n := nat_of_ascii c in
  (((48 <=? n) && (n <=? 57)) || ((65 <=? n) && (n <=? 90))
   || ((97 <=? n) && (n <=? 122)) || (n =? 95))%nat.

(** [\w] of the [re] module in a pattern of type [str]: the class is
    Unicode-aware, a character is in it when [c.isalnum()] holds or it is
    the underscore.  On the code points below 256 it holds, beside the
    ASCII class, the ordinal indicators (170, 186), the superscript digits
    (178, 179, 185), the micro sign (181), the vulgar fractions (188 to
    190) and the Latin-1 letters (192 to 255 without the multiplication
    and division signs, 215 and 247). *)
Definition is_word_char (c : ascii) : bool :=
  let n := nat_of_ascii c in
  is_ascii_word_char c
  || ((n =? 170) || (n =? 186) || (n =? 178) || (n =? 179) || (n =? 185)
      || (n =? 181) || ((188 <=? n) && (n <=? 190))
      || ((192 <=? n) && (n <=? 255) && negb (n =? 215) && negb (n =? 247)))%nat.

(** [re.compile(r'\b\w+\b').findall(s)]: the maximal runs of word
    characters, from left to right.  [cur] is the run being read. *)
Fixpoint findall_words_from (cur : string) (s : string) : list string :=
  match s with
  | EmptyString => if String.eqb cur EmptyString then [] else [cur]
  | String c s' =>
      if is_word_char c
      then findall_words_from (cur +:+ String c EmptyString) s'
      else if String.eqb cur EmptyString then findall_words_from EmptyString s'
      else cur :: findall_words_from EmptyString s'
  end.

Definition findall_words (s : string) : list string :=
  findall_words_from EmptyString s.

(** [''.join(parts)] *)
Definition concat_all (parts : list string) : string :=
  foldr String.append EmptyString parts.

(** The texts [\w+] matches as a whole: non-empty, word characters only.
    Used to state properties. *)
Fixpoint all_word_chars (s : string) : bool :=
  match s with
  | EmptyString => true
  | String c s' => is_word_char c && all_word_chars s'
  end.

Definition is_word (s : string) : bool :=
  negb (String.eqb s EmptyString) && all_word_chars s.

End Str.

(** ** The symbolic algebra (sympy) as far as the code relies on it *)

Module Symbolic.

(** Expressions of the algebra library.  Sums, products and powers are
    kept as written: the library's automatic simplification is not part of
    the model, and no statement below depends on it. *)
Inductive expr : Type :=
| Symbol (name : string)
| Integer (z : Z)
| Add (a b : expr)
| Mul (a b : expr)
| Pow (a b : expr).

#[global] Instance expr_eq_dec : EqDecision expr.
Proof. solve_decision. Defined.

(** [str(s) for s in e.free_symbols] *)
Fixpoint free_symbols (e : expr) : gset string :=
  match e with
  | Symbol x => {[ x ]}
  | Integer _ => ∅
  | Add a b | Mul a b | Pow a b => free_symbols a ∪ free_symbols b
  end.

(** [e._subs(old, new)] for a symbol [old]: every occurrence of the symbol
    is replaced, in one pass (the replacement is not visited again). *)
Fixpoint subs1 (old : string) (new : expr) (e : expr) : expr :=
  match e with
  | Symbol x => if String.eqb x old then new else Symbol x
  | Integer z => Integer z
  | Add a b => Add (subs1 old new a) (subs1 old new b)
  | Mul a b => Mul (subs1 old new a) (subs1 old new b)
  | Pow a b => Pow (subs1 old new a) (subs1 old new b)
  end.

(** The order [subs] gives to the pairs of a dictionary argument: symbols
    all have one node, so they are ordered by their sort key, the name. *)
Definition key_le (p q : string * expr) : Prop := String.leb p.1 q.1.

#[global] Instance key_le_dec : RelDecision key_le.
Proof. intros p q. unfold key_le. apply _. Defined.

Definition ordered (m : Py.dict expr) : list (string * expr) :=
  merge_sort key_le m.

(** [e.subs(m)] with a dictionary [m] keyed by symbols and the default
    [simultaneous=False]: the pairs are put in canonical order and applied
    one after the other, each to the result of the one before. *)
Definition subs (e : expr) (m : Py.dict expr) : expr :=
  foldl (fun acc p => subs1 p.1 p.2 acc) e (ordered m).

(** What a simultaneous substitution would give: every symbol is looked up
    once in the mapping.  Used to state properties, not by the code. *)
Fixpoint subs_simultaneous (m : Py.dict expr) (e : expr) : expr :=
  match e with
  | Symbol x => default (Symbol x) (Py.get x m)
  | Integer z => Integer z
  | Add a b => Add (subs_simultaneous m a) (subs_simultaneous m b)
  | Mul a b => Mul (subs_simultaneous m a) (subs_simultaneous m b)
  | Pow a b => Pow (subs_simultaneous m a) (subs_simultaneous m b)
  end.

(** No replacement value of the mapping mentions another key of it: the
    mappings without chains or cycles.  Used to state properties. *)
Definition non_chaining (m : Py.dict expr) : Prop :=
  forall k v k', (k, v) ∈ m -> k' ∈ Py.keys m -> k' ≠ k -> k' ∉ free_symbols v.

(** A property value that is either a sympy object or a plain number. *)
Inductive value : Type :=
| Num (z : Z)
| Basic (e : expr).

End Symbolic.

(** ** Data descriptors ([dace.data], [dace.dtypes]) *)

Module Dtypes.

Inductive StorageType : Type :=
| Default | Register | CPU_Pinned | CPU_Heap | GPU_Global | GPU_Shared.

Inductive ScheduleType : Type :=
| Sched_Default | Sequential | GPU_Default | GPU_Device.

Inductive AllocationLifetime : Type :=
| Scope | SDFG_Lifetime.

Inductive Language : Type :=
| Python | CPP | OpenCL | SystemVerilog | MLIR.

(** The class of a descriptor: [isinstance(desc, data.Scalar)] and so on. *)
Inductive DataClass : Type :=
| Scalar | Array | Stream | View.

Record Data : Type := {
  dclass : DataClass;
  dtype : string;
  shape : list Symbolic.expr;
  storage : StorageType;
  transient : bool;
  lifetime : AllocationLifetime;
}.

#[global] Instance StorageType_eq_dec : EqDecision StorageType.
Proof. solve_decision. Defined.
#[global] Instance ScheduleType_eq_dec : EqDecision ScheduleType.
Proof. solve_decision. Defined.
#[global] Instance AllocationLifetime_eq_dec : EqDecision AllocationLifetime.
Proof. solve_decision. Defined.
#[global] Instance Language_eq_dec : EqDecision Language.
Proof. solve_decision. Defined.
#[global] Instance DataClass_eq_dec : EqDecision DataClass.
Proof. solve_decision. Defined.
#[global] Instance Data_eq_dec : EqDecision Data.
Proof. solve_decision. Defined.

End Dtypes.

(** ** [dace/sdfg/replace.py] *)

Module Replace.
Import Symbolic Dtypes.

(** What [replace.py] imports from the rest of the package and from the
    interpreter, and does not define itself. *)
Class Externals : Type := {
  (** [symbolic.pystr_to_symbolic] on the text of a replacement value; on a
      name that is a key of the mapping it gives the symbol of that name. *)
  pystr_to_symbolic : string -> expr;
  (** [cppunparse.pyexpr2cpp] *)
  pyexpr2cpp : string -> string;
  (** A statement of a parsed Python code block, and
      [ASTFindReplace(repl).visit(stmt)]. *)
  py_stmt : Type;
  ASTFindReplace_visit : Py.dict string -> py_stmt -> py_stmt;
  (** The order in which a [set] holding the given names is enumerated:
      unspecified, any arrangement of the distinct names. *)
  set_iter : list string -> list string;
  set_iter_perm : forall l, set_iter l ≡ₚ remove_dups l;
  (** The payload of a control edge with its
      [replace_dict(repl, replace_keys=False)], and the conditions of a
      region with [replace_meta_accesses(repl)]. *)
  InterstateEdge : Type;
  InterstateEdge_replace_dict : Py.dict string -> InterstateEdge -> InterstateEdge;
  MetaAccesses : Type;
  replace_meta_accesses : Py.dict string -> MetaAccesses -> MetaAccesses;
}.

Section WithExternals.
Context `{Ext : Externals}.

(** [tokenize_cpp = re.compile(r'\b\w+\b')] *)
Definition tokenize_cpp_findall (code : string) : list string :=
  Str.findall_words code.

(** The names [_internal_replace] adds to the free symbols: for a dotted
    name, every proper dotted prefix. *)
Definition dotted_prefixes (s : string) : list string :=
  if Str.contains "." s then
    let tokens := Str.split "." s in
    (fun i => Str.join "." (take i tokens)) <$> seq 1 (length tokens - 1)
  else [].

Definition relevant_symbols (e : expr) : gset string :=
  let fsyms := free_symbols e in
  fsyms ∪ list_to_set (elements fsyms ≫= dotted_prefixes).

(** [_internal_replace] on a sympy object. *)
Definition _internal_replace_basic (sym : expr) (symrepl : Py.dict expr) : expr :=
  let fsyms := relevant_symbols sym in
  let newrepl := filter (fun p => p.1 ∈ fsyms) symrepl in
  match newrepl with
  | [] => sym
  | _ => subs sym newrepl
  end.

Definition _internal_replace (sym : value) (symrepl : Py.dict expr) : value :=
  match sym with
  | Num z => Num z
  | Basic e => Basic (_internal_replace_basic e symrepl)
  end.

(** One dimension of a range or shape: a tuple of entries, or one entry. *)
Inductive dim : Type :=
| DimTuple (ds : list value)
| DimEntry (d : value).

(** What [_replsym] is called on. *)
Inductive symlist : Type :=
| SymNone
| SymExpr (e : expr)
| SymList (dims : list dim).

Definition _replsym_dim (symrepl : Py.dict expr) (d : dim) : dim :=
  match d with
  | DimTuple ds => DimTuple ((fun v => _internal_replace v symrepl) <$> ds)
  | DimEntry v => DimEntry (_internal_replace v symrepl)
  end.

Definition _replsym (sl : symlist) (symrepl : Py.dict expr) : symlist :=
  match sl with
  | SymNone => SymNone
  | SymExpr e => SymExpr (_internal_replace_basic e symrepl)
  | SymList dims => SymList (_replsym_dim symrepl <$> dims)
  end.

(** The result of [_replsym] where the caller stores it: the list of a
    range, shape or subset, or the expression of a volume. *)
Definition as_dims (sl : symlist) : list dim :=
  match sl with
  | SymList dims => dims
  | _ => []
  end.

Definition as_expr (fallback : expr) (sl : symlist) : expr :=
  match sl with
  | SymExpr e => e
  | _ => fallback
  end.

(** *** Code blocks, nodes, memlets *)

Inductive code_t : Type :=
| CodeNone
| CodeStr (text : string)
| CodeAst (stmts : list py_stmt).

Record CodeBlock : Type := {
  code : code_t;
  language : Language;
}.

(** The value of a symbol-mapping entry: something [pystr_to_symbolic]
    turns into an expression, or an object whose symbolic form has no
    [subs]. *)
Inductive mapping_value : Type :=
| MapValue (v : value)
| MapOpaque (text : string).

(** A property value with the class of its descriptor. *)
Inductive property : Type :=
| SymbolicProperty (v : value)
| DataProperty (d : string)
| RangeProperty (r : list dim)
| ShapeProperty (r : list dim)
| CodeProperty (cb : CodeBlock)
| DictProperty (d : Py.dict mapping_value)
| OtherProperty (text : string).

Inductive NodeType : Type :=
| AccessNode | Tasklet | NestedSDFG | MapEntry | MapExit | LibraryNode.

#[global] Instance NodeType_eq_dec : EqDecision NodeType.
Proof. solve_decision. Defined.

(** A node: [properties()] lists the attribute names with their current
    values ([None] for an unset one); [connectors] holds the names of the
    input and output connectors of a node that has them. *)
Record Node : Type := {
  node_type : NodeType;
  properties : list (string * option property);
  connectors : option (list string * list string);
  ignored_symbols : gset string;
}.

Record Memlet : Type := {
  data : option string;
  subset : option (list dim);
  other_subset : option (list dim);
  volume : expr;
}.

Record Subgraph : Type := {
  nodes : list Node;
  edges : list Memlet;
}.

Inductive Warning : Type :=
| NotReplaced (name new_name : string) (lang : Language).

(** [setattr(node, pname, v)] *)
Definition setattr (node : Node) (pname : string) (v : property) : Node :=
  {| node_type := node_type node;
     properties :=
       (fun p => if String.eqb p.1 pname then (p.1, Some v) else p)
         <$> properties node;
     connectors := connectors node;
     ignored_symbols := ignored_symbols node |}.

Definition set_ignored_symbols (node : Node) (s : gset string) : Node :=
  {| node_type := node_type node;
     properties := properties node;
     connectors := connectors node;
     ignored_symbols := s |}.

(** Reading a local variable of a Python function: unbound until the
    first assignment. *)
Definition local {A} (var : string) (binding : option A) : Py.result A :=
  match binding with
  | Some a => Py.Ok a
  | None => Py.Raise (Py.UnboundLocalError var)
  end.

(** The locals of [replace_in_codeblock] that its loop assigns. *)
Record cpp_locals : Type := {
  prefix : string;
  active_replacements : gset string;
  name : option string;
  new_name : option string;
}.

(** [f'auto {name} = {cppunparse.pyexpr2cpp(new_name)};\n'] *)
Definition shadow_binding (item : string * string) : string :=
  "auto " +:+ item.1 +:+ " = " +:+ pyexpr2cpp item.2 +:+ ";"
  +:+ String "010" EmptyString.

Definition cpp_loop_body (tokenized : list string) (l : cpp_locals)
    (item : string * string) : cpp_locals :=
  let '(name', new_name') := item in
  if bool_decide (name' ∉ tokenized) then
    {| prefix := prefix l; active_replacements := active_replacements l;
       name := Some name'; new_name := Some new_name' |}
  else
    let replacement := shadow_binding (name', new_name') in
    {| prefix := replacement +:+ prefix l;
       active_replacements := active_replacements l ∪ {[ name' ]};
       name := Some name'; new_name := Some new_name' |}.

(** [replace_in_codeblock(codeblock, repl, node)]: the new code block, the
    node (changed when it is a tasklet whose code got a prefix) and the
    warnings issued.  [name] and [new_name] are locals of the function,
    assigned by the [for] statement of the C++ branch only; the other
    branch reads them as they are on entry. *)
Definition replace_in_codeblock (codeblock : CodeBlock) (repl : Py.dict string)
    (node : option Node) : Py.result (CodeBlock * option Node * list Warning) :=
  let on_entry :=
    {| prefix := EmptyString; active_replacements := ∅;
       name := None; new_name := None |} in
  match code codeblock with
  | CodeStr (String _ _ as text) =>
      let lang := language codeblock in
      if bool_decide (lang = CPP) then
        let l :=
          foldl (cpp_loop_body (tokenize_cpp_findall text)) on_entry repl in
        if String.eqb (prefix l) EmptyString then Py.Ok (codeblock, node, [])
        else
          let codeblock' :=
            {| code := CodeStr (prefix l +:+ text); language := lang |} in
          match node with
          | Some n =>
              if bool_decide (node_type n = Tasklet) then
                Py.Ok (codeblock',
                       Some (set_ignored_symbols n
                               (ignored_symbols n ∪ active_replacements l)),
                       [])
              else Py.Ok (codeblock', node, [])
          | None => Py.Ok (codeblock', node, [])
          end
      else
        name' ← local "name" (name on_entry);
        new_name' ← local "new_name" (new_name on_entry);
        Py.Ok (codeblock, node, [NotReplaced name' new_name' lang])
  | CodeStr EmptyString => Py.Ok (codeblock, node, [])
  | CodeAst stmts =>
      Py.Ok ({| code := CodeAst (ASTFindReplace_visit repl <$> stmts);
                language := language codeblock |}, node, [])
  | CodeNone => Py.Ok (codeblock, node, [])
  end.

(** *** [replace_properties_dict] *)

(** The dictionary of symbolic replacements built from [repl] when the
    caller passes none (or an empty one). *)
Definition make_symrepl (repl : Py.dict string) : Py.dict expr :=
  (fun p => (p.1, pystr_to_symbolic p.2)) <$> repl.

Definition symrepl_or (symrepl : option (Py.dict expr)) (repl : Py.dict string)
  : Py.dict expr :=
  match symrepl with
  | Some ((_ :: _) as d) => d
  | _ => make_symrepl repl
  end.

(** [symbolic.pystr_to_symbolic(str(v))] on a number or an expression. *)
Definition symbolify (v : value) : expr :=
  match v with
  | Num z => Integer z
  | Basic e => e
  end.

(** The keys of [repl] that are no connector of the node, in the order the
    set enumerates them, with their values. *)
Definition reduced_repl (node : Node) (repl : Py.dict string) : Py.dict string :=
  let ks :=
    match connectors node with
    | Some (ins, outs) => filter (fun k => k ∉ ins ++ outs) (Py.keys repl)
    | None => Py.keys repl
    end in
  omap (fun k => (fun v => (k, v)) <$> Py.get k repl) (set_iter ks).

Definition replace_mapping_value (symrepl : Py.dict expr) (mv : mapping_value)
  : mapping_value :=
  match mv with
  | MapValue v => MapValue (Basic (subs (symbolify v) symrepl))
  | MapOpaque t => MapOpaque t
  end.

(** One turn of the loop over [node.properties()]. *)
Definition replace_property (repl : Py.dict string) (symrepl : Py.dict expr)
    (st : Node * list Warning) (p : string * option property)
  : Py.result (Node * list Warning) :=
  let '(node, ws) := st in
  let '(pname, propval) := p in
  match propval with
  | None => Py.Ok st
  | Some (SymbolicProperty v) =>
      Py.Ok (setattr node pname
               (SymbolicProperty (Basic (subs (symbolify v) symrepl))), ws)
  | Some (DataProperty d) =>
      match Py.get d repl with
      | Some d' => Py.Ok (setattr node pname (DataProperty d'), ws)
      | None => Py.Ok st
      end
  | Some (RangeProperty r) =>
      Py.Ok (setattr node pname
               (RangeProperty (as_dims (_replsym (SymList r) symrepl))), ws)
  | Some (ShapeProperty r) =>
      Py.Ok (setattr node pname
               (ShapeProperty (as_dims (_replsym (SymList r) symrepl))), ws)
  | Some (CodeProperty cb) =>
      r ← replace_in_codeblock cb (reduced_repl node repl) (Some node);
      let '(cb', node', ws') := r in
      Py.Ok (setattr (default node node') pname (CodeProperty cb'), ws ++ ws')
  | Some (DictProperty d) =>
      if String.eqb pname "symbol_mapping" then
        Py.Ok (setattr node pname
                 (DictProperty
                    ((fun kv => (kv.1, replace_mapping_value symrepl kv.2))
                       <$> d)),
               ws)
      else Py.Ok st
  | Some (OtherProperty _) => Py.Ok st
  end.

Definition replace_properties_dict (node : Node) (repl : Py.dict string)
    (symrepl : option (Py.dict expr)) : Py.result (Node * list Warning) :=
  let symrepl := symrepl_or symrepl repl in
  Py.for_each (replace_property repl symrepl) (properties node) (node, []).

Definition replace_properties (node : Node) (symrepl : Py.dict expr)
    (name new_name : string) : Py.result (Node * list Warning) :=
  replace_properties_dict node [(name, new_name)] (Some symrepl).

(** *** [replace_dict] and [replace] *)

Definition value_free_symbols (v : value) : gset string :=
  match v with
  | Num _ => ∅
  | Basic e => free_symbols e
  end.

Definition dim_free_symbols (d : dim) : gset string :=
  match d with
  | DimTuple ds => ⋃ (value_free_symbols <$> ds)
  | DimEntry v => value_free_symbols v
  end.

(** [subset.free_symbols] *)
Definition range_free_symbols (r : list dim) : gset string :=
  ⋃ (dim_free_symbols <$> r).

(** [keys & symbols], as a truth value. *)
Definition intersects (ks : list string) (s : gset string) : bool :=
  bool_decide (Exists (fun k => k ∈ s) ks).

Definition replace_subset (repl : Py.dict string) (symrepl : Py.dict expr)
    (s : option (list dim)) : option (list dim) :=
  match s with
  | Some r =>
      if intersects (Py.keys repl) (range_free_symbols r)
      then Some (as_dims (_replsym (SymList r) symrepl))
      else Some r
  | None => None
  end.

Definition replace_memlet (repl : Py.dict string) (symrepl : Py.dict expr)
    (m : Memlet) : Memlet :=
  {| data :=
       match data m with
       | Some d => Some (default d (Py.get d repl))
       | None => None
       end;
     subset := replace_subset repl symrepl (subset m);
     other_subset := replace_subset repl symrepl (other_subset m);
     volume :=
       if intersects (Py.keys symrepl) (free_symbols (volume m))
       then as_expr (volume m) (_replsym (SymExpr (volume m)) symrepl)
       else volume m |}.

Definition replace_dict (subgraph : Subgraph) (repl : Py.dict string)
    (symrepl : option (Py.dict expr)) : Py.result (Subgraph * list Warning) :=
  let symrepl := symrepl_or symrepl repl in
  r ← Py.for_each
        (fun (acc : list Node * list Warning) node =>
           r ← replace_properties_dict node repl (Some symrepl);
           Py.Ok (acc.1 ++ [r.1], acc.2 ++ r.2))
        (nodes subgraph) ([], []);
  Py.Ok ({| nodes := r.1;
            edges := replace_memlet repl symrepl <$> edges subgraph |}, r.2).

Definition replace (subgraph : Subgraph) (name new_name : string)
  : Py.result (Subgraph * list Warning) :=
  if String.eqb name new_name then Py.Ok (subgraph, [])
  else replace_dict subgraph [(name, new_name)] None.

(** *** [replace_datadesc_names] *)

(** A block of a control-flow region: a state with its dataflow graph, or
    a region with control edges, blocks and the conditions it carries. *)
#[warnings="-register-all"]
Inductive ControlFlowBlock : Type :=
| SDFGState (graph : Subgraph)
| ControlFlowRegion (cf_edges : list InterstateEdge)
    (cf_nodes : list ControlFlowBlock) (cf_meta : MetaAccesses).

Record SDFG : Type := {
  arrays : Py.dict Data;
  constants_prop : Py.dict Z;
  sdfg_edges : list InterstateEdge;
  sdfg_nodes : list ControlFlowBlock;
  sdfg_meta : MetaAccesses;
}.

(** [node.data] of an access node *)
Definition node_data (node : Node) : option string :=
  match Py.get "data" (properties node) with
  | Some (Some (DataProperty d)) => Some d
  | _ => None
  end.

(** The new name of a data reference: the name itself when it is a key,
    else, for a dotted name, the first part replaced when that is a key. *)
Definition replace_data_name (repl : Py.dict string) (d : string) : string :=
  match Py.get d repl with
  | Some d' => d'
  | None =>
      if Str.contains "." d then
        match Str.split "." d with
        | part0 :: parts =>
            match Py.get part0 repl with
            | Some p' => p' +:+ "." +:+ Str.join "." parts
            | None => d
            end
        | [] => d
        end
      else d
  end.

Definition replace_in_data_node (repl : Py.dict string) (node : Node) : Node :=
  if bool_decide (node_type node = AccessNode) then
    match node_data node with
    | Some d => setattr node "data" (DataProperty (replace_data_name repl d))
    | None => node
    end
  else node.

Definition replace_in_memlet_data (repl : Py.dict string) (m : Memlet) : Memlet :=
  match data m with
  | None => m
  | Some d =>
      {| data := Some (replace_data_name repl d); subset := subset m;
         other_subset := other_subset m; volume := volume m |}
  end.

(** The body of the loop over [sdfg.all_control_flow_regions()], on one
    block and everything nested in it. *)
Fixpoint replace_in_block (repl : Py.dict string) (b : ControlFlowBlock)
  : ControlFlowBlock :=
  match b with
  | SDFGState g =>
      SDFGState {| nodes := replace_in_data_node repl <$> nodes g;
                   edges := replace_in_memlet_data repl <$> edges g |}
  | ControlFlowRegion es bs meta =>
      ControlFlowRegion (InterstateEdge_replace_dict repl <$> es)
        (replace_in_block repl <$> bs) (replace_meta_accesses repl meta)
  end.

(** One turn of the loop over the snapshot [list(sdfg.arrays.items())]. *)
Definition rename_descriptor (repl : Py.dict string)
    (tables : Py.dict Data * Py.dict Z) (item : string * Data)
  : Py.result (Py.dict Data * Py.dict Z) :=
  let '(arrays, constants) := tables in
  let '(aname, aval) := item in
  match Py.get aname repl with
  | None => Py.Ok tables
  | Some new =>
      arrays1 ← Py.pop aname arrays;
      let arrays2 := Py.set new aval arrays1 in
      match Py.get aname constants with
      | None => Py.Ok (arrays2, constants)
      | Some c =>
          constants' ← Py.pop aname (Py.set new c constants);
          Py.Ok (arrays2, constants')
      end
  end.

Definition replace_datadesc_names (sdfg : SDFG) (repl : Py.dict string)
  : Py.result SDFG :=
  tables ← Py.for_each (rename_descriptor repl) (arrays sdfg)
             (arrays sdfg, constants_prop sdfg);
  Py.Ok {| arrays := tables.1;
           constants_prop := tables.2;
           sdfg_edges := InterstateEdge_replace_dict repl <$> sdfg_edges sdfg;
           sdfg_nodes := replace_in_block repl <$> sdfg_nodes sdfg;
           sdfg_meta := replace_meta_accesses repl (sdfg_meta sdfg) |}.

(** The data names a state refers to, access nodes first, then memlets;
    and those of a block with everything nested in it.  Used to state
    properties, not by the code. *)
Definition state_data_refs (g : Subgraph) : list string :=
  omap node_data (filter (fun n => node_type n = AccessNode) (nodes g))
  ++ omap data (edges g).

Fixpoint block_data_refs (b : ControlFlowBlock) : list string :=
  match b with
  | SDFGState g => state_data_refs g
  | ControlFlowRegion _ bs _ => concat (block_data_refs <$> bs)
  end.

Definition sdfg_data_refs (sdfg : SDFG) : list string :=
  concat (block_data_refs <$> sdfg_nodes sdfg).

(** The control edges of a block with everything nested in it, those of
    a region before those of the regions inside it; and the control edges
    of all regions of a graph, which is the outermost one.  Used to state
    properties, not by the code. *)
Fixpoint block_control_edges (b : ControlFlowBlock) : list InterstateEdge :=
  match b with
  | SDFGState _ => []
  | ControlFlowRegion es bs _ => es ++ concat (block_control_edges <$> bs)
  end.

Definition sdfg_control_edges (sdfg : SDFG) : list InterstateEdge :=
  sdfg_edges sdfg ++ concat (block_control_edges <$> sdfg_nodes sdfg).

(** In the same order, what each region carries as meta accesses.  Used
    to state properties, not by the code. *)
Fixpoint block_meta_accesses (b : ControlFlowBlock) : list MetaAccesses :=
  match b with
  | SDFGState _ => []
  | ControlFlowRegion _ bs meta => meta :: concat (block_meta_accesses <$> bs)
  end.

Definition sdfg_meta_accesses (sdfg : SDFG) : list MetaAccesses :=
  sdfg_meta sdfg :: concat (block_meta_accesses <$> sdfg_nodes sdfg).

(** The nesting of a block: what is left of it without the payload of its
    states, control edges and meta accesses.  Used to state properties. *)
#[warnings="-register-all"]
Inductive Nesting : Type :=
| StateShape
| RegionShape (n_edges : nat) (inner : list Nesting).

Fixpoint block_nesting (b : ControlFlowBlock) : Nesting :=
  match b with
  | SDFGState _ => StateShape
  | ControlFlowRegion es bs _ => RegionShape (length es) (block_nesting <$> bs)
  end.

(** A property value that holds a non-empty code text in a language other
    than C++, and a node with such a property.  Used to state
    properties. *)
Definition is_foreign_code (p : option property) : bool :=
  match p with
  | Some (CodeProperty cb) =>
      match code cb with
      | CodeStr (String _ _) => bool_decide (language cb ≠ CPP)
      | _ => false
      end
  | _ => false
  end.

Definition has_foreign_code (node : Node) : Prop :=
  Exists (fun p => is_foreign_code p.2 = true) (properties node).

(** The name of a descriptor after a renaming with [repl].  Used to state
    properties. *)
Definition renamed (repl : Py.dict string) (k : string) : string :=
  default k (Py.get k repl).

End WithExternals.
End Replace.

(** ** [dace/transformation/interstate/const_symbol_to_map.py] *)

Module ConstSymbolToMap.
Import Dtypes.

(** A memlet as [Memlet(text)] builds it: the array and the subset read. *)
Record Memlet : Type := {
  data : option string;
  subset : option string;
}.

(** Nodes of a dataflow state, told apart by an identifier. *)
Inductive Node : Type :=
| AccessNode (id : nat) (data : string)
| CodeNode (id : nat) (label : string)
| MapEntry (map_label : string)
| MapExit (map_label : string).

#[global] Instance Node_eq_dec : EqDecision Node.
Proof. solve_decision. Defined.

Record Edge : Type := {
  src : Node;
  src_conn : option string;
  dst : Node;
  dst_conn : option string;
  memlet : Memlet;
}.

#[global] Instance Memlet_eq_dec : EqDecision Memlet.
Proof. solve_decision. Defined.
#[global] Instance Edge_eq_dec : EqDecision Edge.
Proof. solve_decision. Defined.

Record SDFGState : Type := {
  label : string;
  nodes : list Node;
  edges : list Edge;
}.

(** The payload of a control edge. *)
Record InterstateEdge : Type := {
  assignments : Py.dict string;
  condition : string;
}.

(** A control edge between two states, named by their position in the
    list of states of the graph. *)
Record CFEdge : Type := {
  cf_src : nat;
  cf_dst : nat;
  cf_data : InterstateEdge;
}.

Record SDFG : Type := {
  arrays : Py.dict Data;
  symbols : Py.dict string;
  states : list SDFGState;
  cf_edges : list CFEdge;
}.

(** The [Map] object that [apply] creates, with the input connectors of
    its entry node. *)
Record Map : Type := {
  map_label : string;
  params : list string;
  range : list string;
  in_connectors : Py.dict string;
}.

(** What the file takes from the rest of the package. *)
Class Externals : Type := {
  (** [Memlet(text)]: the memlet the constructor builds, or the
      exception it raises ([SyntaxError] for a text that is no memlet,
      others, such as [ValueError], for texts it fails to take apart). *)
  Memlet_parse : string -> Py.result Memlet;
  (** [state.free_symbols] *)
  state_free_symbols : SDFGState -> gset string;
  (** [state.add_memlet_path(src, via, dst, src_conn=, dst_conn=, memlet=)] *)
  add_memlet_path :
    SDFGState -> Node -> Node -> Node -> option string -> option string ->
    Memlet -> SDFGState;
}.

(** The attributes of one transformation object.  The pattern nodes are
    bound by the matcher; [symbol_edge] is [None], the value of the class,
    until [can_be_applied] assigns it on the object. The edge is named by
    its position in the list of control edges. *)
Record Instance : Type := {
  symbol_state : nat;
  compute_state : nat;
  symbol_edge : option nat;
}.

(** The dictionary [map_symbols] is created once, in the body of the
    class, and no method rebinds it: all objects read and update that one
    dictionary.  It is the state threaded through the methods. *)
Definition ClassState : Type := Py.dict Memlet.

Section WithExternals.
Context `{Ext : Externals}.

Definition in_degree (st : SDFGState) (n : Node) : nat :=
  length (filter (fun e => dst e = n) (edges st)).

Definition out_degree (st : SDFGState) (n : Node) : nat :=
  length (filter (fun e => src e = n) (edges st)).

Definition source_nodes (st : SDFGState) : list Node :=
  filter (fun n => in_degree st n = 0) (nodes st).

Definition sink_nodes (st : SDFGState) : list Node :=
  filter (fun n => out_degree st n = 0) (nodes st).

Definition add_node (st : SDFGState) (n : Node) : SDFGState :=
  if bool_decide (n ∈ nodes st) then st
  else {| label := label st; nodes := nodes st ++ [n]; edges := edges st |}.

Definition add_edge (st : SDFGState) (e : Edge) : SDFGState :=
  let st' := add_node (add_node st (src e)) (dst e) in
  {| label := label st'; nodes := nodes st'; edges := edges st' ++ [e] |}.

(** [state.remove_edge(e)]: one occurrence of the edge goes. *)
Fixpoint remove_first (e : Edge) (es : list Edge) : list Edge :=
  match es with
  | [] => []
  | e' :: es' => if bool_decide (e' = e) then es' else e' :: remove_first e es'
  end.

Definition remove_edge (st : SDFGState) (e : Edge) : SDFGState :=
  {| label := label st; nodes := nodes st; edges := remove_first e (edges st) |}.

(** [graph.out_edges(state)] of the control-flow graph, with positions. *)
Definition cf_out_edges (sdfg : SDFG) (state : nat) : list (nat * CFEdge) :=
  filter (fun ie => cf_src ie.2 = state) (imap (fun i e => (i, e)) (cf_edges sdfg)).

Definition reroute_edge_through_map (state : SDFGState) (e : Edge) (m : Node)
  : SDFGState :=
  remove_edge
    (add_memlet_path state (src e) m (dst e) (src_conn e) (dst_conn e) (memlet e))
    e.

(** *** [can_be_applied] *)

(** One turn of the loop over the assignments of the symbol edge.  The
    [try] statement catches [SyntaxError] only: any other exception of
    [Memlet(v)] leaves the method. *)
Definition collect_assignment (sdfg : SDFG) (compute : SDFGState)
    (map_symbols : ClassState) (kv : string * string) : Py.result ClassState :=
  let '(k, v) := kv in
  if bool_decide (k ∈ state_free_symbols compute) then
    match Memlet_parse v with
    | Py.Raise e =>
        if bool_decide (e = Py.SyntaxError) then Py.Ok map_symbols
        else Py.Raise e
    | Py.Ok m =>
        match subset m, data m with
        | Some _, Some d =>
            if Py.mem d (arrays sdfg) then Py.Ok (Py.set k m map_symbols)
            else Py.Ok map_symbols
        | _, _ => Py.Ok map_symbols
        end
    end
  else Py.Ok map_symbols.

(** An assignment that the loop keeps: its symbol is free in the compute
    state and its value is a memlet with a subset of an array of the
    graph.  Used to state properties. *)
Definition qualifies (sdfg : SDFG) (compute : SDFGState) (kv : string * string)
  : Prop :=
  kv.1 ∈ state_free_symbols compute
  /\ exists m d sub,
       Memlet_parse kv.2 = Py.Ok m /\ data m = Some d /\ subset m = Some sub
       /\ Py.mem d (arrays sdfg) = true.

(** An assignment at which the loop leaves the method with the exception
    [e]: its symbol is free in the compute state and [Memlet] raises [e],
    which is not [SyntaxError].  Used to state properties. *)
Definition unparsable (compute : SDFGState) (kv : string * string) (e : Py.exn)
  : Prop :=
  kv.1 ∈ state_free_symbols compute
  /\ Memlet_parse kv.2 = Py.Raise e /\ e ≠ Py.SyntaxError.

Definition can_be_applied (map_symbols : ClassState) (self : Instance)
    (sdfg : SDFG) : Py.result (bool * ClassState * Instance) :=
  if bool_decide (length (cf_out_edges sdfg (compute_state self)) ≠ 0) then
    Py.Ok (false, map_symbols, self)
  else
    let self' :=
      match
        head (filter (fun ie => cf_dst ie.2 = compute_state self)
                (cf_out_edges sdfg (symbol_state self)))
      with
      | Some ie =>
          {| symbol_state := symbol_state self;
             compute_state := compute_state self;
             symbol_edge := Some ie.1 |}
      | None => self
      end in
    match symbol_edge self' with
    | None => Py.Raise Py.AssertionError
    | Some i =>
        match cf_edges sdfg !! i, states sdfg !! compute_state self with
        | Some e, Some compute =>
            map_symbols' ←
              Py.for_each (collect_assignment sdfg compute)
                (assignments (cf_data e)) map_symbols;
            Py.Ok (bool_decide (length map_symbols' ≠ 0), map_symbols', self')
        | _, _ => Py.Raise (Py.AttributeError "data")
        end
    end.

(** *** [apply] *)

(** What the first loop of [apply] updates. *)
Record Building : Type := {
  b_state : SDFGState;
  b_map : Map;
  b_id_table : Py.dict nat;
}.

(** [isinstance(n, nodes.AccessNode) and n.data == d] *)
Definition accesses (d : string) (n : Node) : bool :=
  match n with
  | AccessNode _ d' => bool_decide (d' = d)
  | _ => false
  end.

(** One turn of the loop over [map_symbols.items()].  The name of the
    connector is [m.data + '_' + ...], a [TypeError] on a memlet without
    data; the descriptor is looked up after that. *)
Definition add_map_symbol (sdfg : SDFG) (b : Building) (sm : string * Memlet)
  : Py.result Building :=
  let '(s, m) := sm in
  let map := b_map b in
  let me := MapEntry (map_label map) in
  if bool_decide (s ∈ params map) then Py.Raise Py.AssertionError
  else
    match data m with
    | None => Py.Raise Py.TypeError
    | Some d =>
        let count :=
          match Py.get d (b_id_table b) with
          | None => 1
          | Some c => c + 1
          end in
        let id_table := Py.set d count (b_id_table b) in
        let connector_name := d +:+ "_" +:+ pretty count in
        match Py.get d (arrays sdfg) with
        | None => Py.Raise (Py.KeyError d)
        | Some desc =>
            let found :=
              head (filter (fun n => accesses d n = true)
                      (source_nodes (b_state b))) in
            let '(access_node, st) :=
              match found with
              | Some n => (n, b_state b)
              | None =>
                  let n := AccessNode (length (nodes (b_state b))) d in
                  (n, add_node (b_state b) n)
              end in
            let st' :=
              add_edge st {| src := access_node; src_conn := None; dst := me;
                             dst_conn := Some connector_name; memlet := m |} in
            Py.Ok {| b_state := st';
                     b_map :=
                       {| map_label := map_label map;
                          params := params map ++ [s];
                          range := range map ++ [connector_name];
                          in_connectors :=
                            Py.set connector_name (dtype desc)
                              (in_connectors map) |};
                     b_id_table := id_table |}
        end
    end.

(** [n.data], an attribute of access nodes only. *)
Definition node_data (n : Node) : Py.result string :=
  match n with
  | AccessNode _ d => Py.Ok d
  | _ => Py.Raise (Py.AttributeError "data")
  end.

(** The loops that send the edges of the other source nodes through the
    map entry ([side = src]) and those of the other sink nodes through the
    map exit ([side = dst]). *)
Definition reroute_all (side : Edge -> Node) (via : Node) (id_table : Py.dict nat)
    (ends : list Node) (st : SDFGState) : Py.result SDFGState :=
  Py.for_each
    (fun st n =>
       d ← node_data n;
       if Py.mem d id_table then Py.Ok st
       else
         Py.Ok (foldl (fun st e =>
                         if bool_decide (side e = n)
                         then reroute_edge_through_map st e via else st)
                  st (edges st)))
    ends st.

(** Modelled from the spec: [SDFG.remove_symbol] is not part of this file;
    it removes the graph-level declaration of the symbol. *)
Definition remove_symbol (symbols : Py.dict string) (s : string) : Py.dict string :=
  Py.del s symbols.

(** The two statements of the last loop, on the assignments of the edge
    and the declarations of the graph: the assignment is popped, and a
    declared symbol loses its declaration. *)
Definition remove_assignment (st : Py.dict string * Py.dict string) (s : string)
  : Py.result (Py.dict string * Py.dict string) :=
  let '(assignments, symbols) := st in
  assignments' ← Py.pop s assignments;
  Py.Ok (assignments',
         if Py.mem s symbols then remove_symbol symbols s else symbols).

Definition set_assignments (e : CFEdge) (a : Py.dict string) : CFEdge :=
  {| cf_src := cf_src e; cf_dst := cf_dst e;
     cf_data := {| assignments := a; condition := condition (cf_data e) |} |}.

(** One turn of the last loop.  [self.symbol_edge] is read in the turn:
    on an object whose [symbol_edge] is still [None] the first turn
    raises, and a loop without turns does not. *)
Definition remove_assignment_on_edge (self : Instance)
    (st : list CFEdge * Py.dict string) (s : string)
  : Py.result (list CFEdge * Py.dict string) :=
  let '(es, declared) := st in
  match symbol_edge self with
  | None => Py.Raise (Py.AttributeError "data")
  | Some i =>
      match es !! i with
      | None => Py.Raise (Py.AttributeError "data")
      | Some e =>
          r ← remove_assignment (assignments (cf_data e), declared) s;
          Py.Ok (<[i := set_assignments e r.1]> es, r.2)
      end
  end.

Definition apply (map_symbols : ClassState) (self : Instance) (sdfg : SDFG)
  : Py.result (SDFG * Map) :=
  match states sdfg !! compute_state self with
  | None => Py.Raise (Py.AttributeError "label")
  | Some compute =>
      let map := {| map_label := label compute +:+ "_map"; params := [];
                    range := []; in_connectors := [] |} in
      let me := MapEntry (map_label map) in
      let mx := MapExit (map_label map) in
      b ← Py.for_each (add_map_symbol sdfg) map_symbols
            {| b_state := compute; b_map := map; b_id_table := [] |};
      st1 ← reroute_all src me (b_id_table b) (source_nodes (b_state b)) (b_state b);
      st2 ← reroute_all dst mx (b_id_table b) (sink_nodes st1) st1;
      r ← Py.for_each (remove_assignment_on_edge self) (Py.keys map_symbols)
            (cf_edges sdfg, symbols sdfg);
      Py.Ok ({| arrays := arrays sdfg;
                symbols := r.2;
                states := <[compute_state self := st2]> (states sdfg);
                cf_edges := r.1 |},
             b_map b)
  end.

End WithExternals.
End ConstSymbolToMap.

(** ** [dace/transformation/interstate/gpu_transform_sdfg.py] *)

Module GPUTransformSDFG.
Import Symbolic Dtypes.

(** A subset: one (begin, end, step) triple per dimension. *)
Definition Range : Type := list (expr * expr * expr).

Record Memlet : Type := {
  data : option string;
  subset : Range;
  (** what [get_dst_subset(edge, state)] gives for the edge of the memlet *)
  dst_subset : Range;
  volume : expr;
  dynamic : bool;
  wcr : option string;
}.

Inductive NodeKind : Type :=
| AccessNode (data : string)
| Tasklet (label : string)
| NestedSDFG (label : string)
| EntryNode
| ExitNode
| LibraryNode.

(** A node of a state; [node_id] stands for the identity of the object. *)
Record Node : Type := {
  node_id : nat;
  kind : NodeKind;
}.

Record Edge : Type := {
  src : Node;
  dst : Node;
  edge_data : Memlet;
}.

Record SDFGState : Type := {
  nodes : list Node;
  edges : list Edge;
}.

(** A graph: [parent_schedule] is the schedule of the nested-graph node
    that holds it, [None] for a graph without parent. *)
Record SDFG : Type := {
  arrays : Py.dict Data;
  states : list SDFGState;
  parent_schedule : option ScheduleType;
}.

#[global] Instance NodeKind_eq_dec : EqDecision NodeKind.
Proof. solve_decision. Defined.
#[global] Instance Node_eq_dec : EqDecision Node.
Proof. solve_decision. Defined.

Definition gpu_storage : list StorageType := [GPU_Global; GPU_Shared; CPU_Pinned].

(** What the file takes from the rest of the package and from the
    interpreter. *)
Class Externals : Type := {
  (** [state.memlet_path(e)] and [state.memlet_tree(e)], the latter as the
      edges its iteration yields. *)
  memlet_path : SDFGState -> Edge -> list Edge;
  memlet_tree : SDFGState -> Edge -> list Edge;
  (** [state.entry_node(node)] and [scope.is_devicelevel_gpu_kernel] *)
  entry_node : SDFGState -> Node -> option Node;
  is_devicelevel_gpu_kernel : SDFG -> SDFGState -> Node -> bool;
  (** [subset.num_elements()] and [sbs.Range.from_array(desc)] *)
  num_elements : Range -> expr;
  Range_from_array : Data -> Range;
  (** [vol / size == floor(vol / size)], as the algebra decides it *)
  is_integral_ratio : expr -> expr -> bool;
  (** the depth at which the interpreter raises [RecursionError] *)
  recursion_limit : nat;
  (** The order in which [set(pairs)] is enumerated: unspecified, any
      arrangement of the distinct pairs. *)
  set_iter : list (string * Data) -> list (string * Data);
  set_iter_perm : forall l, set_iter l ≡ₚ remove_dups l;
  (** Modelled from the spec: [find_new_name] is what
      [sdfg.add_datadesc(name, desc, find_new_name=True)] registers the
      descriptor under; the table's mutation primitives guarantee name
      uniqueness, so the name is none of those in use. *)
  find_new_name : string -> list string -> string;
  find_new_name_fresh : forall name used, find_new_name name used ∉ used;
}.

Section WithExternals.
Context `{Ext : Externals}.

Definition in_edges (st : SDFGState) (n : Node) : list Edge :=
  filter (fun e => dst e = n) (edges st).

Definition out_edges (st : SDFGState) (n : Node) : list Edge :=
  filter (fun e => src e = n) (edges st).

(** *** The recursive scalar checks *)

(** What one turn of the loop of [_recursive_out_check] and
    [_recursive_in_check] does with the access node [d] at the far end of
    the memlet path; [recurse] is the recursive call on that node. *)
Definition check_far_end (sdfg : SDFG) (gpu_scalars : gset string)
    (last_edge : Edge) (far : Node)
    (recurse : Node -> Py.result (gset string * bool))
    (acc : gset string * bool) : Py.result (gset string * bool) :=
  let '(scalset, scalout) := acc in
  match kind far with
  | AccessNode d =>
      match Py.get d (arrays sdfg) with
      | None => Py.Raise (Py.KeyError d)
      | Some desc =>
          if bool_decide (dclass desc = Scalar) then
            let scalout1 :=
              if bool_decide (storage desc ∈ gpu_storage ∨ d ∈ gpu_scalars)
              then false else scalout in
            r ← recurse far;
            Py.Ok (scalset ∪ {[ d ]} ∪ r.1, scalout1 && r.2)
          else if bool_decide (shape desc = [Integer 1]) then
            r ← recurse far;
            Py.Ok (scalset ∪ r.1, false && r.2)
          else if bool_decide ((storage desc ∉ gpu_storage)
                               ∧ (num_elements (subset (edge_data last_edge))
                                  = Integer 1)) then
            r ← recurse far;
            Py.Ok (scalset ∪ r.1, scalout && r.2)
          else Py.Ok (scalset, false)
      end
  | _ => Py.Ok acc
  end.

Fixpoint _recursive_out_check (depth : nat) (sdfg : SDFG) (node : Node)
    (state : SDFGState) (gpu_scalars : gset string)
  : Py.result (gset string * bool) :=
  match depth with
  | 0 => Py.Raise Py.RecursionError
  | S depth' =>
      Py.for_each
        (fun acc e =>
           match last (memlet_path state e) with
           | None => Py.Raise Py.IndexError
           | Some last_edge =>
               check_far_end sdfg gpu_scalars last_edge (dst last_edge)
                 (fun n => _recursive_out_check depth' sdfg n state gpu_scalars)
                 acc
           end)
        (out_edges state node) (∅, true)
  end.

Fixpoint _recursive_in_check (depth : nat) (sdfg : SDFG) (node : Node)
    (state : SDFGState) (gpu_scalars : gset string)
  : Py.result (gset string * bool) :=
  match depth with
  | 0 => Py.Raise Py.RecursionError
  | S depth' =>
      Py.for_each
        (fun acc e =>
           match head (memlet_path state e) with
           | None => Py.Raise Py.IndexError
           | Some last_edge =>
               check_far_end sdfg gpu_scalars last_edge (src last_edge)
                 (fun n => _recursive_in_check depth' sdfg n state gpu_scalars)
                 acc
           end)
        (in_edges state node) (∅, true)
  end.

(** *** Step 1 of [apply]: cloned arrays *)

(** What the two loops of step 1 read and update. *)
Record Cloning : Type := {
  c_arrays : Py.dict Data;
  data_already_on_gpu : Py.dict unit;
  cloned_arrays : Py.dict string;
  input_nodes : list (string * Data);
}.

(** [newdesc = desc.clone()] with GPU storage, made a transient. *)
Definition gpu_clone (desc : Data) : Data :=
  {| dclass := dclass desc; dtype := dtype desc; shape := shape desc;
     storage := GPU_Global; transient := true; lifetime := lifetime desc |}.

(** [sdfg.add_datadesc(name, desc, find_new_name=True)] *)
Definition add_datadesc (arrays : Py.dict Data) (name : string) (desc : Data)
  : Py.dict Data * string :=
  let name' := find_new_name name (Py.keys arrays) in
  (Py.set name' desc arrays, name').

Definition clone_input (c : Cloning) (item : string * Data) : Cloning :=
  let '(inodename, inode) := item in
  if bool_decide (storage inode = GPU_Global) then
    {| c_arrays := c_arrays c;
       data_already_on_gpu := Py.set inodename () (data_already_on_gpu c);
       cloned_arrays := cloned_arrays c;
       input_nodes := input_nodes c |}
  else if bool_decide (dclass inode = Scalar) then c
  else
    let '(arrays', name) :=
      add_datadesc (c_arrays c) ("gpu_" +:+ inodename) (gpu_clone inode) in
    {| c_arrays := arrays';
       data_already_on_gpu := data_already_on_gpu c;
       cloned_arrays := Py.set inodename name (cloned_arrays c);
       input_nodes := input_nodes c |}.

(** The loop over the edges of the memlet tree: no edge is dynamic or
    moves a fraction of its destination subset. *)
Definition is_full (state : SDFGState) (e : Edge) : bool :=
  forallb
    (fun pe =>
       negb (dynamic (edge_data pe)
             || negb (is_integral_ratio (volume (edge_data pe))
                        (num_elements (dst_subset (edge_data pe))))))
    (memlet_tree state e).

(** The search that ends with [raise StopIteration] at the first edge
    into an access node of the array that writes the whole of it. *)
Definition found_full_write (sdfg_states : list SDFGState) (onodename : string)
    (full_subset : Range) : bool :=
  existsb
    (fun state =>
       existsb
         (fun node =>
            bool_decide (kind node = AccessNode onodename)
            && existsb
                 (fun e =>
                    bool_decide (dst_subset (edge_data e) = full_subset)
                    && is_full state e)
                 (in_edges state node))
         (nodes state))
    sdfg_states.

Definition clone_output (sdfg_states : list SDFGState) (c : Cloning)
    (item : string * Data) : Cloning :=
  let '(onodename, onode) := item in
  if bool_decide (storage onode = GPU_Global) then
    {| c_arrays := c_arrays c;
       data_already_on_gpu := Py.set onodename () (data_already_on_gpu c);
       cloned_arrays := cloned_arrays c;
       input_nodes := input_nodes c |}
  else if Py.mem onodename (cloned_arrays c) then c
  else
    let '(arrays', name) :=
      add_datadesc (c_arrays c) ("gpu_" +:+ onodename) (gpu_clone onode) in
    {| c_arrays := arrays';
       data_already_on_gpu := data_already_on_gpu c;
       cloned_arrays := Py.set onodename name (cloned_arrays c);
       input_nodes :=
         if bool_decide ((onodename, onode) ∉ input_nodes c) then
           if found_full_write sdfg_states onodename (Range_from_array onode)
           then input_nodes c
           else input_nodes c ++ [(onodename, onode)]
         else input_nodes c |}.

(** Lines 246 to 299: both loops, from the classification of step 0. *)
Definition clone_arrays (sdfg : SDFG) (input_nodes0 output_nodes : list (string * Data))
  : Cloning :=
  let c0 := {| c_arrays := arrays sdfg; data_already_on_gpu := [];
               cloned_arrays := []; input_nodes := input_nodes0 |} in
  let c1 := foldl clone_input c0 (set_iter input_nodes0) in
  foldl (clone_output (states sdfg)) c1 (set_iter output_nodes).

(** *** Step 5 of [apply]: the loop over free tasklets *)

(** What the [while changed] loop reads and updates; the code nodes
    claimed are kept per state, in the order of [sdfg.states()]. *)
Record Scan : Type := {
  global_code_nodes : list (list Node);
  gpu_scalars : gset string;
  nsdfgs : list (Node * nat);
  changed : bool;
}.

Definition is_free (sdfg : SDFG) (state : SDFGState) (node : Node) : bool :=
  bool_decide (entry_node state node = None)
  && negb (is_devicelevel_gpu_kernel sdfg state node).

(** The body of the loop over the nodes of the state at position [i]. *)
Definition visit_node (sdfg : SDFG) (i : nat) (state : SDFGState) (s : Scan)
    (node : Node) : Py.result Scan :=
  match kind node with
  | NestedSDFG _ =>
      if is_free sdfg state node then
        Py.Ok {| global_code_nodes := global_code_nodes s;
                 gpu_scalars := gpu_scalars s;
                 nsdfgs := nsdfgs s ++ [(node, i)];
                 changed := changed s |}
      else Py.Ok s
  | Tasklet _ =>
      let claimed := default [] (global_code_nodes s !! i) in
      if bool_decide (node ∈ claimed) then Py.Ok s
      else if is_free sdfg state node then
        o ← _recursive_out_check recursion_limit sdfg node state (gpu_scalars s);
        i' ← _recursive_in_check recursion_limit sdfg node state (gpu_scalars s);
        let scalars := o.1 ∪ i'.1 in
        let scalar_output := o.2 && i'.2 in
        if negb scalar_output
           || bool_decide (parent_schedule sdfg = Some GPU_Default) then
          Py.Ok {| global_code_nodes :=
                     <[i := claimed ++ [node]]> (global_code_nodes s);
                   gpu_scalars := gpu_scalars s ∪ scalars;
                   nsdfgs := nsdfgs s;
                   changed := true |}
        else Py.Ok s
      else Py.Ok s
  | _ => Py.Ok s
  end.

(** One turn of the [while] loop, after [changed = False]. *)
Definition scan_states (sdfg : SDFG) (s : Scan) : Py.result Scan :=
  Py.for_each
    (fun s ist => Py.for_each (visit_node sdfg ist.1 ist.2) (nodes ist.2) s)
    (imap (fun i st => (i, st)) (states sdfg))
    {| global_code_nodes := global_code_nodes s; gpu_scalars := gpu_scalars s;
       nsdfgs := nsdfgs s; changed := false |}.

(** The [while changed] loop, run for at most [fuel] turns: [None] when
    the turns are used up with [changed] still set. *)
Fixpoint scalar_fixpoint (fuel : nat) (sdfg : SDFG) (s : Scan)
  : option (Py.result Scan) :=
  match fuel with
  | 0 => None
  | S fuel' =>
      match scan_states sdfg s with
      | Py.Raise e => Some (Py.Raise e)
      | Py.Ok s' =>
          if changed s' then scalar_fixpoint fuel' sdfg s' else Some (Py.Ok s')
      end
  end.

(** The scan as [apply] starts it: nothing claimed, [changed = True]. *)
Definition initial_scan (sdfg : SDFG) : Scan :=
  {| global_code_nodes := replicate (length (states sdfg)) [];
     gpu_scalars := ∅; nsdfgs := []; changed := true |}.

(** *** Vocabulary of the properties *)

(** A full write to the array: an edge into one of its access nodes whose
    destination subset is the whole array and in whose memlet tree no edge
    is dynamic or moves a fraction of its destination subset. *)
Definition full_write (sdfg_states : list SDFGState) (onodename : string)
    (full_subset : Range) : Prop :=
  exists state node e,
    state ∈ sdfg_states
    /\ node ∈ nodes state
    /\ kind node = AccessNode onodename
    /\ e ∈ in_edges state node
    /\ dst_subset (edge_data e) = full_subset
    /\ forall pe, pe ∈ memlet_tree state e ->
         dynamic (edge_data pe) = false
         /\ is_integral_ratio (volume (edge_data pe))
              (num_elements (dst_subset (edge_data pe))) = true.


Definition claimed_count (s : Scan) : nat :=
  length (concat (global_code_nodes s)).

(** The code nodes claimed are kept per state, each at most once, and
    are nodes of their state. *)
Definition well_claimed (sdfg : SDFG) (s : Scan) : Prop :=
  Forall2 (fun claimed state => NoDup claimed /\ claimed ⊆ nodes state)
    (global_code_nodes s) (states sdfg).

(** Both sets have grown, and [changed] was only set with a new claim. *)
Definition grows (s s' : Scan) : Prop :=
  claimed_count s <= claimed_count s'
  /\ gpu_scalars s ⊆ gpu_scalars s'
  /\ (changed s' = true -> changed s = true \/ claimed_count s < claimed_count s').

(** Every state has the claims it had, in their order, and the new ones
    after them.  Used to state properties. *)
Definition claims_extended (s s' : Scan) : Prop :=
  Forall2 (fun claimed claimed' => claimed `prefix_of` claimed')
    (global_code_nodes s) (global_code_nodes s').

(** The names and descriptors of the classification are those of the
    descriptor table: each pair was built as [(node.data, node.desc(sdfg))]. *)
Definition from_table (arrays : Py.dict Data) (l : list (string * Data)) : Prop :=
  forall n d, (n, d) ∈ l -> Py.get n arrays = Some d.

(** What step 1 keeps true of the descriptor table and of the clone
    mapping, [arrays0] being the table before the step: the keys of both
    are distinct, no descriptor of [arrays0] is lost or changed, the table
    has grown by one descriptor per cloned array, the shadow names are
    distinct, and each is a new key that holds the GPU clone of the
    descriptor of a host array. *)
Record cloning_ok (arrays0 arrays : Py.dict Data) (cloned : Py.dict string)
  : Prop := {
  ok_keys : NoDup (Py.keys arrays);
  ok_kept : forall k d, Py.get k arrays0 = Some d -> Py.get k arrays = Some d;
  ok_count : length arrays = length arrays0 + length cloned;
  ok_cloned_keys : NoDup (Py.keys cloned);
  ok_shadows : NoDup cloned.*2;
  ok_shadow : forall n g, (n, g) ∈ cloned ->
    (g ∉ Py.keys arrays0)
    /\ exists d, Py.get n arrays0 = Some d
                 /\ storage d ≠ GPU_Global
                 /\ Py.get g arrays = Some (gpu_clone d);
}.

(** Every name of the set is a scalar of the descriptor table.  Used to
    state properties. *)
Definition scalars_only (sdfg : SDFG) (names : gset string) : Prop :=
  forall k, k ∈ names ->
    exists desc, Py.get k (arrays sdfg) = Some desc /\ dclass desc = Scalar.

(** Two values of the loop that differ in the nested graphs recorded
    only.  Used to state properties. *)
Definition same_claims (s s' : Scan) : Prop :=
  global_code_nodes s' = global_code_nodes s
  /\ gpu_scalars s' = gpu_scalars s
  /\ changed s' = changed s.

(** From [s] to [s'] the flag [changed] was not cleared, and it was set
    if a tasklet was claimed or a scalar marked.  Used to state
    properties. *)
Definition quiet (s s' : Scan) : Prop :=
  (changed s = true -> changed s' = true)
  /\ (changed s' = false ->
      global_code_nodes s' = global_code_nodes s
      /\ gpu_scalars s' = gpu_scalars s).

(** The far end of a path is an access node of an array that is no
    scalar, has not the shape of one element, and is not read or written
    at one element on the host: the case in which the checks answer
    [False].  Used to state properties. *)
Definition far_array (sdfg : SDFG) (last_edge : Edge) (far : Node) : Prop :=
  exists d desc,
    kind far = AccessNode d
    /\ Py.get d (arrays sdfg) = Some desc
    /\ dclass desc ≠ Scalar
    /\ shape desc ≠ [Integer 1]
    /\ ¬ ((storage desc ∉ gpu_storage)
          /\ num_elements (subset (edge_data last_edge)) = Integer 1).

(** The free nested graphs of the state at position [i], and of all
    states, in the order of the loop.  Used to state properties. *)
Definition free_nested_in (sdfg : SDFG) (i : nat) (state : SDFGState)
  : list (Node * nat) :=
  omap (fun node =>
          match kind node with
          | NestedSDFG _ =>
              if is_free sdfg state node then Some (node, i) else None
          | _ => None
          end)
    (nodes state).

Definition free_nested (sdfg : SDFG) : list (Node * nat) :=
  concat (imap (free_nested_in sdfg) (states sdfg)).

(** *** Step 0 of [apply]: inputs and outputs *)

Section Classification.

(** [e.dst_conn], the connector an edge enters its destination by;
    [node in self.host_maps]; and [self.host_data] as the loop over the
    host maps leaves it. *)
Variable dst_conn : Edge -> option string.
Variable in_host_maps : Node -> bool.
Variable host_data : list string.

(** The test that ends the loop over the outgoing edges with [break]:
    the path leads to a scope entry, by a connector that is no [IN_]
    connector of a top-level scope, or to a host map. *)
Definition stays_on_host (state : SDFGState) (last_edge : Edge) : bool :=
  bool_decide (kind (dst last_edge) = EntryNode)
  && (match dst_conn last_edge with
      | Some (String _ _ as conn) =>
          negb (String.prefix "IN_" conn)
          && bool_decide (entry_node state (dst last_edge) = None)
      | _ => false
      end
      || in_host_maps (dst last_edge)).

(** The [for ... else] over the outgoing edges: [true] when it is left
    with [break]. *)
Fixpoint leads_to_host (state : SDFGState) (es : list Edge) : Py.result bool :=
  match es with
  | [] => Py.Ok false
  | e :: es' =>
      match last (memlet_path state e) with
      | None => Py.Raise Py.IndexError
      | Some last_edge =>
          if stays_on_host state last_edge then Py.Ok true
          else leads_to_host state es'
      end
  end.

(** [node.desc(sdfg)] and [sdfg.arrays[name]] *)
Definition node_desc (sdfg : SDFG) (d : string) : Py.result Data :=
  match Py.get d (arrays sdfg) with
  | Some desc => Py.Ok desc
  | None => Py.Raise (Py.KeyError d)
  end.

(** One turn of the loop over the nodes of a state.  The tests
    [node.data not in input_nodes] and [node.data not in output_nodes]
    compare a name with pairs and hold always. *)
Definition classify_node (sdfg : SDFG) (state : SDFGState)
    (acc : list (string * Data) * list (string * Data)) (node : Node)
  : Py.result (list (string * Data) * list (string * Data)) :=
  match kind node with
  | AccessNode d =>
      desc ← node_desc sdfg d;
      if transient desc then Py.Ok acc
      else
        ins ← (if bool_decide (out_edges state node ≠ []) then
                 b ← leads_to_host state (out_edges state node);
                 Py.Ok (if b : bool then acc.1 else acc.1 ++ [(d, desc)])
               else Py.Ok acc.1);
        Py.Ok (ins,
               if bool_decide (in_edges state node ≠ [])
                  && bool_decide (d ∉ host_data)
               then acc.2 ++ [(d, desc)] else acc.2)
  | _ => Py.Ok acc
  end.

(** One turn of the loop over the edges of a state: the array of a
    memlet with write-conflict resolution is an input. *)
Definition classify_wcr (sdfg : SDFG) (ins : list (string * Data)) (e : Edge)
  : Py.result (list (string * Data)) :=
  match wcr (edge_data e) with
  | None => Py.Ok ins
  | Some _ =>
      match data (edge_data e) with
      | None => Py.Raise (Py.KeyError "None")
      | Some d =>
          desc ← node_desc sdfg d;
          if transient desc then Py.Ok ins else Py.Ok (ins ++ [(d, desc)])
      end
  end.

Definition classify_state (sdfg : SDFG)
    (acc : list (string * Data) * list (string * Data)) (state : SDFGState)
  : Py.result (list (string * Data) * list (string * Data)) :=
  acc1 ← Py.for_each (classify_node sdfg state) (nodes state) acc;
  ins ← Py.for_each (classify_wcr sdfg) (edges state) acc1.1;
  Py.Ok (ins, acc1.2).

(** Lines 215 to 238: [input_nodes] and [output_nodes]. *)
Definition classify (sdfg : SDFG)
  : Py.result (list (string * Data) * list (string * Data)) :=
  Py.for_each (classify_state sdfg) (states sdfg) ([], []).

End Classification.

(** Both lists of the classification have grown.  Used to state
    properties. *)
Definition classified_grows
    (acc acc' : list (string * Data) * list (string * Data)) : Prop :=
  acc.1 ⊆ acc'.1 /\ acc.2 ⊆ acc'.2.

(** What the classification keeps true of its two lists: the pairs are
    names with their descriptors in the table, no descriptor is a
    transient, and no output is host data.  Used to state properties. *)
Definition classified (sdfg : SDFG) (host_data : list string)
    (acc : list (string * Data) * list (string * Data)) : Prop :=
  from_table (arrays sdfg) acc.1
  /\ from_table (arrays sdfg) acc.2
  /\ (forall n d, (n, d) ∈ acc.1 \/ (n, d) ∈ acc.2 -> transient d = false)
  /\ (forall n d, (n, d) ∈ acc.2 -> n ∉ host_data).

(** *** Lines 311 to 321: nodes and memlets go to the shadows *)

Definition redirect_node (cloned : Py.dict string) (n : Node) : Node :=
  match kind n with
  | AccessNode d =>
      match Py.get d cloned with
      | Some g => {| node_id := node_id n; kind := AccessNode g |}
      | None => n
      end
  | _ => n
  end.

Definition redirect_memlet (cloned : Py.dict string) (m : Memlet) : Memlet :=
  match data m with
  | Some d =>
      match Py.get d cloned with
      | Some g =>
          {| data := Some g; subset := subset m; dst_subset := dst_subset m;
             volume := volume m; dynamic := dynamic m; wcr := wcr m |}
      | None => m
      end
  | None => m
  end.

(** The edges of a state hold its node objects, so a node renamed is
    renamed at the ends of its edges. *)
Definition redirect_state (cloned : Py.dict string) (st : SDFGState) : SDFGState :=
  {| nodes := redirect_node cloned <$> nodes st;
     edges :=
       (fun e => {| src := redirect_node cloned (src e);
                    dst := redirect_node cloned (dst e);
                    edge_data := redirect_memlet cloned (edge_data e) |})
         <$> edges st |}.

(** The array names a state refers to, access nodes first, then memlets.
    Used to state properties. *)
Definition state_refs (st : SDFGState) : list string :=
  omap (fun n => match kind n with AccessNode d => Some d | _ => None end)
    (nodes st)
  ++ omap (fun e => data (edge_data e)) (edges st).

(** *** Step 6 of [apply]: the storage of transients *)

Definition with_storage (desc : Data) (st : StorageType) : Data :=
  {| dclass := dclass desc; dtype := dtype desc; shape := shape desc;
     storage := st; transient := transient desc; lifetime := lifetime desc |}.

Definition with_lifetime (desc : Data) (lt : AllocationLifetime) : Data :=
  {| dclass := dclass desc; dtype := dtype desc; shape := shape desc;
     storage := storage desc; transient := transient desc; lifetime := lt |}.

(** [any(isinstance(state.memlet_path(e)[-1].dst, nodes.EntryNode) for e
    in state.out_edges(node))] *)
Fixpoint leads_to_scope (state : SDFGState) (es : list Edge) : Py.result bool :=
  match es with
  | [] => Py.Ok false
  | e :: es' =>
      match last (memlet_path state e) with
      | None => Py.Raise Py.IndexError
      | Some last_edge =>
          if bool_decide (kind (dst last_edge) = EntryNode) then Py.Ok true
          else leads_to_scope state es'
      end
  end.

Section Promote.

(** [self.host_data], the options [toplevel_trans] and [register_trans],
    [xfh.constant_symbols(sdfg)], and the names of
    [nodedesc.free_symbols]. *)
Variable host_data : list string.
Variable toplevel_trans register_trans : bool.
Variable const_syms : gset string.
Variable desc_free_symbols : Data -> gset string.

(** One turn of the loop over the nodes of a state; the descriptor of
    the node is an object of the table and is changed in place. *)
Definition promote_node (gpu_scalars : gset string) (state : SDFGState)
    (arrays : Py.dict Data) (node : Node) : Py.result (Py.dict Data) :=
  match kind node with
  | AccessNode d =>
      match Py.get d arrays with
      | None => Py.Raise (Py.KeyError d)
      | Some nodedesc =>
          if transient nodedesc then
            b ← leads_to_scope state (out_edges state node);
            if b : bool then Py.Ok arrays
            else if bool_decide (entry_node state node = None)
                    && bool_decide (storage nodedesc ∉ gpu_storage) then
              if bool_decide (dclass nodedesc = Scalar)
                 && bool_decide (d ∉ gpu_scalars)
              then Py.Ok arrays
              else
                let desc1 :=
                  if bool_decide (d ∉ host_data)
                  then with_storage nodedesc GPU_Global else nodedesc in
                let desc2 :=
                  if toplevel_trans
                     && negb (bool_decide (dclass desc1 = Stream
                                           ∨ dclass desc1 = View))
                     && bool_decide (desc_free_symbols desc1 ∖ const_syms = ∅)
                  then with_lifetime desc1 SDFG_Lifetime else desc1 in
                Py.Ok (Py.set d desc2 arrays)
            else if bool_decide (storage nodedesc ∉ gpu_storage) then
              if register_trans
              then Py.Ok (Py.set d (with_storage nodedesc Register) arrays)
              else Py.Ok arrays
            else Py.Ok arrays
          else Py.Ok arrays
      end
  | _ => Py.Ok arrays
  end.

(** Lines 461 to 490: the descriptor table after the loop. *)
Definition promote_transients (sdfg : SDFG) (gpu_scalars : gset string)
  : Py.result (Py.dict Data) :=
  Py.for_each
    (fun arrays state =>
       Py.for_each (promote_node gpu_scalars state) (nodes state) arrays)
    (states sdfg) (arrays sdfg).

End Promote.

(** From one descriptor table to a later one of step 6: the names are
    the same in the same order, every descriptor is a transient or not
    and of its class as before, and one that was in GPU storage, or no
    transient, is as it was.  Used to state properties. *)
Definition promoted (arrays arrays' : Py.dict Data) : Prop :=
  Py.keys arrays' = Py.keys arrays
  /\ forall k desc, Py.get k arrays = Some desc ->
       exists desc',
         Py.get k arrays' = Some desc'
         /\ transient desc' = transient desc
         /\ dclass desc' = dclass desc
         /\ (storage desc ∈ gpu_storage \/ transient desc = false ->
             desc' = desc).

(** *** Step 8 of [apply]: [_create_copy_out] *)

(** What [_create_copy_out] reads and updates: the descriptor table, the
    host names kept for the scalars on the device and for the data found
    on the device (a name or [None]), the copies added to the interim
    state as device array and host array, and [name_mapping]. *)
Record CopyOut : Type := {
  co_arrays : Py.dict Data;
  co_gpu_scalars : Py.dict (option string);
  co_on_gpu : Py.dict (option string);
  co_copies : list (string * string);
  co_mapping : Py.dict string;
}.

(** [desc.clone()] stored on the host heap, made a transient. *)
Definition host_clone (desc : Data) : Data :=
  {| dclass := dclass desc; dtype := dtype desc; shape := shape desc;
     storage := CPU_Heap; transient := true; lifetime := lifetime desc |}.

(** [not hostname] is false for a name that is not empty. *)
Definition is_name (hostname : option string) : bool :=
  match hostname with
  | Some (String _ _) => true
  | _ => false
  end.

(** The branch taken for a name of [table], which is [gpu_scalars] or
    [data_already_on_gpu]: the host name kept for it, or a new host
    descriptor that is then kept. *)
Definition host_name_of (arrays : Py.dict Data) (table : Py.dict (option string))
    (nname : string) : Py.result (Py.dict Data * Py.dict (option string) * string) :=
  match Py.get nname table with
  | None => Py.Raise (Py.KeyError nname)
  | Some hostname =>
      match hostname with
      | Some (String _ _ as h) =>
          match Py.get h arrays with
          | Some _ => Py.Ok (arrays, table, h)
          | None => Py.Raise (Py.KeyError h)
          end
      | _ =>
          match Py.get nname arrays with
          | None => Py.Raise (Py.KeyError nname)
          | Some desc =>
              let '(arrays', h) :=
                add_datadesc arrays ("host_" +:+ nname) (host_clone desc) in
              Py.Ok (arrays', Py.set nname (Some h) table, h)
          end
      end
  end.

(** One turn of the loop over [arrays_used]. *)
Definition copy_out_one (cloned : Py.dict string) (st : CopyOut) (nname : string)
  : Py.result CopyOut :=
  r ← (if Py.mem nname (co_gpu_scalars st) then
         r ← host_name_of (co_arrays st) (co_gpu_scalars st) nname;
         Py.Ok (r.1.1, r.1.2, co_on_gpu st, r.2, nname)
       else if Py.mem nname (co_on_gpu st) then
         r ← host_name_of (co_arrays st) (co_on_gpu st) nname;
         Py.Ok (r.1.1, co_gpu_scalars st, r.1.2, r.2, nname)
       else
         match Py.get nname (co_arrays st), Py.get nname cloned with
         | None, _ => Py.Raise (Py.KeyError nname)
         | Some _, None => Py.Raise (Py.KeyError nname)
         | Some _, Some devicename =>
             Py.Ok (co_arrays st, co_gpu_scalars st, co_on_gpu st, nname,
                    devicename)
         end);
  let '(arrays, scalars, on_gpu, hostname, devicename) := r in
  match Py.get hostname arrays with
  | None => Py.Raise (Py.KeyError hostname)
  | Some _ =>
      Py.Ok {| co_arrays := arrays;
               co_gpu_scalars := scalars;
               co_on_gpu := on_gpu;
               co_copies := co_copies st ++ [(devicename, hostname)];
               co_mapping := Py.set devicename hostname (co_mapping st) |}
  end.

Section InterimCopyOut.

(** The order in which the set [arrays_used] is enumerated. *)
Variable names_iter : list string -> list string.

(** [_create_copy_out(arrays_used)], with a new interim state and a new
    [name_mapping]. *)
Definition _create_copy_out (cloned : Py.dict string) (st : CopyOut)
    (arrays_used : list string) : Py.result CopyOut :=
  Py.for_each (copy_out_one cloned)
    (names_iter arrays_used)
    {| co_arrays := co_arrays st; co_gpu_scalars := co_gpu_scalars st;
       co_on_gpu := co_on_gpu st; co_copies := []; co_mapping := [] |}.

End InterimCopyOut.

(** What the calls of [_create_copy_out] keep true: the names of the
    descriptor table are distinct, and every host name kept is a name of
    the table other than the empty one.  Used to state properties. *)
Definition host_names_kept (st : CopyOut) : Prop :=
  NoDup (Py.keys (co_arrays st))
  /\ (forall n h, Py.get n (co_gpu_scalars st) = Some (Some h) ->
        h ∈ Py.keys (co_arrays st))
  /\ (forall n h, Py.get n (co_on_gpu st) = Some (Some h) ->
        h ∈ Py.keys (co_arrays st)).

(** The host name kept for a name is a name that is not empty; and it
    is one, or is what [find_new_name] gave for the name.  Used to state
    properties. *)
Definition named (table : Py.dict (option string)) (n : string) : Prop :=
  exists h, Py.get n table = Some (Some h) /\ is_name (Some h) = true.

Definition resolved (table : Py.dict (option string)) (n : string) : Prop :=
  exists h,
    Py.get n table = Some (Some h)
    /\ (is_name (Some h) = true
        \/ exists used, h = find_new_name ("host_" +:+ n) used).

(** The names used are names of the table, and each is a scalar on the
    device, data found on the device, or an array with a shadow.  Used to
    state properties. *)
Definition device_names (cloned : Py.dict string) (st : CopyOut)
    (used : list string) : Prop :=
  forall n, n ∈ used ->
    n ∈ Py.keys (co_arrays st)
    /\ (n ∈ Py.keys (co_gpu_scalars st) \/ n ∈ Py.keys (co_on_gpu st)
        \/ n ∈ Py.keys cloned).

(** *** Steps 2 and 3 of [apply]: what is copied in and out *)

Section Copies.

(** [dtypes.deduplicate]: the distinct pairs of the list. *)
Variable deduplicate : list (string * Data) -> list (string * Data).

(** The copies the loop adds to the copy state, one for every turn that
    reaches [add_nedge], as the host array and its shadow; [excluded] is
    the comma-separated text of the option. *)
Definition copies (excluded : string) (classified : list (string * Data))
    (cloned : Py.dict string) : list (string * string) :=
  omap (fun item : string * Data =>
          let nname := item.1 in
          if bool_decide (nname ∈ Str.split "," excluded)
             || negb (Py.mem nname cloned)
          then None
          else (fun g => (nname, g)) <$> Py.get nname cloned)
    (deduplicate classified).

End Copies.

End WithExternals.
End GPUTransformSDFG.

(** ** Worked inputs *)

Module Examples.
Import Symbolic Dtypes.

(** Stand-ins for what [replace.py] imports: names parse to symbols and
    print as themselves, a Python statement is its list of identifiers, a
    set is enumerated in the order of first insertion, a control edge is
    its assignments. *)
#[export] Instance replace_externals : Replace.Externals := {|
  Replace.pystr_to_symbolic := Symbol;
  Replace.pyexpr2cpp := fun text => text;
  Replace.py_stmt := list string;
  Replace.ASTFindReplace_visit :=
    fun repl stmt => (fun t => default t (Py.get t repl)) <$> stmt;
  Replace.set_iter := remove_dups;
  Replace.set_iter_perm := fun l => reflexivity (remove_dups l);
  Replace.InterstateEdge := Py.dict string;
  Replace.InterstateEdge_replace_dict :=
    fun repl a => (fun kv => (kv.1, default kv.2 (Py.get kv.2 repl))) <$> a;
  Replace.MetaAccesses := list string;
  Replace.replace_meta_accesses :=
    fun repl m => (fun t => default t (Py.get t repl)) <$> m;
|}.

(** A tasklet whose C++ body reads [n]; no connector is called [n]. *)
Definition cpp_tasklet : Replace.Node := {|
  Replace.node_type := Replace.Tasklet;
  Replace.properties :=
    [("label", Some (Replace.OtherProperty "t"));
     ("code", Some (Replace.CodeProperty
                      {| Replace.code := Replace.CodeStr "out = n + 1;";
                         Replace.language := CPP |}))];
  Replace.connectors := Some ([], ["out"]);
  Replace.ignored_symbols := ∅;
|}.

(** A map entry whose symbolic property holds [a**b]. *)
Definition power_node : Replace.Node := {|
  Replace.node_type := Replace.MapEntry;
  Replace.properties :=
    [("size", Some (Replace.SymbolicProperty
                      (Basic (Pow (Symbol "a") (Symbol "b")))))];
  Replace.connectors := None;
  Replace.ignored_symbols := ∅;
|}.

Definition cpp_tasklet_graph : Replace.Subgraph :=
  {| Replace.nodes := [cpp_tasklet]; Replace.edges := [] |}.

(** One memlet [x[i]] of volume [n] beside the tasklet. *)
Definition indexed_read : Replace.Memlet := {|
  Replace.data := Some "x";
  Replace.subset := Some [Replace.DimEntry (Basic (Symbol "i"))];
  Replace.other_subset := None;
  Replace.volume := Symbol "n";
|}.

Definition memlet_graph : Replace.Subgraph :=
  {| Replace.nodes := [cpp_tasklet]; Replace.edges := [indexed_read] |}.

(** The same body in a dialect other than C++. *)
Definition opencl_code : Replace.CodeBlock :=
  {| Replace.code := Replace.CodeStr "out = n + 1;";
     Replace.language := OpenCL |}.

Definition cpp_code : Replace.CodeBlock :=
  {| Replace.code := Replace.CodeStr "out = n + 1;";
     Replace.language := CPP |}.

Definition array_desc : Data := {|
  dclass := Array; dtype := "float64"; shape := [Symbol "N"];
  storage := Default; transient := false; lifetime := Scope |}.

Definition index_desc : Data := {|
  dclass := Array; dtype := "uint32"; shape := [Symbol "M"];
  storage := Default; transient := false; lifetime := Scope |}.

(** A graph with two descriptors [x] and [y] and one state reading [x]. *)
Definition two_arrays : Replace.SDFG := {|
  Replace.arrays := [("x", array_desc); ("y", index_desc)];
  Replace.constants_prop := [];
  Replace.sdfg_edges := [];
  Replace.sdfg_nodes :=
    [Replace.SDFGState
       {| Replace.nodes :=
            [{| Replace.node_type := Replace.AccessNode;
                Replace.properties := [("data", Some (Replace.DataProperty "x"))];
                Replace.connectors := None;
                Replace.ignored_symbols := ∅ |}];
          Replace.edges := [] |}];
  Replace.sdfg_meta := [];
|}.

(** The same graph with a constant of the name [x]. *)
Definition two_arrays_with_constant : Replace.SDFG := {|
  Replace.arrays := Replace.arrays two_arrays;
  Replace.constants_prop := [("x", 4%Z)];
  Replace.sdfg_edges := Replace.sdfg_edges two_arrays;
  Replace.sdfg_nodes := Replace.sdfg_nodes two_arrays;
  Replace.sdfg_meta := Replace.sdfg_meta two_arrays;
|}.

(** *** Constant symbols *)

(** A stand-in for [dtypes.validate_name]: an ASCII identifier. *)
Definition valid_name (s : string) : bool :=
  match s with
  | EmptyString => false
  | String c _ =>
      negb ((48 <=? nat_of_ascii c)%nat && (nat_of_ascii c <=? 57)%nat)
      && forallb Str.is_ascii_word_char (list_ascii_of_string s)
  end.

(** A stand-in for [Memlet(text)]: a text that does not end in a closing
    bracket is the name of an array; one that does is cut at its opening
    brackets, which gives a name and a subset, or, with any other number
    of parts, a [ValueError]; a name that is no identifier is a
    [SyntaxError]. *)
Definition parse_memlet (text : string) : Py.result ConstSymbolToMap.Memlet :=
  match String.rev text with
  | String "]" r =>
      match Str.split "[" (String.rev r) with
      | [name; sub] =>
          if valid_name name
          then Py.Ok {| ConstSymbolToMap.data := Some name;
                        ConstSymbolToMap.subset := Some sub |}
          else Py.Raise Py.SyntaxError
      | _ => Py.Raise Py.ValueError
      end
  | _ =>
      if valid_name text
      then Py.Ok {| ConstSymbolToMap.data := Some text;
                    ConstSymbolToMap.subset := None |}
      else Py.Raise Py.SyntaxError
  end.

(** Stand-ins for what [const_symbol_to_map.py] imports: the free symbols
    of a state are the names in the subsets of its memlets; a memlet path
    through a scope node is two edges with a connector pair named after
    the array. *)
#[export] Instance const_symbol_externals : ConstSymbolToMap.Externals := {|
  ConstSymbolToMap.Memlet_parse := parse_memlet;
  ConstSymbolToMap.state_free_symbols := fun st =>
    list_to_set
      (filter (fun w => valid_name w = true)
         (ConstSymbolToMap.edges st ≫= fun e =>
            Str.findall_words
              (default EmptyString
                 (ConstSymbolToMap.subset (ConstSymbolToMap.memlet e)))));
  ConstSymbolToMap.add_memlet_path := fun st src via dst src_conn dst_conn m =>
    let c := default EmptyString (ConstSymbolToMap.data m) in
    ConstSymbolToMap.add_edge
      (ConstSymbolToMap.add_edge st
         {| ConstSymbolToMap.src := src; ConstSymbolToMap.src_conn := src_conn;
            ConstSymbolToMap.dst := via;
            ConstSymbolToMap.dst_conn := Some ("IN_" +:+ c);
            ConstSymbolToMap.memlet := m |})
      {| ConstSymbolToMap.src := via;
         ConstSymbolToMap.src_conn := Some ("OUT_" +:+ c);
         ConstSymbolToMap.dst := dst; ConstSymbolToMap.dst_conn := dst_conn;
         ConstSymbolToMap.memlet := m |};
|}.

(** A state that reads [x[k]] into a tasklet and writes [y[0]]. *)
Definition gather_state (label : string) : ConstSymbolToMap.SDFGState :=
  let x := ConstSymbolToMap.AccessNode 0 "x" in
  let t := ConstSymbolToMap.CodeNode 1 "t" in
  let y := ConstSymbolToMap.AccessNode 2 "y" in
  {| ConstSymbolToMap.label := label;
     ConstSymbolToMap.nodes := [x; t; y];
     ConstSymbolToMap.edges :=
       [{| ConstSymbolToMap.src := x; ConstSymbolToMap.src_conn := None;
           ConstSymbolToMap.dst := t; ConstSymbolToMap.dst_conn := Some "a";
           ConstSymbolToMap.memlet :=
             {| ConstSymbolToMap.data := Some "x";
                ConstSymbolToMap.subset := Some "k" |} |};
        {| ConstSymbolToMap.src := t; ConstSymbolToMap.src_conn := Some "b";
           ConstSymbolToMap.dst := y; ConstSymbolToMap.dst_conn := None;
           ConstSymbolToMap.memlet :=
             {| ConstSymbolToMap.data := Some "y";
                ConstSymbolToMap.subset := Some "0" |} |}] |}.

(** Three states: [init] leads to the sinks [body] and [other]; both read
    [x[k]].  The edge to [body] assigns [k = A_row[i]], the edge to [other]
    assigns [k = i + 1].  The symbol [k] is declared, and [init] reads it
    too. *)
Definition two_candidates : ConstSymbolToMap.SDFG := {|
  ConstSymbolToMap.arrays :=
    [("A_row", index_desc); ("x", array_desc); ("y", array_desc)];
  ConstSymbolToMap.symbols := [("k", "uint32"); ("i", "uint32")];
  ConstSymbolToMap.states :=
    [gather_state "init"; gather_state "body"; gather_state "other"];
  ConstSymbolToMap.cf_edges :=
    [{| ConstSymbolToMap.cf_src := 0; ConstSymbolToMap.cf_dst := 1;
        ConstSymbolToMap.cf_data :=
          {| ConstSymbolToMap.assignments := [("k", "A_row[i]")];
             ConstSymbolToMap.condition := "1" |} |};
     {| ConstSymbolToMap.cf_src := 0; ConstSymbolToMap.cf_dst := 2;
        ConstSymbolToMap.cf_data :=
          {| ConstSymbolToMap.assignments := [("k", "i + 1")];
             ConstSymbolToMap.condition := "1" |} |}];
|}.

(** A state whose tasklet reads the symbol [k] only and writes [y[k]],
    and a graph in which it follows [init], with [k = A_row[i]] on the
    edge. *)
Definition fill_state : ConstSymbolToMap.SDFGState :=
  let t := ConstSymbolToMap.CodeNode 0 "t" in
  let y := ConstSymbolToMap.AccessNode 1 "y" in
  {| ConstSymbolToMap.label := "fill";
     ConstSymbolToMap.nodes := [t; y];
     ConstSymbolToMap.edges :=
       [{| ConstSymbolToMap.src := t; ConstSymbolToMap.src_conn := Some "b";
           ConstSymbolToMap.dst := y; ConstSymbolToMap.dst_conn := None;
           ConstSymbolToMap.memlet :=
             {| ConstSymbolToMap.data := Some "y";
                ConstSymbolToMap.subset := Some "k" |} |}] |}.

Definition fill_graph : ConstSymbolToMap.SDFG := {|
  ConstSymbolToMap.arrays :=
    [("A_row", index_desc); ("x", array_desc); ("y", array_desc)];
  ConstSymbolToMap.symbols := [("k", "uint32"); ("i", "uint32")];
  ConstSymbolToMap.states := [gather_state "init"; fill_state];
  ConstSymbolToMap.cf_edges :=
    [{| ConstSymbolToMap.cf_src := 0; ConstSymbolToMap.cf_dst := 1;
        ConstSymbolToMap.cf_data :=
          {| ConstSymbolToMap.assignments := [("k", "A_row[i]")];
             ConstSymbolToMap.condition := "1" |} |}];
|}.

(** Two states: the edge from [init] to the sink [body], which reads
    [x[k]], assigns [k] the difference of two reads of [A_row]. *)
Definition difference_graph : ConstSymbolToMap.SDFG := {|
  ConstSymbolToMap.arrays :=
    [("A_row", index_desc); ("x", array_desc); ("y", array_desc)];
  ConstSymbolToMap.symbols := [("k", "uint32"); ("i", "uint32")];
  ConstSymbolToMap.states := [gather_state "init"; gather_state "body"];
  ConstSymbolToMap.cf_edges :=
    [{| ConstSymbolToMap.cf_src := 0; ConstSymbolToMap.cf_dst := 1;
        ConstSymbolToMap.cf_data :=
          {| ConstSymbolToMap.assignments :=
               [("k", "A_row[i + 1] - A_row[i]")];
             ConstSymbolToMap.condition := "1" |} |}];
|}.

(** The two matches of the pattern, as the matcher binds them. *)
Definition body_candidate : ConstSymbolToMap.Instance :=
  {| ConstSymbolToMap.symbol_state := 0; ConstSymbolToMap.compute_state := 1;
     ConstSymbolToMap.symbol_edge := None |}.

Definition other_candidate : ConstSymbolToMap.Instance :=
  {| ConstSymbolToMap.symbol_state := 0; ConstSymbolToMap.compute_state := 2;
     ConstSymbolToMap.symbol_edge := None |}.

(** *** Device offload *)

(** Stand-ins for what [gpu_transform_sdfg.py] imports: every memlet path
    and tree is the edge alone, no node is inside a scope, a volume fills
    its subset when the two expressions are the same, a set is enumerated
    in the order of first insertion, and a name in use gets an underscore
    and as many zeros as makes it longer than every name in use. *)
#[export, refine] Instance gpu_externals : GPUTransformSDFG.Externals := {|
  GPUTransformSDFG.memlet_path := fun _ e => [e];
  GPUTransformSDFG.memlet_tree := fun _ e => [e];
  GPUTransformSDFG.entry_node := fun _ _ => None;
  GPUTransformSDFG.is_devicelevel_gpu_kernel := fun _ _ _ => false;
  GPUTransformSDFG.num_elements := fun r =>
    foldr (fun d acc =>
             Mul (Add (Add d.1.2 (Mul (Integer (-1)) d.1.1)) (Integer 1)) acc)
      (Integer 1) r;
  GPUTransformSDFG.Range_from_array := fun desc =>
    (fun s => (Integer 0, Add s (Integer (-1)), Integer 1)) <$> shape desc;
  GPUTransformSDFG.is_integral_ratio := fun vol size => bool_decide (vol = size);
  GPUTransformSDFG.recursion_limit := 1000;
  GPUTransformSDFG.set_iter := remove_dups;
  GPUTransformSDFG.set_iter_perm := fun l => reflexivity (remove_dups l);
  GPUTransformSDFG.find_new_name := fun name used =>
    if bool_decide (name ∈ used) then
      name +:+ "_"
      +:+ Str.concat_all (replicate (sum_list (String.length <$> used)) "0")
    else name;
  GPUTransformSDFG.find_new_name_fresh := _;
|}.
Proof.
  intros name used. case_bool_decide as Hin; [|exact Hin].
  assert (Hlen : forall x, x ∈ used ->
                 String.length x <= sum_list (String.length <$> used)).
  { clear Hin. intros x. induction used as [|y used IH]; intros Hx.
    - by apply elem_of_nil in Hx.
    - csimpl. apply elem_of_cons in Hx as [->|Hx]; [lia|].
      etrans; [by apply IH|lia]. }
  assert (Happ : forall a b, String.length (a +:+ b)
                             = String.length a + String.length b).
  { intros a b. induction a as [|c a IH]; [done|]. simpl. by rewrite <- IH. }
  assert (Hzeros : forall n, String.length (Str.concat_all (replicate n "0")) = n).
  { intros n. induction n as [|n IH]; [done|].
    unfold Str.concat_all in *. cbn [replicate foldr].
    by rewrite Happ, IH. }
  intros Hbad. apply Hlen in Hbad.
  rewrite !Happ, Hzeros in Hbad. simpl in Hbad. lia.
Defined.

Definition gpu_array_desc : Data := {|
  dclass := Array; dtype := "float64"; shape := [Symbol "N"];
  storage := GPU_Global; transient := false; lifetime := Scope |}.

Definition scalar_desc : Data := {|
  dclass := Scalar; dtype := "float64"; shape := [Integer 1];
  storage := Default; transient := true; lifetime := Scope |}.

(** A write of all of, or of the first element of, a one-dimensional
    array of [N] elements. *)
Definition full_range : GPUTransformSDFG.Range :=
  [(Integer 0, Add (Symbol "N") (Integer (-1)), Integer 1)].

Definition first_element : GPUTransformSDFG.Range :=
  [(Integer 0, Integer 0, Integer 1)].

Definition write_memlet (name : string) (r : GPUTransformSDFG.Range)
  : GPUTransformSDFG.Memlet :=
  {| GPUTransformSDFG.data := Some name;
     GPUTransformSDFG.subset := r;
     GPUTransformSDFG.dst_subset := r;
     GPUTransformSDFG.volume := GPUTransformSDFG.num_elements r;
     GPUTransformSDFG.dynamic := false;
     GPUTransformSDFG.wcr := None |}.

(** A state in which a tasklet writes the subset [r] of the array. *)
Definition writer_state (name : string) (r : GPUTransformSDFG.Range)
  : GPUTransformSDFG.SDFGState :=
  let t := {| GPUTransformSDFG.node_id := 0;
              GPUTransformSDFG.kind := GPUTransformSDFG.Tasklet "t" |} in
  let a := {| GPUTransformSDFG.node_id := 1;
              GPUTransformSDFG.kind := GPUTransformSDFG.AccessNode name |} in
  {| GPUTransformSDFG.nodes := [t; a];
     GPUTransformSDFG.edges :=
       [{| GPUTransformSDFG.src := t; GPUTransformSDFG.dst := a;
           GPUTransformSDFG.edge_data := write_memlet name r |}] |}.

(** The values of step 1 before an output is looked at: nothing cloned,
    no input. *)
Definition nothing_cloned (arrays : Py.dict Data) : GPUTransformSDFG.Cloning :=
  {| GPUTransformSDFG.c_arrays := arrays;
     GPUTransformSDFG.data_already_on_gpu := [];
     GPUTransformSDFG.cloned_arrays := [];
     GPUTransformSDFG.input_nodes := [] |}.

(** A graph with a host array [x] read and written, a host array [y]
    written, a scalar [s] and an array [g] on the device; the one state
    writes the first element of [y]. *)
Definition offload_graph : GPUTransformSDFG.SDFG := {|
  GPUTransformSDFG.arrays :=
    [("x", array_desc); ("y", array_desc); ("s", scalar_desc);
     ("g", gpu_array_desc); ("gpu_x", index_desc)];
  GPUTransformSDFG.states := [writer_state "y" first_element];
  GPUTransformSDFG.parent_schedule := None;
|}.

(** A graph with a host array [x] that is read, a host array [y] that
    is written as a whole, and a transient [tmp] that is written. *)
Definition scratch_desc : Data := {|
  dclass := Array; dtype := "float64"; shape := [Symbol "N"];
  storage := Default; transient := true; lifetime := Scope |}.

Definition scratch_node : GPUTransformSDFG.Node :=
  {| GPUTransformSDFG.node_id := 3;
     GPUTransformSDFG.kind := GPUTransformSDFG.AccessNode "tmp" |}.

Definition stream_state : GPUTransformSDFG.SDFGState :=
  let x := {| GPUTransformSDFG.node_id := 0;
              GPUTransformSDFG.kind := GPUTransformSDFG.AccessNode "x" |} in
  let t := {| GPUTransformSDFG.node_id := 1;
              GPUTransformSDFG.kind := GPUTransformSDFG.Tasklet "t" |} in
  let y := {| GPUTransformSDFG.node_id := 2;
              GPUTransformSDFG.kind := GPUTransformSDFG.AccessNode "y" |} in
  {| GPUTransformSDFG.nodes := [x; t; y; scratch_node];
     GPUTransformSDFG.edges :=
       [{| GPUTransformSDFG.src := x; GPUTransformSDFG.dst := t;
           GPUTransformSDFG.edge_data := write_memlet "x" full_range |};
        {| GPUTransformSDFG.src := t; GPUTransformSDFG.dst := y;
           GPUTransformSDFG.edge_data := write_memlet "y" full_range |};
        {| GPUTransformSDFG.src := t; GPUTransformSDFG.dst := scratch_node;
           GPUTransformSDFG.edge_data := write_memlet "tmp" full_range |}] |}.

Definition stream_graph : GPUTransformSDFG.SDFG :=
  {| GPUTransformSDFG.arrays :=
       [("x", array_desc); ("y", array_desc); ("tmp", scratch_desc)];
     GPUTransformSDFG.states := [stream_state];
     GPUTransformSDFG.parent_schedule := None |}.

(** A graph whose one state has a free tasklet that writes the scalar
    [s] and the first element of the array [y], beside a free nested
    graph. *)
Definition scalar_tasklet : GPUTransformSDFG.Node :=
  {| GPUTransformSDFG.node_id := 0;
     GPUTransformSDFG.kind := GPUTransformSDFG.Tasklet "t" |}.

Definition array_write : GPUTransformSDFG.Edge :=
  {| GPUTransformSDFG.src := scalar_tasklet;
     GPUTransformSDFG.dst :=
       {| GPUTransformSDFG.node_id := 2;
          GPUTransformSDFG.kind := GPUTransformSDFG.AccessNode "y" |};
     GPUTransformSDFG.edge_data := write_memlet "y" first_element |}.

Definition scalar_state : GPUTransformSDFG.SDFGState :=
  let s := {| GPUTransformSDFG.node_id := 1;
              GPUTransformSDFG.kind := GPUTransformSDFG.AccessNode "s" |} in
  let n := {| GPUTransformSDFG.node_id := 3;
              GPUTransformSDFG.kind := GPUTransformSDFG.NestedSDFG "inner" |} in
  {| GPUTransformSDFG.nodes :=
       [scalar_tasklet; s; GPUTransformSDFG.dst array_write; n];
     GPUTransformSDFG.edges :=
       [{| GPUTransformSDFG.src := scalar_tasklet; GPUTransformSDFG.dst := s;
           GPUTransformSDFG.edge_data := write_memlet "s" first_element |};
        array_write] |}.

Definition scalar_graph : GPUTransformSDFG.SDFG :=
  {| GPUTransformSDFG.arrays := [("y", array_desc); ("s", scalar_desc)];
     GPUTransformSDFG.states := [scalar_state];
     GPUTransformSDFG.parent_schedule := None |}.

(** The tables before the interim copies: the array [y] has the shadow
    [gpu_y], the scalar [s] is on the device and has no host name yet. *)
Definition interim_tables : GPUTransformSDFG.CopyOut := {|
  GPUTransformSDFG.co_arrays :=
    [("y", array_desc); ("gpu_y", GPUTransformSDFG.gpu_clone array_desc);
     ("s", scalar_desc)];
  GPUTransformSDFG.co_gpu_scalars := [("s", None)];
  GPUTransformSDFG.co_on_gpu := [];
  GPUTransformSDFG.co_copies := [];
  GPUTransformSDFG.co_mapping := [];
|}.

End Examples.

(** * Properties *)

(** ** Dictionaries *)

Section DictFacts.
Context {V : Type}.
Implicit Types (d : Py.dict V) (k : string) (v : V).

Lemma get_Some_elem_of d k v : Py.get k d = Some v -> (k, v) ∈ d.
Proof.
  induction d as [|[k' v'] d IH]; simpl; [done|].
  destruct (String.eqb_spec k k') as [->|Hne].
  - intros [= ->]. left.
  - intros H. right. auto.
Qed.

Lemma get_None_not_key d k : Py.get k d = None <-> k ∉ Py.keys d.
Proof.
  unfold Py.keys. induction d as [|[k' v'] d IH]; simpl.
  - split; [intros _; apply not_elem_of_nil | done].
  - destruct (String.eqb_spec k k') as [->|Hne].
    + split; [done|]. intros H. exfalso. apply H. left.
    + rewrite IH. rewrite not_elem_of_cons. naive_solver.
Qed.

Lemma elem_of_get_NoDup d k v :
  NoDup (Py.keys d) -> (k, v) ∈ d -> Py.get k d = Some v.
Proof.
  unfold Py.keys. induction d as [|[k' v'] d IH]; simpl; intros Hnd Hin.
  - by apply elem_of_nil in Hin.
  - apply NoDup_cons in Hnd as [Hk' Hnd].
    apply elem_of_cons in Hin as [[= -> ->]|Hin].
    + by rewrite String.eqb_refl.
    + destruct (String.eqb_spec k k') as [->|Hne]; [|auto].
      exfalso. apply Hk'. apply list_elem_of_fmap. by exists (k', v).
Qed.

Lemma get_Permutation d d' k :
  NoDup (Py.keys d) -> d ≡ₚ d' -> Py.get k d = Py.get k d'.
Proof.
  intros Hnd Hp.
  assert (Hnd' : NoDup (Py.keys d')).
  { unfold Py.keys in *. by rewrite <- Hp. }
  destruct (Py.get k d) as [v|] eqn:Hg.
  - symmetry. apply elem_of_get_NoDup; [done|].
    rewrite <- Hp. by apply get_Some_elem_of.
  - symmetry. apply get_None_not_key. apply get_None_not_key in Hg.
    unfold Py.keys in *. by rewrite <- Hp.
Qed.

Lemma mem_true_key d k : Py.mem k d = true <-> k ∈ Py.keys d.
Proof.
  unfold Py.mem. destruct (Py.get k d) eqn:Hg.
  - split; [|done]. intros _.
    destruct (decide (k ∈ Py.keys d)) as [|Hn]; [done|].
    apply get_None_not_key in Hn. congruence.
  - split; [done|]. intros Hin. by apply get_None_not_key in Hg.
Qed.

Lemma get_set_eq d k v : Py.get k (Py.set k v d) = Some v.
Proof.
  induction d as [|[k' v'] d IH]; simpl.
  - by rewrite String.eqb_refl.
  - destruct (String.eqb_spec k k') as [->|Hne]; simpl.
    + by rewrite String.eqb_refl.
    + by destruct (String.eqb_spec k k').
Qed.

Lemma get_set_ne d k k' v : k ≠ k' -> Py.get k' (Py.set k v d) = Py.get k' d.
Proof.
  intros Hne. induction d as [|[k0 v0] d IH]; simpl.
  - by destruct (String.eqb_spec k' k) as [->|].
  - destruct (String.eqb_spec k k0) as [->|Hne0]; simpl.
    + by destruct (String.eqb_spec k' k0) as [->|].
    + by rewrite IH.
Qed.

Lemma get_del_ne d k k' : k ≠ k' -> Py.get k' (Py.del k d) = Py.get k' d.
Proof.
  intros Hne. induction d as [|[k0 v0] d IH]; simpl; [done|].
  destruct (String.eqb_spec k k0) as [->|Hne0]; simpl.
  - by destruct (String.eqb_spec k' k0) as [->|].
  - by rewrite IH.
Qed.

Lemma keys_del_subseteq d k : Py.keys (Py.del k d) ⊆ Py.keys d.
Proof.
  unfold Py.keys. induction d as [|[k0 v0] d IH]; simpl; [done|].
  destruct (String.eqb k k0); simpl; set_solver.
Qed.

Lemma get_del_eq d k : NoDup (Py.keys d) -> Py.get k (Py.del k d) = None.
Proof.
  unfold Py.keys. induction d as [|[k0 v0] d IH]; simpl; intros Hnd; [done|].
  apply NoDup_cons in Hnd as [Hk0 Hnd].
  destruct (String.eqb_spec k k0) as [->|Hne0]; simpl.
  - by apply get_None_not_key.
  - destruct (String.eqb_spec k k0); [done|]. auto.
Qed.

Lemma NoDup_keys_del d k : NoDup (Py.keys d) -> NoDup (Py.keys (Py.del k d)).
Proof.
  unfold Py.keys. induction d as [|[k0 v0] d IH]; simpl; intros Hnd; [done|].
  apply NoDup_cons in Hnd as [Hk0 Hnd].
  destruct (String.eqb k k0); simpl; [done|].
  apply NoDup_cons. split; [|auto].
  intros Hin. apply Hk0. by apply (keys_del_subseteq d k).
Qed.

Lemma keys_set d k v :
  Py.keys (Py.set k v d) =
  if Py.mem k d then Py.keys d else Py.keys d ++ [k].
Proof.
  unfold Py.keys, Py.mem. induction d as [|[k0 v0] d IH]; csimpl; [done|].
  destruct (String.eqb_spec k k0) as [->|Hne0]; csimpl; [done|].
  rewrite IH. by destruct (Py.get k d).
Qed.

Lemma NoDup_keys_set d k v : NoDup (Py.keys d) -> NoDup (Py.keys (Py.set k v d)).
Proof.
  intros Hnd. rewrite keys_set. destruct (Py.mem k d) eqn:Hm; [done|].
  apply NoDup_app. split_and!; [done| |apply NoDup_singleton].
  intros x Hx Hx'. apply list_elem_of_singleton in Hx' as ->.
  apply mem_true_key in Hx. congruence.
Qed.

End DictFacts.

(** ** Substitution in symbolic expressions *)

Module SymbolicFacts.
Import Symbolic.

Lemma subs1_not_free x v e : x ∉ free_symbols e -> subs1 x v e = e.
Proof.
  induction e as [y|z|a IHa b IHb|a IHa b IHb|a IHa b IHb]; simpl; intros Hx;
    try done; try (rewrite IHa, IHb by set_solver; done).
  destruct (String.eqb_spec y x) as [->|]; [set_solver|done].
Qed.

(** A simultaneous substitution only looks at the free symbols. *)
Lemma subs_simultaneous_ext m m' e :
  (forall x, x ∈ free_symbols e -> Py.get x m = Py.get x m') ->
  subs_simultaneous m e = subs_simultaneous m' e.
Proof.
  induction e as [y|z|a IHa b IHb|a IHa b IHb|a IHa b IHb]; simpl; intros H;
    try done; try (rewrite IHa, IHb by (intros; apply H; set_solver); done).
  rewrite H by set_solver. done.
Qed.

Lemma subs_simultaneous_nil e : subs_simultaneous [] e = e.
Proof.
  induction e as [y|z|a IHa b IHb|a IHa b IHb|a IHa b IHb]; simpl;
    congruence.
Qed.

Lemma subs_simultaneous_not_free m e :
  (forall k, k ∈ Py.keys m -> k ∉ free_symbols e) ->
  subs_simultaneous m e = e.
Proof.
  intros H. rewrite <- (subs_simultaneous_nil e) at 2.
  apply subs_simultaneous_ext. intros x Hx. simpl.
  apply get_None_not_key. intros Hk. by apply (H x).
Qed.

Lemma non_chaining_cons p m : non_chaining (p :: m) -> non_chaining m.
Proof.
  intros H k v k' Hin Hk' Hne. apply (H k v k'); [by right| |done].
  unfold Py.keys in *. simpl. by right.
Qed.

Lemma non_chaining_Permutation m m' :
  m ≡ₚ m' -> non_chaining m -> non_chaining m'.
Proof.
  intros Hp H k v k' Hin Hk' Hne. apply (H k v k'); [by rewrite Hp| |done].
  unfold Py.keys in *. by rewrite Hp.
Qed.

Lemma non_chaining_filter (P : string * expr -> Prop) `{!forall p, Decision (P p)} m :
  non_chaining m -> non_chaining (filter P m).
Proof.
  intros Hnc k v k' Hin Hk' Hne.
  apply list_elem_of_filter in Hin as [_ Hin].
  apply (Hnc k v k'); [done| |done].
  unfold Py.keys in *. apply list_elem_of_fmap in Hk' as [q [-> Hq]].
  apply list_elem_of_filter in Hq as [_ Hq].
  apply list_elem_of_fmap. by exists q.
Qed.

(** One pair applied ahead of a simultaneous substitution by the others
    is the simultaneous substitution by all of them. *)
Lemma subs_simultaneous_cons k v m e :
  k ∉ Py.keys m ->
  (forall k', k' ∈ Py.keys m -> k' ∉ free_symbols v) ->
  subs_simultaneous m (subs1 k v e) = subs_simultaneous ((k, v) :: m) e.
Proof.
  intros Hk Hv.
  induction e as [y|z|a IHa b IHb|a IHa b IHb|a IHa b IHb]; simpl;
    try done; try (rewrite IHa, IHb; done).
  destruct (String.eqb_spec y k) as [->|Hne]; simpl.
  - by apply subs_simultaneous_not_free.
  - done.
Qed.

(** Applying the pairs one after the other, in any order, is simultaneous
    for a mapping without chains. *)
Lemma sequential_is_simultaneous l e :
  NoDup (Py.keys l) -> non_chaining l ->
  foldl (fun acc p => subs1 p.1 p.2 acc) e l = subs_simultaneous l e.
Proof.
  revert e. induction l as [|[k v] l IH]; intros e Hnd Hnc; simpl.
  - by rewrite subs_simultaneous_nil.
  - unfold Py.keys in Hnd. simpl in Hnd. apply NoDup_cons in Hnd as [Hk Hnd].
    rewrite IH; [|done|by eapply non_chaining_cons].
    apply subs_simultaneous_cons; [done|].
    intros k' Hk'. apply (Hnc k v k'); [left| |by intros ->].
    unfold Py.keys. simpl. by right.
Qed.

Lemma subs_non_chaining m e :
  NoDup (Py.keys m) -> non_chaining m -> subs e m = subs_simultaneous m e.
Proof.
  intros Hnd Hnc. unfold subs, ordered.
  pose proof (merge_sort_Permutation key_le m) as Hp.
  rewrite sequential_is_simultaneous.
  - apply subs_simultaneous_ext. intros x _. symmetry.
    by apply get_Permutation.
  - unfold Py.keys in *. by rewrite Hp.
  - eapply non_chaining_Permutation; [symmetry; exact Hp|done].
Qed.

End SymbolicFacts.

(** ** [replace.py] *)

Module ReplaceFacts.
Import Symbolic Dtypes Replace SymbolicFacts.

Lemma append_cons (x : ascii) (a b : string) :
  String x a +:+ b = String x (a +:+ b).
Proof. reflexivity. Qed.

Lemma append_assoc (a b c : string) : (a +:+ b) +:+ c = a +:+ (b +:+ c).
Proof.
  induction a as [|x a IH]; [done|]. by rewrite !append_cons, IH.
Qed.

Lemma append_nil_r (a : string) : a +:+ EmptyString = a.
Proof. induction a as [|x a IH]; [done|]. by rewrite append_cons, IH. Qed.

Lemma concat_all_app (l1 l2 : list string) :
  Str.concat_all (l1 ++ l2) = Str.concat_all l1 +:+ Str.concat_all l2.
Proof.
  unfold Str.concat_all. induction l1 as [|x l1 IH]; [done|].
  cbn [foldr app]. by rewrite IH, append_assoc.
Qed.

Lemma get_filter_keys {V} (S : gset string) (m : Py.dict V) x :
  x ∈ S -> Py.get x (filter (fun p => p.1 ∈ S) m) = Py.get x m.
Proof.
  intros Hx. induction m as [|[k v] m IH]; [done|].
  rewrite filter_cons. simpl. destruct (decide (k ∈ S)) as [Hk|Hk]; simpl.
  - by rewrite IH.
  - destruct (String.eqb_spec x k) as [->|]; [done|]. exact IH.
Qed.

Section WithExternals.
Context `{Ext : Externals}.

(** *** Symbolic expressions *)

Lemma free_symbols_relevant e : free_symbols e ⊆ relevant_symbols e.
Proof. unfold relevant_symbols. set_solver. Qed.

(** C1 (as amended): for a mapping with distinct keys in which no
    replacement value mentions another key (no chain, no cycle),
    [_internal_replace] is the simultaneous substitution: every symbol of
    the expression is looked up once and nothing is replaced twice; and so
    is the [subs] that [replace_properties_dict] applies to a symbolic
    property. *)
Theorem internal_replace_simultaneous_without_chains
    (e : expr) (symrepl : Py.dict expr) :
  NoDup (Py.keys symrepl) ->
  non_chaining symrepl ->
  _internal_replace (Basic e) symrepl = Basic (subs_simultaneous symrepl e)
  /\ subs e symrepl = subs_simultaneous symrepl e.
Proof.
  intros Hnd Hnc. split; [|by apply subs_non_chaining].
  simpl. f_equal. unfold _internal_replace_basic.
  set (S := relevant_symbols e).
  assert (Hsim : subs_simultaneous (filter (fun p => p.1 ∈ S) symrepl) e
                 = subs_simultaneous symrepl e).
  { apply subs_simultaneous_ext. intros x Hx. apply get_filter_keys.
    by apply free_symbols_relevant. }
  destruct (filter (fun p => p.1 ∈ S) symrepl) as [|p l] eqn:Hf.
  - by rewrite <- Hsim, subs_simultaneous_nil.
  - rewrite <- Hsim, <- Hf. apply subs_non_chaining.
    + unfold Py.keys in *. eapply sublist_NoDup; [exact Hnd|].
      apply fmap_sublist, sublist_filter.
    + by apply non_chaining_filter.
Qed.

(** *** Embedded code *)

Lemma cpp_loop_prefix tokenized repl l :
  prefix (foldl (cpp_loop_body tokenized) l repl) =
  Str.concat_all
    (reverse (shadow_binding <$> filter (fun p => p.1 ∈ tokenized) repl))
  +:+ prefix l.
Proof.
  revert l. induction repl as [|[n nn] repl IH]; intros l; [done|].
  simpl foldl. rewrite IH, filter_cons. simpl.
  destruct (decide (n ∈ tokenized)) as [Hn|Hn].
  - rewrite bool_decide_false by (intros H; by apply H). simpl.
    rewrite reverse_cons, concat_all_app, append_assoc. f_equal.
    unfold Str.concat_all. simpl. by rewrite append_nil_r.
  - by rewrite bool_decide_true.
Qed.

Lemma cpp_loop_active tokenized repl l :
  active_replacements (foldl (cpp_loop_body tokenized) l repl) =
  active_replacements l
  ∪ list_to_set (filter (fun p => p.1 ∈ tokenized) repl).*1.
Proof.
  revert l. induction repl as [|[n nn] repl IH]; intros l.
  - simpl. set_solver.
  - simpl foldl. rewrite IH, filter_cons. simpl.
    destruct (decide (n ∈ tokenized)) as [Hn|Hn].
    + rewrite bool_decide_false by (intros H; by apply H). simpl. set_solver.
    + by rewrite bool_decide_true.
Qed.

Lemma shadow_prefix_nonempty (active : list (string * string)) :
  active ≠ [] ->
  String.eqb (Str.concat_all (reverse (shadow_binding <$> active)) +:+ EmptyString) EmptyString
  = false.
Proof.
  intros Hne. destruct (reverse (shadow_binding <$> active)) as [|x xs] eqn:Hr.
  - apply (f_equal length) in Hr. rewrite length_reverse, length_fmap in Hr.
    by destruct active.
  - assert (Hx : x ∈ reverse (shadow_binding <$> active)) by (rewrite Hr; left).
    rewrite elem_of_reverse in Hx. apply list_elem_of_fmap in Hx as [p [-> _]].
    done.
Qed.

(** C6 (as amended): on a non-empty C++ body, the code gets one shadow
    binding for every pair of the mapping whose name is a token of the
    body, put before the body (the binding of a later pair first) with the
    body itself unchanged, and those names are added to the ignored symbols
    of a tasklet; with no such pair nothing changes. *)
Theorem replace_in_codeblock_cpp_shadows
    (c : ascii) (s : string) (repl : Py.dict string) (n : Node) :
  let text := String c s in
  let cb := {| code := CodeStr text; language := CPP |} in
  let active := filter (fun p => p.1 ∈ tokenize_cpp_findall text) repl in
  replace_in_codeblock cb repl (Some n) =
  Py.Ok
    match active with
    | [] => (cb, Some n, [])
    | _ =>
        ({| code :=
              CodeStr (Str.concat_all (reverse (shadow_binding <$> active))
                       +:+ text);
            language := CPP |},
         Some (if bool_decide (node_type n = Tasklet)
               then set_ignored_symbols n
                      (ignored_symbols n ∪ list_to_set active.*1)
               else n),
         [])
    end.
Proof.
  intros text cb active. unfold replace_in_codeblock. simpl.
  rewrite cpp_loop_prefix, cpp_loop_active. simpl. fold text. fold active.
  destruct active as [|p l] eqn:Ha.
  - done.
  - rewrite shadow_prefix_nonempty by done. rewrite append_nil_r.
    destruct (bool_decide (node_type n = Tasklet)); [|done].
    unfold set_ignored_symbols. by rewrite (left_id_L ∅ (∪)).
Qed.

(** On a body in any dialect but C++ the warning is never reached: its
    message reads the loop variables of the C++ branch. *)
Lemma replace_in_codeblock_other_dialect (c : ascii) (s : string)
    (lang : Language) (repl : Py.dict string) (node : option Node) :
  lang ≠ CPP ->
  replace_in_codeblock {| code := CodeStr (String c s); language := lang |}
    repl node
  = Py.Raise (Py.UnboundLocalError "name").
Proof.
  intros Hl. unfold replace_in_codeblock. simpl.
  by rewrite bool_decide_false.
Qed.

(** *** The single-pair entry point *)

Lemma replace_same_name (g : Subgraph) (n : string) :
  replace g n n = Py.Ok (g, []).
Proof. unfold replace. by rewrite String.eqb_refl. Qed.

End WithExternals.

(** *** Worked inputs *)

Import Examples.

(** C1 (counterexample): with the mapping [{a: b, b: a}] the power
    [a**b] does not become [b**a]: both names end up as [a], in
    [_internal_replace] and in a symbolic property of a node. *)
Lemma internal_replace_swap_collapses :
  _internal_replace (Basic (Pow (Symbol "a") (Symbol "b")))
    [("a", Symbol "b"); ("b", Symbol "a")]
  = Basic (Pow (Symbol "a") (Symbol "a"))
  /\ _internal_replace (Basic (Pow (Symbol "a") (Symbol "b")))
       [("a", Symbol "b"); ("b", Symbol "a")]
     ≠ Basic (Pow (Symbol "b") (Symbol "a"))
  /\ exists node',
       replace_properties_dict power_node [("a", "b"); ("b", "a")] None
       = Py.Ok (node', [])
       /\ properties node'
          = [("size", Some (SymbolicProperty
                              (Basic (Pow (Symbol "a") (Symbol "a")))))].
Proof.
  split; [by vm_compute|]. split; [vm_compute; discriminate|].
  eexists. split; [by vm_compute|]. done.
Qed.

(** The renaming [{a: x, b: y}] of [a**b], where the theorem applies. *)
Lemma internal_replace_simultaneous_without_chains_witness :
  NoDup (Py.keys [("a", Symbol "x"); ("b", Symbol "y")])
  /\ non_chaining [("a", Symbol "x"); ("b", Symbol "y")]
  /\ _internal_replace (Basic (Pow (Symbol "a") (Symbol "b")))
       [("a", Symbol "x"); ("b", Symbol "y")]
     = Basic (subs_simultaneous [("a", Symbol "x"); ("b", Symbol "y")]
                (Pow (Symbol "a") (Symbol "b")))
  /\ subs (Pow (Symbol "a") (Symbol "b")) [("a", Symbol "x"); ("b", Symbol "y")]
     = subs_simultaneous [("a", Symbol "x"); ("b", Symbol "y")]
         (Pow (Symbol "a") (Symbol "b")).
Proof.
  assert (Hnd : NoDup (Py.keys [("a", Symbol "x"); ("b", Symbol "y")])).
  { apply (bool_decide_unpack _). by vm_compute. }
  assert (Hnc : non_chaining [("a", Symbol "x"); ("b", Symbol "y")]).
  { intros k v k' Hin Hk' Hne.
    assert (Hfresh : k' ≠ "x" /\ k' ≠ "y").
    { unfold Py.keys in Hk'. simpl in Hk'.
      apply elem_of_cons in Hk' as [->|Hk']; [done|].
      apply elem_of_cons in Hk' as [->|Hk']; [done|].
      by apply elem_of_nil in Hk'. }
    apply elem_of_cons in Hin as [Hin|Hin].
    - injection Hin as -> ->. simpl. rewrite elem_of_singleton. tauto.
    - apply elem_of_cons in Hin as [Hin|Hin]; [|by apply elem_of_nil in Hin].
      injection Hin as -> ->. simpl. rewrite elem_of_singleton. tauto. }
  split; [exact Hnd|]. split; [exact Hnc|].
  exact (internal_replace_simultaneous_without_chains _ _ Hnd Hnc).
Defined.

(** C7: a body in OpenCL, with a mapping that names one of its tokens:
    the call ends in [UnboundLocalError], neither a warning nor a result. *)
Theorem replace_in_codeblock_opencl_raises :
  replace_in_codeblock opencl_code [("n", "m")] None
  = Py.Raise (Py.UnboundLocalError "name").
Proof. reflexivity. Qed.

(** C2: the identity mapping [{n: n}] through [replace_dict] puts the
    binding [auto n = n;] before a C++ body that reads [n] and adds [n] to
    the ignored symbols of the tasklet, while [replace] with the same pair
    returns at once and leaves the graph as it is. *)
Theorem replace_dict_identity_rewrites_cpp :
  replace_dict cpp_tasklet_graph [("n", "n")] None
  = Py.Ok
      ({| nodes :=
            [{| node_type := Tasklet;
                properties :=
                  [("label", Some (OtherProperty "t"));
                   ("code",
                    Some (CodeProperty
                            {| code :=
                                 CodeStr ("auto n = n;" +:+ String "010" EmptyString
                                          +:+ "out = n + 1;");
                               language := CPP |}))];
                connectors := Some ([], ["out"]);
                ignored_symbols := {[ "n" ]} |}];
          edges := [] |}, [])
  /\ replace cpp_tasklet_graph "n" "n" = Py.Ok (cpp_tasklet_graph, []).
Proof. split; by vm_compute. Qed.

(** C6 (counterexample): the tasklet ignores no symbol before the call;
    after it the replaced name [n] is in its ignored symbols, not out of
    them. *)
Lemma replace_in_codeblock_adds_ignored_symbol :
  ("n" ∉ ignored_symbols cpp_tasklet)
  /\ exists cb' n',
       replace_in_codeblock cpp_code [("n", "m")] (Some cpp_tasklet)
       = Py.Ok (cb', Some n', [])
       /\ "n" ∈ ignored_symbols n'.
Proof.
  split; [set_solver|].
  eexists _, _. split; [by vm_compute|]. simpl. set_solver.
Qed.

End ReplaceFacts.

(** ** [replace_datadesc_names] *)

Module DatadescFacts.
Import Symbolic Dtypes Replace ReplaceFacts.

Lemma for_each_app {A S} (body : S -> A -> Py.result S) (l1 l2 : list A) (s : S) :
  Py.for_each body (l1 ++ l2) s = s' ← Py.for_each body l1 s; Py.for_each body l2 s'.
Proof.
  revert s. induction l1 as [|a l1 IH]; intros s; simpl; [done|].
  destruct (body s a) as [s1|e]; simpl; [apply IH|done].
Qed.

Lemma for_each_unchanged {A S} (body : S -> A -> Py.result S) (l : list A) (s : S) :
  (forall a, a ∈ l -> body s a = Py.Ok s) -> Py.for_each body l s = Py.Ok s.
Proof.
  induction l as [|a l IH]; intros H; simpl; [done|].
  rewrite H by left. simpl. apply IH. intros b Hb. apply H. by right.
Qed.

(** *** Splitting and joining at dots *)

Lemma contains_append c (a b : string) :
  Str.contains c (a +:+ b) = Str.contains c a || Str.contains c b.
Proof.
  induction a as [|x a IH]; [done|]. rewrite append_cons. simpl.
  by destruct (Ascii.eqb x c).
Qed.

Lemma split_nonempty sep s : Str.split sep s ≠ [].
Proof.
  destruct s as [|c s]; simpl; [done|].
  destruct (Ascii.eqb c sep); [done|]. by destruct (Str.split sep s).
Qed.

Lemma join_cons_cons sep (a b : string) (l : list string) :
  Str.join sep (a :: b :: l) = a +:+ sep +:+ Str.join sep (b :: l).
Proof. reflexivity. Qed.

Lemma join_split s : Str.join "." (Str.split "." s) = s.
Proof.
  induction s as [|c s IH]; [done|]. simpl.
  destruct (Ascii.eqb_spec c ".") as [->|Hc].
  - pose proof (split_nonempty "." s) as Hne.
    destruct (Str.split "." s) as [|t ts]; [done|].
    rewrite join_cons_cons, IH. done.
  - pose proof (split_nonempty "." s) as Hne.
    destruct (Str.split "." s) as [|t ts]; [done|].
    destruct ts as [|t' ts].
    + simpl in *. unfold Str.join in *. simpl in *. by rewrite IH.
    + rewrite join_cons_cons in *. rewrite append_cons, IH. done.
Qed.

Lemma split_no_dot s : Str.contains "." s = false -> Str.split "." s = [s].
Proof.
  induction s as [|c s IH]; [done|]. simpl.
  destruct (Ascii.eqb c "."); [done|]. intros H. by rewrite IH.
Qed.

Lemma split_prefix_dot x r :
  Str.contains "." x = false ->
  Str.split "." (x +:+ "." +:+ r) = x :: Str.split "." r.
Proof.
  induction x as [|c x IH]; [done|]. rewrite append_cons. simpl.
  destruct (Ascii.eqb c "."); [done|]. intros H. by rewrite IH.
Qed.

Lemma split_contains s :
  Str.contains "." s = true ->
  exists p q ps, Str.split "." s = p :: q :: ps.
Proof.
  induction s as [|c s IH]; [done|]. simpl.
  destruct (Ascii.eqb c ".").
  - intros _. pose proof (split_nonempty "." s).
    destruct (Str.split "." s) as [|t ts]; [done|]. eauto.
  - intros H. destruct (IH H) as (p & q & ps & ->). eauto.
Qed.

(** *** The new name of a reference under a single pair *)

Lemma replace_data_name_exact x y : replace_data_name [(x, y)] x = y.
Proof. unfold replace_data_name. simpl. by rewrite String.eqb_refl. Qed.

Lemma replace_data_name_member x y field :
  Str.contains "." x = false ->
  replace_data_name [(x, y)] (x +:+ "." +:+ field) = y +:+ "." +:+ field.
Proof.
  intros Hx. unfold replace_data_name. simpl.
  destruct (String.eqb_spec (x +:+ "." +:+ field) x) as [Heq|_].
  - exfalso. apply (f_equal (Str.contains ".")) in Heq.
    rewrite contains_append, Hx in Heq. done.
  - rewrite contains_append. replace (Str.contains "." ("." +:+ field)) with true
      by done.
    rewrite orb_true_r, split_prefix_dot by done. simpl.
    by rewrite String.eqb_refl, join_split.
Qed.

Lemma replace_data_name_other x y d :
  d ≠ x -> (forall field, d ≠ x +:+ "." +:+ field) ->
  replace_data_name [(x, y)] d = d.
Proof.
  intros Hne Hmem. unfold replace_data_name. simpl.
  destruct (String.eqb_spec d x) as [|_]; [done|].
  destruct (Str.contains "." d) eqn:Hdot; [|done].
  destruct (split_contains d Hdot) as (p & q & ps & Hs). rewrite Hs. simpl.
  destruct (String.eqb_spec p x) as [->|_]; [|done].
  exfalso. apply (Hmem (Str.join "." (q :: ps))).
  rewrite <- (join_split d) at 1. by rewrite Hs, join_cons_cons.
Qed.

Section WithExternals.
Context `{Ext : Externals}.

(** *** References in states and regions *)

Lemma get_setattr pname (ps : list (string * option property)) v v0 :
  Py.get pname ps = Some v0 ->
  Py.get pname
    ((fun p => if String.eqb p.1 pname then (p.1, Some v) else p) <$> ps)
  = Some (Some v).
Proof.
  induction ps as [|[k w] ps IH]; csimpl; [done|].
  destruct (String.eqb_spec pname k) as [<-|Hk].
  - intros _. rewrite String.eqb_refl. csimpl. by rewrite String.eqb_refl.
  - intros H. destruct (String.eqb_spec k pname) as [->|_]; [done|]. csimpl.
    destruct (String.eqb_spec pname k); [done|]. auto.
Qed.

Lemma node_data_setattr n d d' :
  node_data n = Some d ->
  node_data (setattr n "data" (DataProperty d')) = Some d'.
Proof.
  unfold node_data. intros H.
  destruct (Py.get "data" (properties n)) as [v0|] eqn:Hg; [|done].
  unfold setattr. cbn [properties]. by rewrite (get_setattr _ _ _ _ Hg).
Qed.

Lemma data_nodes_replaced repl (ns : list Node) :
  omap node_data
    (filter (fun n => node_type n = AccessNode) (replace_in_data_node repl <$> ns))
  = replace_data_name repl
      <$> omap node_data (filter (fun n => node_type n = AccessNode) ns).
Proof.
  induction ns as [|n ns IH]; [done|].
  rewrite fmap_cons, !filter_cons.
  assert (Ht : node_type (replace_in_data_node repl n) = node_type n).
  { unfold replace_in_data_node. case_bool_decide; [|done].
    by destruct (node_data n). }
  rewrite Ht. destruct (decide (node_type n = AccessNode)) as [Ha|Ha]; [|done].
  csimpl. rewrite IH. unfold replace_in_data_node at 1.
  rewrite bool_decide_true by done.
  destruct (node_data n) as [d|] eqn:Hd.
  - by rewrite (node_data_setattr n d _ Hd).
  - by rewrite Hd.
Qed.

Lemma memlet_data_replaced repl (es : list Memlet) :
  omap data (replace_in_memlet_data repl <$> es)
  = replace_data_name repl <$> omap data es.
Proof.
  induction es as [|m es IH]; [done|]. csimpl. rewrite IH.
  unfold replace_in_memlet_data at 1. by destruct (data m) eqn:Hd; simpl; rewrite ?Hd.
Qed.

Lemma ControlFlowBlock_nested_ind (P : ControlFlowBlock -> Prop) :
  (forall g, P (SDFGState g)) ->
  (forall es bs meta, Forall P bs -> P (ControlFlowRegion es bs meta)) ->
  forall b, P b.
Proof.
  intros Hstate Hregion. fix IH 1. intros [g|es bs meta]; [apply Hstate|].
  apply Hregion. induction bs as [|b bs IHbs]; constructor; [apply IH|exact IHbs].
Qed.

Lemma blocks_data_refs_replaced repl (bs : list ControlFlowBlock) :
  Forall (fun b => block_data_refs (replace_in_block repl b)
                   = replace_data_name repl <$> block_data_refs b) bs ->
  concat (block_data_refs <$> (replace_in_block repl <$> bs))
  = replace_data_name repl <$> concat (block_data_refs <$> bs).
Proof.
  induction 1 as [|b bs Hb _ IH]; [done|]. csimpl.
  by rewrite fmap_app, Hb, IH.
Qed.

Lemma block_data_refs_replaced repl (b : ControlFlowBlock) :
  block_data_refs (replace_in_block repl b)
  = replace_data_name repl <$> block_data_refs b.
Proof.
  induction b as [g|es bs meta IH] using ControlFlowBlock_nested_ind.
  - simpl. unfold state_data_refs. simpl.
    by rewrite fmap_app, data_nodes_replaced, memlet_data_replaced.
  - simpl. by apply blocks_data_refs_replaced.
Qed.

(** *** Control edges and meta accesses of the regions *)

Lemma blocks_control_edges_replaced repl (bs : list ControlFlowBlock) :
  Forall (fun b => block_control_edges (replace_in_block repl b)
                   = InterstateEdge_replace_dict repl <$> block_control_edges b)
    bs ->
  concat (block_control_edges <$> (replace_in_block repl <$> bs))
  = InterstateEdge_replace_dict repl <$> concat (block_control_edges <$> bs).
Proof.
  induction 1 as [|b bs Hb _ IH]; [done|]. csimpl.
  by rewrite fmap_app, Hb, IH.
Qed.

Lemma block_control_edges_replaced repl (b : ControlFlowBlock) :
  block_control_edges (replace_in_block repl b)
  = InterstateEdge_replace_dict repl <$> block_control_edges b.
Proof.
  induction b as [g|es bs meta IH] using ControlFlowBlock_nested_ind; [done|].
  cbn [replace_in_block block_control_edges].
  by rewrite fmap_app, (blocks_control_edges_replaced _ _ IH).
Qed.

Lemma blocks_meta_accesses_replaced repl (bs : list ControlFlowBlock) :
  Forall (fun b => block_meta_accesses (replace_in_block repl b)
                   = replace_meta_accesses repl <$> block_meta_accesses b)
    bs ->
  concat (block_meta_accesses <$> (replace_in_block repl <$> bs))
  = replace_meta_accesses repl <$> concat (block_meta_accesses <$> bs).
Proof.
  induction 1 as [|b bs Hb _ IH]; [done|]. csimpl.
  by rewrite fmap_app, Hb, IH.
Qed.

Lemma block_meta_accesses_replaced repl (b : ControlFlowBlock) :
  block_meta_accesses (replace_in_block repl b)
  = replace_meta_accesses repl <$> block_meta_accesses b.
Proof.
  induction b as [g|es bs meta IH] using ControlFlowBlock_nested_ind; [done|].
  cbn [replace_in_block block_meta_accesses].
  by rewrite (blocks_meta_accesses_replaced _ _ IH).
Qed.

Lemma block_nesting_replaced repl (b : ControlFlowBlock) :
  block_nesting (replace_in_block repl b) = block_nesting b.
Proof.
  induction b as [g|es bs meta IH] using ControlFlowBlock_nested_ind; [done|].
  cbn [replace_in_block block_nesting]. rewrite length_fmap. f_equal.
  rewrite <- list_fmap_compose. apply Forall_fmap_ext_1.
  eapply Forall_impl; [exact IH|]. by intros b Hb.
Qed.

(** *** The descriptor and constant tables *)

Lemma rename_descriptor_other x y (tables : list (string * Data) * list (string * Z))
    (item : string * Data) :
  item.1 ≠ x -> rename_descriptor [(x, y)] tables item = Py.Ok tables.
Proof.
  destruct tables as [a c], item as [k v]. simpl. intros Hk.
  by destruct (String.eqb_spec k x).
Qed.

(** C3 (as amended): renaming the descriptor [x] to [y] moves the entry
    of the descriptor table and the entry of the constant table, if there
    is one, to the key [y]: [x] is a key of neither table afterwards and
    the other keys hold what they held.  In the states of all regions, at
    any depth, every data reference of an access node or memlet is
    rewritten, a reference [x] to [y] and a member [x.field] to
    [y.field], the others are left.  In all regions, at any depth, every
    control edge is replaced by what its own [replace_dict] makes of it
    and the meta accesses by what [replace_meta_accesses] makes of them,
    with the same mapping; the nesting of the blocks is as before.  The
    call does not check whether [y] is taken: it never fails, and [y]
    then holds the descriptor of [x]. *)
Theorem replace_datadesc_names_renames (sdfg : SDFG) (x y : string) (desc : Data) :
  NoDup (Py.keys (arrays sdfg)) ->
  NoDup (Py.keys (constants_prop sdfg)) ->
  x ≠ y ->
  Str.contains "." x = false ->
  Py.get x (arrays sdfg) = Some desc ->
  exists sdfg',
    replace_datadesc_names sdfg [(x, y)] = Py.Ok sdfg'
    /\ Py.get y (arrays sdfg') = Some desc
    /\ Py.get x (arrays sdfg') = None
    /\ (forall k, k ≠ x -> k ≠ y ->
        Py.get k (arrays sdfg') = Py.get k (arrays sdfg))
    /\ (forall c, Py.get x (constants_prop sdfg) = Some c ->
        Py.get y (constants_prop sdfg') = Some c)
    /\ (Py.get x (constants_prop sdfg) = None ->
        constants_prop sdfg' = constants_prop sdfg)
    /\ Py.get x (constants_prop sdfg') = None
    /\ (forall k, k ≠ x -> k ≠ y ->
        Py.get k (constants_prop sdfg') = Py.get k (constants_prop sdfg))
    /\ sdfg_data_refs sdfg' = replace_data_name [(x, y)] <$> sdfg_data_refs sdfg
    /\ replace_data_name [(x, y)] x = y
    /\ (forall field,
        replace_data_name [(x, y)] (x +:+ "." +:+ field) = y +:+ "." +:+ field)
    /\ (forall d, d ≠ x -> (forall field, d ≠ x +:+ "." +:+ field) ->
        replace_data_name [(x, y)] d = d)
    /\ sdfg_edges sdfg' = InterstateEdge_replace_dict [(x, y)] <$> sdfg_edges sdfg
    /\ sdfg_meta sdfg' = replace_meta_accesses [(x, y)] (sdfg_meta sdfg)
    /\ sdfg_control_edges sdfg'
       = InterstateEdge_replace_dict [(x, y)] <$> sdfg_control_edges sdfg
    /\ sdfg_meta_accesses sdfg'
       = replace_meta_accesses [(x, y)] <$> sdfg_meta_accesses sdfg
    /\ block_nesting <$> sdfg_nodes sdfg' = block_nesting <$> sdfg_nodes sdfg.
Proof.
  intros Hnd Hndc Hxy Hdot Hget.
  destruct (list_elem_of_split _ _ (get_Some_elem_of _ _ _ Hget)) as (l1 & l2 & Hsplit).
  assert (Hkeys : (x ∉ Py.keys l1) /\ (x ∉ Py.keys l2)).
  { unfold Py.keys in *. rewrite Hsplit, fmap_app, fmap_cons in Hnd. simpl in Hnd.
    apply NoDup_app in Hnd as (_ & H1 & H2). apply NoDup_cons in H2 as [H2 _].
    split; [|done]. intros Hin. apply (H1 x Hin). left. }
  destruct Hkeys as [Hl1 Hl2].
  pose (arrays' := Py.set y desc (Py.del x (arrays sdfg))).
  pose (constants' :=
          match Py.get x (constants_prop sdfg) with
          | Some c => Py.del x (Py.set y c (constants_prop sdfg))
          | None => constants_prop sdfg
          end).
  assert (Hloop :
    Py.for_each (rename_descriptor [(x, y)]) (arrays sdfg)
      (arrays sdfg, constants_prop sdfg) = Py.Ok (arrays', constants')).
  { rewrite Hsplit at 1. rewrite for_each_app.
    rewrite for_each_unchanged; cycle 1.
    { intros [k v] Hk. apply rename_descriptor_other. simpl. intros ->.
      apply Hl1. unfold Py.keys. apply list_elem_of_fmap. by exists (x, v). }
    simpl. rewrite String.eqb_refl. unfold Py.pop, Py.mem. rewrite Hget. simpl.
    fold arrays'. unfold constants'.
    destruct (Py.get x (constants_prop sdfg)) as [c|] eqn:Hc; simpl.
    - rewrite get_set_ne, Hc by done. simpl.
      apply for_each_unchanged. intros [k v] Hk. apply rename_descriptor_other.
      simpl. intros ->. apply Hl2. unfold Py.keys. apply list_elem_of_fmap.
      by exists (x, v).
    - apply for_each_unchanged. intros [k v] Hk. apply rename_descriptor_other.
      simpl. intros ->. apply Hl2. unfold Py.keys. apply list_elem_of_fmap.
      by exists (x, v). }
  eexists. unfold replace_datadesc_names. rewrite Hloop. simpl.
  split; [reflexivity|]. simpl. unfold arrays', constants'.
  split; [apply get_set_eq|].
  split; [rewrite get_set_ne by done; by apply get_del_eq|].
  split; [intros k Hkx Hky; by rewrite get_set_ne, get_del_ne|].
  split.
  { intros c Hc. rewrite Hc.
    rewrite get_del_ne by done. apply get_set_eq. }
  split; [intros Hc; by rewrite Hc|].
  split.
  { destruct (Py.get x (constants_prop sdfg)) as [c|] eqn:Hc; [|done].
    by apply get_del_eq, NoDup_keys_set. }
  split.
  { intros k Hkx Hky. destruct (Py.get x (constants_prop sdfg)) as [c|]; [|done].
    by rewrite get_del_ne, get_set_ne. }
  split.
  { unfold sdfg_data_refs. simpl. apply blocks_data_refs_replaced.
    apply Forall_forall. intros b _. apply block_data_refs_replaced. }
  split; [apply replace_data_name_exact|].
  split; [intros field; by apply replace_data_name_member|].
  split; [apply replace_data_name_other|].
  split; [done|]. split; [done|].
  split.
  { unfold sdfg_control_edges. cbn [sdfg_edges sdfg_nodes].
    rewrite fmap_app. f_equal. apply blocks_control_edges_replaced.
    apply Forall_forall. intros b _. apply block_control_edges_replaced. }
  split.
  { unfold sdfg_meta_accesses. cbn [sdfg_meta sdfg_nodes].
    rewrite blocks_meta_accesses_replaced; [done|].
    apply Forall_forall. intros b _. apply block_meta_accesses_replaced. }
  rewrite <- list_fmap_compose. apply list_fmap_ext.
  intros i b _. apply block_nesting_replaced.
Qed.

End WithExternals.

Import Examples.

(** C3 (counterexample): [y] is a key of the descriptor table; renaming
    [x] to [y] returns normally, the descriptor that was under [y] is gone
    and the access node now reads [y]. *)
Lemma replace_datadesc_names_overwrites :
  Py.get "y" (arrays two_arrays) = Some index_desc
  /\ exists sdfg',
       replace_datadesc_names two_arrays [("x", "y")] = Py.Ok sdfg'
       /\ arrays sdfg' = [("y", array_desc)]
       /\ sdfg_data_refs sdfg' = ["y"].
Proof. split; [done|]. eexists. split; [by vm_compute|]. done. Qed.

(** The theorem at the same pair on the graph with a constant [x], where
    [y] is taken. *)
Lemma replace_datadesc_names_renames_witness :
  NoDup (Py.keys (arrays two_arrays_with_constant))
  /\ NoDup (Py.keys (constants_prop two_arrays_with_constant))
  /\ "x" ≠ "y"
  /\ Str.contains "." "x" = false
  /\ Py.get "x" (arrays two_arrays_with_constant) = Some array_desc
  /\ exists sdfg',
       replace_datadesc_names two_arrays_with_constant [("x", "y")] = Py.Ok sdfg'
       /\ Py.get "y" (arrays sdfg') = Some array_desc
       /\ Py.get "x" (constants_prop sdfg') = None.
Proof.
  assert (Hnd : NoDup (Py.keys (arrays two_arrays_with_constant))).
  { apply (bool_decide_unpack _). by vm_compute. }
  assert (Hndc : NoDup (Py.keys (constants_prop two_arrays_with_constant))).
  { apply (bool_decide_unpack _). by vm_compute. }
  assert (Hxy : "x" ≠ "y") by done.
  split; [exact Hnd|]. split; [exact Hndc|]. split; [exact Hxy|].
  split; [reflexivity|]. split; [reflexivity|].
  destruct (replace_datadesc_names_renames two_arrays_with_constant "x" "y"
              array_desc Hnd Hndc Hxy eq_refl eq_refl)
    as (sdfg' & Hr & Hy & _ & _ & _ & _ & Hc & _).
  exists sdfg'. split; [exact Hr|]. split; [exact Hy|exact Hc].
Defined.

End DatadescFacts.

(** ** [const_symbol_to_map.py] *)

Module ConstSymbolToMapFacts.
Import Dtypes ConstSymbolToMap.

(** Destructs the calls bound in a hypothesis [H : ... = Py.Ok _], one
    after the other, keeping what each returned. *)
Ltac bind_ok H :=
  repeat match type of H with
         | context [mbind _ ?c] =>
             let E := fresh "Hcall" in
             destruct c eqn:E; simpl in H; [|discriminate H]
         end.

Section WithExternals.
Context `{Ext : Externals}.

(** *** The guard *)

Lemma set_nonempty {V} k (v : V) (d : list (string * V)) : Py.set k v d ≠ [].
Proof. destruct d as [|[k' v'] d]; simpl; [done|]. by destruct (String.eqb k k'). Qed.

Lemma collect_assignment_cases (sdfg : SDFG) (compute : SDFGState)
    (ms ms' : ClassState) (kv : string * string) :
  collect_assignment sdfg compute ms kv = Py.Ok ms' ->
  (qualifies sdfg compute kv /\ ms' ≠ [])
  \/ (¬ qualifies sdfg compute kv /\ ms' = ms).
Proof.
  destruct kv as [k v]. unfold collect_assignment, qualifies. simpl.
  case_bool_decide as Hk;
    [|intros [= <-]; right; split; [by intros [? _]|done]].
  destruct (Memlet_parse v) as [m|ex] eqn:Hm.
  - destruct (subset m) as [sub|] eqn:Hs;
      [|intros [= <-]; right; split; [|done];
        intros (_ & m' & d & sub & [= <-] & _ & Hs' & _); congruence].
    destruct (data m) as [d|] eqn:Hd;
      [|intros [= <-]; right; split; [|done];
        intros (_ & m' & d & sub' & [= <-] & Hd' & _); congruence].
    destruct (Py.mem d (arrays sdfg)) eqn:Ha; intros [= <-].
    + left. split; [|apply set_nonempty]. split; [done|]. by exists m, d, sub.
    + right. split; [|done].
      intros (_ & m' & d' & sub' & [= <-] & Hd' & _ & Ha'). congruence.
  - case_bool_decide; [|done]. intros [= <-]. right. split; [|done].
    by intros (_ & ? & ? & ? & [=] & _).
Qed.

(** When the loop returns, it leaves the dictionary of the class empty
    exactly when the dictionary was empty and no assignment qualifies. *)
Lemma collect_assignments_empty (sdfg : SDFG) (compute : SDFGState)
    (ms ms' : ClassState) (l : list (string * string)) :
  Py.for_each (collect_assignment sdfg compute) l ms = Py.Ok ms' ->
  ms' ≠ [] <-> ms ≠ [] \/ exists kv, kv ∈ l /\ qualifies sdfg compute kv.
Proof.
  revert ms. induction l as [|kv l IH]; intros ms H.
  - simpl in H. injection H as <-.
    split; [auto|]. intros [H|(kv & H & _)]; [done|]. by apply elem_of_nil in H.
  - cbn [Py.for_each] in H.
    destruct (collect_assignment sdfg compute ms kv) as [ms1|] eqn:Hstep;
      [|discriminate H].
    change (Py.for_each (collect_assignment sdfg compute) l ms1 = Py.Ok ms') in H.
    rewrite (IH ms1 H).
    destruct (collect_assignment_cases sdfg compute ms ms1 kv Hstep)
      as [[Hq Hne]|[Hq ->]].
    + split; [|auto]. intros _. right. exists kv. split; [left|done].
    + split.
      * intros [Hms|(kv' & Hin & Hq')]; [by left|]. right. exists kv'.
        split; [by right|done].
      * intros [Hms|(kv' & Hin & Hq')]; [by left|].
        apply elem_of_cons in Hin as [->|Hin]; [done|]. right. eauto.
Qed.

(** The guard on a class whose dictionary is empty: it accepts exactly
    when the compute state has no outgoing control edge, the loop over
    the assignments of the symbol edge returns, and one of them
    qualifies. *)
Lemma can_be_applied_first_use (self self' : Instance) (sdfg : SDFG)
    (ms : ClassState) :
  can_be_applied [] self sdfg = Py.Ok (true, ms, self')
  <-> cf_out_edges sdfg (compute_state self) = []
      /\ exists i e compute,
           symbol_edge self' = Some i
           /\ cf_edges sdfg !! i = Some e
           /\ states sdfg !! compute_state self = Some compute
           /\ self' = match head (filter (fun ie => cf_dst ie.2 = compute_state self)
                                    (cf_out_edges sdfg (symbol_state self))) with
                      | Some ie => {| symbol_state := symbol_state self;
                                      compute_state := compute_state self;
                                      symbol_edge := Some ie.1 |}
                      | None => self
                      end
           /\ Py.for_each (collect_assignment sdfg compute)
                (assignments (cf_data e)) [] = Py.Ok ms
           /\ exists kv, kv ∈ assignments (cf_data e) /\ qualifies sdfg compute kv.
Proof.
  unfold can_be_applied.
  set (self1 := match head _ with Some _ => _ | None => self end).
  destruct (cf_out_edges sdfg (compute_state self)) as [|oe oes] eqn:Hout; simpl.
  - destruct (symbol_edge self1) as [i|] eqn:Hi.
    + destruct (cf_edges sdfg !! i) as [e|] eqn:He.
      * destruct (states sdfg !! compute_state self) as [compute|] eqn:Hc.
        -- destruct (Py.for_each (collect_assignment sdfg compute)
                       (assignments (cf_data e)) []) as [ms1|ex] eqn:Hloop.
           ++ pose proof (collect_assignments_empty sdfg compute [] ms1
                            (assignments (cf_data e)) Hloop) as Hcol.
              cbn [mbind Py.result_bind]. split.
              ** intros [= Hb <- <-]. split; [done|].
                 exists i, e, compute. split_and!; try done.
                 apply bool_decide_eq_true in Hb.
                 assert (Hne : ms1 ≠ []).
                 { intros Heq. rewrite Heq in Hb. by apply Hb. }
                 apply Hcol in Hne as [Hne|Hne]; done.
              ** intros (_ & i' & e' & compute' & Hi' & He' & Hc' & -> & Hl & Hq).
                 rewrite Hi in Hi'. injection Hi' as <-.
                 rewrite He in He'. injection He' as <-. injection Hc' as <-.
                 rewrite Hloop in Hl. injection Hl as <-.
                 do 3 f_equal. apply bool_decide_eq_true.
                 assert (Hne : ms1 ≠ []) by (apply Hcol; by right).
                 by destruct ms1.
           ++ cbn [mbind Py.result_bind]. split; [done|].
              intros (_ & i' & e' & compute' & Hi' & He' & Hc' & -> & Hl & _).
              rewrite Hi in Hi'. injection Hi' as <-.
              rewrite He in He'. injection He' as <-. injection Hc' as <-.
              rewrite Hloop in Hl. discriminate Hl.
        -- split; [done|]. intros (_ & i' & e' & c' & Hi' & He' & [=] & _).
      * split; [done|]. intros (_ & i' & e' & c' & Hi' & He' & _ & -> & _).
        congruence.
    + split; [done|]. intros (_ & i' & e' & c' & Hi' & _ & _ & -> & _). congruence.
  - split; [done|]. by intros [[=] _].
Qed.

(** *** The last loop of [apply] *)

(** What is left of the assignments and of the declared symbols. *)
Lemma remove_assignments_ok (ks : list string)
    (a s a' s' : list (string * string)) :
  NoDup (Py.keys a) -> NoDup (Py.keys s) ->
  Py.for_each remove_assignment ks (a, s) = Py.Ok (a', s') ->
  (forall k, k ∈ ks -> Py.get k a' = None /\ Py.get k s' = None)
  /\ (forall k, k ∉ ks -> Py.get k a' = Py.get k a /\ Py.get k s' = Py.get k s).
Proof.
  revert a s. induction ks as [|k0 ks IH]; intros a s Ha Hs H.
  - simpl in H. injection H as <- <-. split; [|done].
    intros k Hk. by apply elem_of_nil in Hk.
  - simpl in H. unfold Py.pop in H.
    destruct (Py.mem k0 a) eqn:Hm; simpl in H; [|discriminate H].
    set (s1 := if Py.mem k0 s then remove_symbol s k0 else s) in H.
    assert (Hs1 : NoDup (Py.keys s1)).
    { unfold s1, remove_symbol. destruct (Py.mem k0 s); [|done].
      by apply NoDup_keys_del. }
    assert (Hk0 : Py.get k0 s1 = None).
    { unfold s1, remove_symbol. destruct (Py.mem k0 s) eqn:Hms.
      - by apply get_del_eq.
      - unfold Py.mem in Hms. by destruct (Py.get k0 s). }
    assert (Hother : forall k, k ≠ k0 -> Py.get k s1 = Py.get k s).
    { intros k Hk. unfold s1, remove_symbol. destruct (Py.mem k0 s); [|done].
      by apply get_del_ne. }
    destruct (IH _ _ (NoDup_keys_del a k0 Ha) Hs1 H) as [Hin Hout].
    split.
    + intros k Hk. destruct (decide (k ∈ ks)) as [Hks|Hks]; [by apply Hin|].
      apply elem_of_cons in Hk as [->|Hk]; [|done].
      destruct (Hout k0 Hks) as [-> ->]. split; [by apply get_del_eq|done].
    + intros k Hk. apply not_elem_of_cons in Hk as [Hne Hks].
      destruct (Hout k Hks) as [-> ->].
      split; [by apply get_del_ne|by apply Hother].
Qed.

(** The last loop on an object whose symbol edge is an edge of the
    graph: the two statements of each turn act on the assignments of that
    edge. *)
Lemma set_assignments_same (e : CFEdge) :
  set_assignments e (assignments (cf_data e)) = e.
Proof. by destruct e as [s d [a c]]. Qed.

Lemma remove_assignment_on_edge_step (self : Instance) (i : nat) (k : string)
    (es : list CFEdge) (e : CFEdge) (syms : list (string * string)) :
  symbol_edge self = Some i ->
  es !! i = Some e ->
  remove_assignment_on_edge self (es, syms) k
  = r ← remove_assignment (assignments (cf_data e), syms) k;
    Py.Ok (<[i := set_assignments e r.1]> es, r.2).
Proof. intros Hi He. unfold remove_assignment_on_edge. by rewrite Hi, He. Qed.

Lemma remove_assignments_on_edge (self : Instance) (i : nat) (ks : list string)
    (es : list CFEdge) (e : CFEdge) (syms : list (string * string)) :
  symbol_edge self = Some i ->
  es !! i = Some e ->
  Py.for_each (remove_assignment_on_edge self) ks (es, syms)
  = r ← Py.for_each remove_assignment ks (assignments (cf_data e), syms);
    Py.Ok (<[i := set_assignments e r.1]> es, r.2).
Proof.
  intros Hi. revert es e syms. induction ks as [|k ks IH]; intros es e syms He.
  - cbn. by rewrite set_assignments_same, list_insert_id.
  - cbn [Py.for_each].
    rewrite (remove_assignment_on_edge_step self i k es e syms Hi He).
    destruct (remove_assignment (assignments (cf_data e), syms) k)
      as [[a1 s1]|ex]; cbn [mbind Py.result_bind fst snd]; [|done].
    rewrite (IH _ (set_assignments e a1) s1)
      by (apply list_lookup_insert_eq; by eapply lookup_lt_Some).
    cbn [set_assignments cf_data assignments].
    destruct (Py.for_each remove_assignment ks (a1, s1)) as [[a2 s2]|ex];
      cbn [mbind Py.result_bind fst snd]; [|done].
    by rewrite list_insert_insert_eq.
Qed.

(** On an object without a symbol edge of the graph the loop returns only
    when it has no turn. *)
Lemma remove_assignments_without_edge (self : Instance) (ks : list string)
    (es : list CFEdge) (syms : list (string * string))
    (r : list CFEdge * list (string * string)) :
  (forall i, symbol_edge self = Some i -> es !! i = None) ->
  Py.for_each (remove_assignment_on_edge self) ks (es, syms) = Py.Ok r ->
  ks = [] /\ r = (es, syms).
Proof.
  intros Hno H. destruct ks as [|k ks].
  - simpl in H. by injection H as <-.
  - cbn [Py.for_each] in H.
    assert (Hstep : exists ex,
               remove_assignment_on_edge self (es, syms) k = Py.Raise ex).
    { unfold remove_assignment_on_edge.
      destruct (symbol_edge self) as [i|]; [|eauto].
      rewrite (Hno i eq_refl). eauto. }
    destruct Hstep as [ex Hstep]. rewrite Hstep in H. discriminate H.
Qed.

(** When [apply] returns on an object whose symbol edge is an edge of the
    graph, the assignment of every symbol of [map_symbols] is gone from
    that edge and so is its declaration in the graph, whether or not the
    symbol is still read elsewhere; the other assignments and declarations
    are as before. *)
Theorem apply_removes_assignments_and_declarations
    (map_symbols : ClassState) (self : Instance) (sdfg sdfg' : SDFG)
    (map : Map) (i : nat) (e : CFEdge) :
  NoDup (Py.keys (symbols sdfg)) ->
  symbol_edge self = Some i ->
  cf_edges sdfg !! i = Some e ->
  NoDup (Py.keys (assignments (cf_data e))) ->
  apply map_symbols self sdfg = Py.Ok (sdfg', map) ->
  exists e',
    cf_edges sdfg' !! i = Some e'
    /\ (forall s, s ∈ Py.keys map_symbols ->
        Py.get s (assignments (cf_data e')) = None
        /\ Py.get s (symbols sdfg') = None)
    /\ (forall s, s ∉ Py.keys map_symbols ->
        Py.get s (assignments (cf_data e')) = Py.get s (assignments (cf_data e))
        /\ Py.get s (symbols sdfg') = Py.get s (symbols sdfg)).
Proof.
  intros Hsym Hedge He Hassign H. unfold apply in H.
  destruct (states sdfg !! compute_state self) as [compute|]; [|discriminate H].
  rewrite (remove_assignments_on_edge self i _ _ e _ Hedge He) in H.
  destruct (Py.for_each (add_map_symbol sdfg) map_symbols _) as [b|];
    [|discriminate H].
  cbn [mbind Py.result_bind] in H.
  destruct (reroute_all src _ _ _ _) as [st1|]; [|discriminate H].
  cbn [mbind Py.result_bind] in H.
  destruct (reroute_all dst _ _ _ _) as [st2|]; [|discriminate H].
  cbn [mbind Py.result_bind] in H.
  destruct (Py.for_each remove_assignment _ _) as [[a' s']|] eqn:Hr;
    [|discriminate H].
  cbn [mbind Py.result_bind fst snd] in H. injection H as <- <-.
  cbn [cf_edges symbols].
  exists (set_assignments e a'). split.
  - apply list_lookup_insert_eq. by eapply lookup_lt_Some.
  - simpl. by eapply remove_assignments_ok.
Qed.

End WithExternals.

Import Examples.

(** C4: the candidate whose edge assigns [k = i + 1] has no qualifying
    assignment and is refused when it is checked first; checked after the
    candidate whose edge assigns [k = A_row[i]], it is accepted, because
    the dictionary of the class still holds the entry of that candidate.
    Both compute states are sinks. *)
Theorem can_be_applied_keeps_earlier_symbols :
  can_be_applied [] other_candidate two_candidates
  = Py.Ok (false, [],
           {| symbol_state := 0; compute_state := 2; symbol_edge := Some 1 |})
  /\ exists map_symbols self,
       can_be_applied [] body_candidate two_candidates
       = Py.Ok (true, map_symbols, self)
       /\ can_be_applied map_symbols other_candidate two_candidates
          = Py.Ok (true, map_symbols,
                   {| symbol_state := 0; compute_state := 2;
                      symbol_edge := Some 1 |}).
Proof. split; [by vm_compute|]. eexists _, _. split; by vm_compute. Qed.

(** The class state and the object after [can_be_applied] accepted the
    first candidate. *)
Lemma can_be_applied_body_candidate :
  can_be_applied [] body_candidate two_candidates
  = Py.Ok (true,
           [("k", {| data := Some "A_row"; subset := Some "i" |})],
           {| symbol_state := 0; compute_state := 1; symbol_edge := Some 0 |}).
Proof. by vm_compute. Qed.

(** C5: [k] is declared and the state [init] reads it.  The guard
    accepts the candidate [body], whose compute state is a sink; [apply]
    on the accepted candidate returns, and afterwards [init] is as it was
    and still reads [k], while the declaration of [k] is gone. *)
Theorem apply_removes_declaration_still_read :
  exists map_symbols self sdfg' map init,
    can_be_applied [] body_candidate two_candidates
    = Py.Ok (true, map_symbols, self)
    /\ apply map_symbols self two_candidates = Py.Ok (sdfg', map)
    /\ Py.get "k" (symbols two_candidates) = Some "uint32"
    /\ states two_candidates !! 0 = Some init
    /\ states sdfg' !! 0 = Some init
    /\ "k" ∈ state_free_symbols init
    /\ Py.get "k" (symbols sdfg') = None.
Proof.
  eexists _, _, _, _, _. split; [by vm_compute|]. split; [by vm_compute|].
  split; [done|]. split; [done|]. split; [done|]. split; [|done].
  apply (bool_decide_unpack _). by vm_compute.
Qed.

(** The theorem at the accepted candidate. *)
Lemma apply_removes_assignments_and_declarations_witness :
  exists sdfg' map e,
    NoDup (Py.keys (symbols two_candidates))
    /\ cf_edges two_candidates !! 0 = Some e
    /\ NoDup (Py.keys (assignments (cf_data e)))
    /\ apply [("k", {| data := Some "A_row"; subset := Some "i" |})]
         {| symbol_state := 0; compute_state := 1; symbol_edge := Some 0 |}
         two_candidates
       = Py.Ok (sdfg', map)
    /\ exists e',
         cf_edges sdfg' !! 0 = Some e'
         /\ (forall s, s ∈ ["k"] ->
             Py.get s (assignments (cf_data e')) = None
             /\ Py.get s (symbols sdfg') = None)
         /\ (forall s, s ∉ ["k"] ->
             Py.get s (assignments (cf_data e'))
             = Py.get s (assignments (cf_data e))
             /\ Py.get s (symbols sdfg') = Py.get s (symbols two_candidates)).
Proof.
  eexists _, _, _.
  assert (Hsym : NoDup (Py.keys (symbols two_candidates))).
  { apply (bool_decide_unpack _). by vm_compute. }
  assert (Hassign : NoDup (Py.keys [("k", "A_row[i]")])).
  { apply (bool_decide_unpack _). by vm_compute. }
  split; [exact Hsym|]. split; [reflexivity|]. split; [exact Hassign|].
  split; [by vm_compute|].
  eapply (apply_removes_assignments_and_declarations
            [("k", {| data := Some "A_row"; subset := Some "i" |})]
            {| symbol_state := 0; compute_state := 1; symbol_edge := Some 0 |}
            two_candidates _ _ 0 _ Hsym eq_refl eq_refl Hassign).
  by vm_compute.
Defined.

End ConstSymbolToMapFacts.

(** ** [gpu_transform_sdfg.py] *)

Module GPUTransformSDFGFacts.
Import Symbolic Dtypes GPUTransformSDFG.

Section WithExternals.
Context `{Ext : Externals}.

(** *** The search for a full write *)

Lemma is_full_spec (state : SDFGState) (e : Edge) :
  is_full state e = true <->
  forall pe, pe ∈ memlet_tree state e ->
    dynamic (edge_data pe) = false
    /\ is_integral_ratio (volume (edge_data pe))
         (num_elements (dst_subset (edge_data pe))) = true.
Proof.
  unfold is_full. rewrite forallb_forall. split.
  - intros H pe Hpe. apply list_elem_of_In in Hpe. specialize (H pe Hpe).
    destruct (dynamic (edge_data pe)); [done|].
    split; [done|]. by destruct (is_integral_ratio _ _).
  - intros H pe Hpe. apply list_elem_of_In in Hpe.
    destruct (H pe Hpe) as [-> ->]. done.
Qed.

Lemma found_full_write_spec (sdfg_states : list SDFGState) (onodename : string)
    (full_subset : Range) :
  found_full_write sdfg_states onodename full_subset = true
  <-> full_write sdfg_states onodename full_subset.
Proof.
  unfold found_full_write, full_write. rewrite existsb_exists. split.
  - intros (state & Hstate & H). apply existsb_exists in H as (node & Hnode & H).
    apply andb_true_iff in H as [Hkind H].
    apply existsb_exists in H as (e & He & H).
    apply andb_true_iff in H as [Hsub Hfull].
    exists state, node, e.
    apply list_elem_of_In in Hstate, Hnode, He. split_and!; try done.
    + by apply bool_decide_eq_true in Hkind.
    + by apply bool_decide_eq_true in Hsub.
    + by apply is_full_spec.
  - intros (state & node & e & Hstate & Hnode & Hkind & He & Hsub & Hfull).
    exists state. split; [by apply list_elem_of_In|].
    apply existsb_exists. exists node. split; [by apply list_elem_of_In|].
    apply andb_true_iff. split; [by apply bool_decide_eq_true|].
    apply existsb_exists. exists e. split; [by apply list_elem_of_In|].
    apply andb_true_iff. split; [by apply bool_decide_eq_true|].
    by apply is_full_spec.
Qed.

(** C8 (as amended): an output that is not in GPU global storage, has no
    clone yet and is not in the input list: after its turn of the output
    loop it is out of the input list exactly when a full write to it
    exists; with a full write the list is as before, without one the
    output is appended to it. *)
Theorem clone_output_copy_in (sdfg_states : list SDFGState) (c : Cloning)
    (onodename : string) (onode : Data) :
  storage onode ≠ GPU_Global ->
  Py.mem onodename (cloned_arrays c) = false ->
  (onodename, onode) ∉ input_nodes c ->
  ((onodename, onode)
     ∉ input_nodes (clone_output sdfg_states c (onodename, onode))
   <-> full_write sdfg_states onodename (Range_from_array onode))
  /\ (full_write sdfg_states onodename (Range_from_array onode) ->
      input_nodes (clone_output sdfg_states c (onodename, onode))
      = input_nodes c)
  /\ (¬ full_write sdfg_states onodename (Range_from_array onode) ->
      input_nodes (clone_output sdfg_states c (onodename, onode))
      = input_nodes c ++ [(onodename, onode)]).
Proof.
  intros Hgpu Hcloned Hin. unfold clone_output.
  rewrite bool_decide_false by done. rewrite Hcloned.
  destruct (add_datadesc _ _ _) as [arrays' name]. cbn [input_nodes].
  rewrite bool_decide_true by done.
  pose proof (found_full_write_spec sdfg_states onodename (Range_from_array onode))
    as Hspec.
  destruct (found_full_write _ _ _).
  - assert (Hfw : full_write sdfg_states onodename (Range_from_array onode))
      by by apply Hspec.
    split_and!; [done|done|]. intros Hn. by destruct Hn.
  - assert (Hfw : ¬ full_write sdfg_states onodename (Range_from_array onode)).
    { intros Hfw. apply Hspec in Hfw. discriminate Hfw. }
    split_and!; [|done|done].
    split; [|done]. intros Hn. exfalso. apply Hn.
    apply elem_of_app. right. left.
Qed.

(** An output in GPU global storage leaves the input list as it is. *)
Lemma clone_output_on_device (sdfg_states : list SDFGState) (c : Cloning)
    (onodename : string) (onode : Data) :
  storage onode = GPU_Global ->
  input_nodes (clone_output sdfg_states c (onodename, onode)) = input_nodes c
  /\ c_arrays (clone_output sdfg_states c (onodename, onode)) = c_arrays c
  /\ cloned_arrays (clone_output sdfg_states c (onodename, onode))
     = cloned_arrays c.
Proof. intros H. unfold clone_output. by rewrite bool_decide_true. Qed.

End WithExternals.

Import Examples.

(** C8 (counterexample): the output [g] is in GPU global storage and is
    no input; the only write to it covers its first element, so there is
    no full write, and yet it is not appended to the input list. *)
Lemma clone_output_device_array_not_copied_in :
  ¬ full_write [writer_state "g" first_element] "g"
      (Range_from_array gpu_array_desc)
  /\ (("g", gpu_array_desc)
        ∉ input_nodes (nothing_cloned [("g", gpu_array_desc)]))
  /\ (("g", gpu_array_desc)
        ∉ input_nodes
            (clone_output [writer_state "g" first_element]
               (nothing_cloned [("g", gpu_array_desc)]) ("g", gpu_array_desc))).
Proof.
  split.
  - intros H. apply found_full_write_spec in H. by vm_compute in H.
  - split; [apply not_elem_of_nil|]. vm_compute. apply not_elem_of_nil.
Qed.

(** The theorem at the host array [y] of which only the first element is
    written: it is appended to the input list. *)
Lemma clone_output_copy_in_witness :
  storage array_desc ≠ GPU_Global
  /\ Py.mem "y" (cloned_arrays (nothing_cloned [("y", array_desc)])) = false
  /\ (("y", array_desc) ∉ input_nodes (nothing_cloned [("y", array_desc)]))
  /\ (("y", array_desc)
        ∉ input_nodes
            (clone_output [writer_state "y" first_element]
               (nothing_cloned [("y", array_desc)]) ("y", array_desc))
      <-> full_write [writer_state "y" first_element] "y"
            (Range_from_array array_desc)).
Proof.
  assert (H1 : storage array_desc ≠ GPU_Global) by done.
  assert (H3 : ("y", array_desc) ∉ input_nodes (nothing_cloned [("y", array_desc)]))
    by apply not_elem_of_nil.
  split; [exact H1|]. split; [reflexivity|]. split; [exact H3|].
  exact (proj1 (clone_output_copy_in [writer_state "y" first_element]
                  (nothing_cloned [("y", array_desc)]) "y" array_desc
                  H1 eq_refl H3)).
Defined.

End GPUTransformSDFGFacts.

(** ** Step 1 of the device offload: one shadow array each *)

Module CloningFacts.
Import Symbolic Dtypes GPUTransformSDFG.

Lemma key_get_Some {V} (d : list (string * V)) k :
  k ∈ Py.keys d <-> exists v, Py.get k d = Some v.
Proof.
  destruct (Py.get k d) as [v|] eqn:Hg.
  - split; [eauto|]. intros _.
    destruct (decide (k ∈ Py.keys d)) as [|Hn]; [done|].
    apply get_None_not_key in Hn. congruence.
  - apply get_None_not_key in Hg. split; [done|]. by intros [v [=]].
Qed.

Lemma key_elem_of {V} (d : list (string * V)) k v : (k, v) ∈ d -> k ∈ Py.keys d.
Proof. intros H. unfold Py.keys. apply list_elem_of_fmap. by exists (k, v). Qed.

Lemma set_new_key {V} (d : list (string * V)) k v :
  k ∉ Py.keys d -> Py.set k v d = d ++ [(k, v)].
Proof.
  unfold Py.keys. induction d as [|[k' v'] d IH]; csimpl; intros Hk; [done|].
  apply not_elem_of_cons in Hk as [Hne Hk].
  destruct (String.eqb_spec k k'); [done|]. by rewrite IH.
Qed.

Section WithExternals.
Context `{Ext : Externals}.

(** The cloning common to both loops keeps [cloning_ok]. *)
Lemma clone_keeps_ok (arrays0 arrays : list (string * Data))
    (cloned : list (string * string)) (n : string) (d : Data) :
  cloning_ok arrays0 arrays cloned ->
  Py.get n arrays0 = Some d ->
  storage d ≠ GPU_Global ->
  n ∉ Py.keys cloned ->
  cloning_ok arrays0
    (add_datadesc arrays ("gpu_" +:+ n) (gpu_clone d)).1
    (Py.set n (add_datadesc arrays ("gpu_" +:+ n) (gpu_clone d)).2 cloned).
Proof.
  intros [Hkeys Hkept Hcount Hck Hsh Hshadow] Hn Hd Hnew.
  unfold add_datadesc. cbn [fst snd].
  set (g := find_new_name ("gpu_" +:+ n) (Py.keys arrays)).
  assert (Hg : g ∉ Py.keys arrays) by apply find_new_name_fresh.
  assert (Hg0 : g ∉ Py.keys arrays0).
  { intros Hin. apply key_get_Some in Hin as [v Hv]. apply Hg.
    apply key_get_Some. exists v. by apply Hkept. }
  rewrite (set_new_key arrays g _ Hg), (set_new_key cloned n g Hnew).
  split.
  - unfold Py.keys in *. rewrite fmap_app. apply NoDup_app.
    split_and!; [done| |apply NoDup_singleton].
    intros k Hk Hk'. apply list_elem_of_singleton in Hk' as ->. done.
  - intros k v Hk. rewrite <- (set_new_key arrays g _ Hg).
    rewrite get_set_ne; [by apply Hkept|]. intros <-.
    apply Hg0. apply key_get_Some. eauto.
  - rewrite !length_app. simpl. lia.
  - unfold Py.keys in *. rewrite fmap_app. apply NoDup_app.
    split_and!; [done| |apply NoDup_singleton].
    intros k Hk Hk'. apply list_elem_of_singleton in Hk' as ->. done.
  - rewrite fmap_app. apply NoDup_app.
    split_and!; [done| |apply NoDup_singleton].
    intros g' Hg' Hg''. apply list_elem_of_singleton in Hg''. simpl in Hg''.
    subst g'. apply list_elem_of_fmap in Hg' as [[n' g'] [-> Hin]].
    destruct (Hshadow n' g' Hin) as (_ & d' & _ & _ & Hget).
    apply Hg. apply key_get_Some. eauto.
  - intros n' g' Hin. rewrite <- (set_new_key arrays g _ Hg).
    apply elem_of_app in Hin as [Hin|Hin].
    + destruct (Hshadow n' g' Hin) as (Hg' & d' & Hn' & Hd' & Hget).
      split; [done|]. exists d'. split_and!; [done|done|].
      rewrite get_set_ne; [done|]. intros <-.
      apply Hg. apply key_get_Some. eauto.
    + apply list_elem_of_singleton in Hin. injection Hin as -> ->.
      split; [done|]. exists d. split_and!; [done|done|apply get_set_eq].
Qed.

Lemma clone_input_ok arrays0 (c : Cloning) (n : string) (d : Data) :
  cloning_ok arrays0 (c_arrays c) (cloned_arrays c) ->
  Py.get n arrays0 = Some d ->
  n ∉ Py.keys (cloned_arrays c) ->
  cloning_ok arrays0 (c_arrays (clone_input c (n, d)))
    (cloned_arrays (clone_input c (n, d)))
  /\ (forall k, k ∈ Py.keys (cloned_arrays (clone_input c (n, d))) <->
      k ∈ Py.keys (cloned_arrays c)
      \/ (k = n /\ storage d ≠ GPU_Global /\ dclass d ≠ Scalar))
  /\ input_nodes (clone_input c (n, d)) = input_nodes c.
Proof.
  intros Hok Hn Hnew. unfold clone_input.
  case_bool_decide as Hgpu; [simpl; naive_solver|].
  case_bool_decide as Hsc; [naive_solver|].
  pose proof (clone_keeps_ok _ _ _ n d Hok Hn Hgpu Hnew) as Hok'.
  destruct (add_datadesc (c_arrays c) ("gpu_" +:+ n) (gpu_clone d))
    as [arrays' name]. cbn [fst snd] in Hok'. cbn [c_arrays cloned_arrays input_nodes].
  split_and!; [done| |done].
  intros k. rewrite (set_new_key _ n name Hnew). unfold Py.keys.
  rewrite fmap_app, elem_of_app. simpl. rewrite list_elem_of_singleton.
  naive_solver.
Qed.

Lemma clone_inputs_ok arrays0 (l : list (string * Data)) (c : Cloning) :
  cloning_ok arrays0 (c_arrays c) (cloned_arrays c) ->
  from_table arrays0 l ->
  NoDup l.*1 ->
  (forall n, n ∈ l.*1 -> n ∉ Py.keys (cloned_arrays c)) ->
  cloning_ok arrays0 (c_arrays (foldl clone_input c l))
    (cloned_arrays (foldl clone_input c l))
  /\ (forall k, k ∈ Py.keys (cloned_arrays (foldl clone_input c l)) <->
      k ∈ Py.keys (cloned_arrays c)
      \/ exists d, (k, d) ∈ l /\ storage d ≠ GPU_Global /\ dclass d ≠ Scalar)
  /\ input_nodes (foldl clone_input c l) = input_nodes c.
Proof.
  revert c. induction l as [|[n d] l IH]; intros c Hok Htab Hnd Hnew.
  - simpl. split_and!; [done| |done]. intros k. split; [auto|].
    intros [H|(d & H & _)]; [done|]. by apply elem_of_nil in H.
  - cbn [foldl]. csimpl in Hnd. apply NoDup_cons in Hnd as [Hn Hnd].
    assert (Hget : Py.get n arrays0 = Some d) by (apply Htab; left).
    destruct (clone_input_ok arrays0 c n d Hok Hget) as (Hok1 & Hkeys1 & Hin1).
    { apply Hnew. csimpl. left. }
    destruct (IH (clone_input c (n, d))) as (Hok2 & Hkeys2 & Hin2).
    + done.
    + intros n' d' H'. apply Htab. by right.
    + done.
    + intros n' Hn' Hc. apply Hkeys1 in Hc as [Hc|(-> & _)].
      * revert Hc. apply Hnew. csimpl. by right.
      * done.
    + split_and!; [done| |by rewrite Hin2, Hin1].
      intros k. rewrite Hkeys2, Hkeys1. split.
      * intros [[H|(-> & H1 & H2)]|(d' & H & H')]; [by left| |].
        -- right. exists d. split; [left|done].
        -- right. exists d'. split; [by right|done].
      * intros [H|(d' & H & H1 & H2)]; [by left; left|].
        apply elem_of_cons in H as [[= -> ->]|H]; [by left; right|].
        right. eauto.
Qed.

Lemma clone_output_ok arrays0 sts (c : Cloning) (n : string) (d : Data) :
  cloning_ok arrays0 (c_arrays c) (cloned_arrays c) ->
  Py.get n arrays0 = Some d ->
  cloning_ok arrays0 (c_arrays (clone_output sts c (n, d)))
    (cloned_arrays (clone_output sts c (n, d)))
  /\ (forall k, k ∈ Py.keys (cloned_arrays (clone_output sts c (n, d))) <->
      k ∈ Py.keys (cloned_arrays c) \/ (k = n /\ storage d ≠ GPU_Global)).
Proof.
  intros Hok Hn. unfold clone_output.
  case_bool_decide as Hgpu; [simpl; naive_solver|].
  destruct (Py.mem n (cloned_arrays c)) eqn:Hm.
  { apply mem_true_key in Hm. naive_solver. }
  assert (Hnew : n ∉ Py.keys (cloned_arrays c)).
  { intros Hin. apply mem_true_key in Hin. congruence. }
  pose proof (clone_keeps_ok _ _ _ n d Hok Hn Hgpu Hnew) as Hok'.
  destruct (add_datadesc (c_arrays c) ("gpu_" +:+ n) (gpu_clone d))
    as [arrays' name]. cbn [fst snd] in Hok'. cbn [c_arrays cloned_arrays].
  split; [done|].
  intros k. rewrite (set_new_key _ n name Hnew). unfold Py.keys.
  rewrite fmap_app, elem_of_app. simpl. rewrite list_elem_of_singleton.
  naive_solver.
Qed.

Lemma clone_outputs_ok arrays0 sts (l : list (string * Data)) (c : Cloning) :
  cloning_ok arrays0 (c_arrays c) (cloned_arrays c) ->
  from_table arrays0 l ->
  cloning_ok arrays0 (c_arrays (foldl (clone_output sts) c l))
    (cloned_arrays (foldl (clone_output sts) c l))
  /\ (forall k, k ∈ Py.keys (cloned_arrays (foldl (clone_output sts) c l)) <->
      k ∈ Py.keys (cloned_arrays c)
      \/ exists d, (k, d) ∈ l /\ storage d ≠ GPU_Global).
Proof.
  revert c. induction l as [|[n d] l IH]; intros c Hok Htab.
  - simpl. split; [done|]. intros k. split; [auto|].
    intros [H|(d & H & _)]; [done|]. by apply elem_of_nil in H.
  - cbn [foldl].
    assert (Hget : Py.get n arrays0 = Some d) by (apply Htab; left).
    destruct (clone_output_ok arrays0 sts c n d Hok Hget) as (Hok1 & Hkeys1).
    destruct (IH (clone_output sts c (n, d))) as (Hok2 & Hkeys2).
    + done.
    + intros n' d' H'. apply Htab. by right.
    + split; [done|].
      intros k. rewrite Hkeys2, Hkeys1. split.
      * intros [[H|(-> & H1)]|(d' & H & H')]; [by left| |].
        -- right. exists d. split; [left|done].
        -- right. exists d'. split; [by right|done].
      * intros [H|(d' & H & H1)]; [by left; left|].
        apply elem_of_cons in H as [[= -> ->]|H]; [by left; right|].
        right. eauto.
Qed.

Lemma set_iter_elem_of (l : list (string * Data)) x : x ∈ set_iter l <-> x ∈ l.
Proof. by rewrite set_iter_perm, elem_of_remove_dups. Qed.

Lemma set_iter_names_NoDup arrays0 (l : list (string * Data)) :
  from_table arrays0 l -> NoDup (set_iter l).*1.
Proof.
  intros Htab. apply NoDup_fmap_2_strong.
  - intros [n d] [n' d'] H H' Heq. simpl in Heq. subst n'.
    apply set_iter_elem_of, Htab in H. apply set_iter_elem_of, Htab in H'.
    congruence.
  - rewrite set_iter_perm. apply NoDup_remove_dups.
Qed.

(** C10: with the names and descriptors of the classification taken from
    the descriptor table, the two loops of step 1 leave a table with
    distinct keys in which every descriptor of before is unchanged and
    which has grown by exactly one descriptor per key of the clone
    mapping; every shadow name was not a key before, differs from the
    other shadow names and holds the GPU clone of its host array; an array
    that is both input and output and not in GPU global storage is a key
    of the mapping (so cloned once), and one in GPU global storage is no
    key of it. *)
Theorem clone_arrays_one_shadow_each (sdfg : SDFG)
    (input_nodes0 output_nodes : list (string * Data)) :
  NoDup (Py.keys (arrays sdfg)) ->
  from_table (arrays sdfg) input_nodes0 ->
  from_table (arrays sdfg) output_nodes ->
  let c := clone_arrays sdfg input_nodes0 output_nodes in
  NoDup (Py.keys (c_arrays c))
  /\ (forall k d, Py.get k (arrays sdfg) = Some d -> Py.get k (c_arrays c) = Some d)
  /\ length (c_arrays c) = length (arrays sdfg) + length (cloned_arrays c)
  /\ NoDup (Py.keys (cloned_arrays c))
  /\ NoDup (cloned_arrays c).*2
  /\ (forall n g, (n, g) ∈ cloned_arrays c ->
      (g ∉ Py.keys (arrays sdfg))
      /\ exists d, Py.get n (arrays sdfg) = Some d
                   /\ storage d ≠ GPU_Global
                   /\ Py.get g (c_arrays c) = Some (gpu_clone d))
  /\ (forall n d, (n, d) ∈ input_nodes0 -> (n, d) ∈ output_nodes ->
      storage d ≠ GPU_Global -> n ∈ Py.keys (cloned_arrays c))
  /\ (forall n d, (n, d) ∈ input_nodes0 \/ (n, d) ∈ output_nodes ->
      storage d = GPU_Global -> n ∉ Py.keys (cloned_arrays c)).
Proof.
  intros Hnd Hin Hout c.
  set (c0 := {| c_arrays := arrays sdfg; data_already_on_gpu := [];
                cloned_arrays := []; input_nodes := input_nodes0 |}).
  assert (Hok0 : cloning_ok (arrays sdfg) (c_arrays c0) (cloned_arrays c0)).
  { split; simpl; [done|done|lia|apply NoDup_nil_2|apply NoDup_nil_2|].
    intros n g H. by apply elem_of_nil in H. }
  destruct (clone_inputs_ok (arrays sdfg) (set_iter input_nodes0) c0 Hok0)
    as (Hok1 & _ & _).
  { intros n d H. by apply Hin, set_iter_elem_of. }
  { by eapply set_iter_names_NoDup. }
  { intros n _. apply not_elem_of_nil. }
  destruct (clone_outputs_ok (arrays sdfg) (states sdfg) (set_iter output_nodes)
              (foldl clone_input c0 (set_iter input_nodes0)) Hok1)
    as (Hok2 & Hkeys2).
  { intros n d H. by apply Hout, set_iter_elem_of. }
  fold c0 in Hok2, Hkeys2. change (foldl _ _ (set_iter output_nodes)) with c in *.
  destruct Hok2 as [H1 H2 H3 H4 H5 H6].
  split_and!; try done.
  - intros n d _ Ho Hgpu. apply Hkeys2. right. exists d.
    split; [by apply set_iter_elem_of|done].
  - intros n d Hio Hgpu Hkey.
    assert (Hget : Py.get n (arrays sdfg) = Some d) by (destruct Hio; auto).
    apply key_get_Some in Hkey as [g Hg]. apply get_Some_elem_of in Hg.
    destruct (H6 n g Hg) as (_ & d' & Hd' & Hs & _). congruence.
Qed.

End WithExternals.

Import Examples.

(** The theorem at a graph in which [x] is read and written, [y] written
    and [g] is on the device. *)
Lemma clone_arrays_one_shadow_each_witness :
  NoDup (Py.keys (arrays offload_graph))
  /\ from_table (arrays offload_graph) [("x", array_desc); ("g", gpu_array_desc)]
  /\ from_table (arrays offload_graph) [("x", array_desc); ("y", array_desc)]
  /\ NoDup (Py.keys (c_arrays
       (clone_arrays offload_graph [("x", array_desc); ("g", gpu_array_desc)]
          [("x", array_desc); ("y", array_desc)]))).
Proof.
  assert (H1 : NoDup (Py.keys (arrays offload_graph))).
  { apply (bool_decide_unpack _). by vm_compute. }
  assert (H2 : from_table (arrays offload_graph)
                 [("x", array_desc); ("g", gpu_array_desc)]).
  { intros n d H. apply elem_of_cons in H as [[= -> ->]|H]; [done|].
    apply elem_of_cons in H as [[= -> ->]|H]; [done|].
    by apply elem_of_nil in H. }
  assert (H3 : from_table (arrays offload_graph)
                 [("x", array_desc); ("y", array_desc)]).
  { intros n d H. apply elem_of_cons in H as [[= -> ->]|H]; [done|].
    apply elem_of_cons in H as [[= -> ->]|H]; [done|].
    by apply elem_of_nil in H. }
  split; [exact H1|]. split; [exact H2|]. split; [exact H3|].
  exact (proj1 (clone_arrays_one_shadow_each offload_graph _ _ H1 H2 H3)).
Defined.

(** What the step gives on that graph: [gpu_x] is taken, so the shadow of
    [x] gets another name; [x] has one shadow, [g] none. *)
Lemma clone_arrays_example :
  cloned_arrays
    (clone_arrays offload_graph [("x", array_desc); ("g", gpu_array_desc)]
       [("x", array_desc); ("y", array_desc)])
  = [("x", "gpu_x_000000000"); ("y", "gpu_y")].
Proof. by vm_compute. Qed.

End CloningFacts.

(** ** Step 5 of the device offload: the loop over free tasklets ends *)

Module ScanFacts.
Import Symbolic Dtypes GPUTransformSDFG.

(** A loop keeps what each of its turns keeps. *)
Lemma for_each_keeps {A S} (body : S -> A -> Py.result S)
    (P : S -> Prop) (R : S -> S -> Prop) `{!Reflexive R} `{!Transitive R}
    (l : list A) (s s' : S) :
  (forall s a s', a ∈ l -> P s -> body s a = Py.Ok s' -> P s' /\ R s s') ->
  P s -> Py.for_each body l s = Py.Ok s' -> P s' /\ R s s'.
Proof.
  revert s. induction l as [|a l IH]; intros s Hbody HP H.
  - simpl in H. injection H as <-. done.
  - simpl in H. destruct (body s a) as [s1|e] eqn:Hb; simpl in H; [|discriminate H].
    destruct (Hbody s a s1 ltac:(left) HP Hb) as [HP1 HR1].
    destruct (IH s1) as [HP' HR']; [|done|done|].
    + intros s2 b s3 Hb2. apply Hbody. by right.
    + split; [done|]. by etrans.
Qed.

(** A loop keeps an invariant that each of its turns keeps. *)
Lemma for_each_inv {A S} (body : S -> A -> Py.result S) (P : S -> Prop)
    (l : list A) (s s' : S) :
  (forall s a s', a ∈ l -> P s -> body s a = Py.Ok s' -> P s') ->
  P s -> Py.for_each body l s = Py.Ok s' -> P s'.
Proof.
  revert s. induction l as [|a l IH]; intros s Hbody HP H.
  - simpl in H. by injection H as <-.
  - cbn [Py.for_each] in H.
    destruct (body s a) as [s1|e] eqn:Hb; [|discriminate H].
    apply (IH s1); [|by eapply Hbody; [left|..]|exact H].
    intros s2 b s3 Hb2. apply Hbody. by right.
Qed.

(** A loop that only moves along a preorder reaches every element of
    its list, before and after which the preorder holds. *)
Lemma for_each_visits {A S} (body : S -> A -> Py.result S)
    (R : S -> S -> Prop) `{!Reflexive R} `{!Transitive R}
    (l : list A) (s s' : S) (a : A) :
  (forall s a s', body s a = Py.Ok s' -> R s s') ->
  Py.for_each body l s = Py.Ok s' ->
  a ∈ l ->
  exists s1 s2, R s s1 /\ body s1 a = Py.Ok s2 /\ R s2 s'.
Proof.
  intros Hmono. revert s. induction l as [|b l IH]; intros s H Ha.
  - by apply elem_of_nil in Ha.
  - cbn [Py.for_each] in H.
    destruct (body s b) as [t|] eqn:Hb; [|discriminate H].
    change (Py.for_each body l t = Py.Ok s') in H.
    assert (Hrest : R t s').
    { clear -H Hmono Reflexive0 Transitive0. revert t H.
      induction l as [|c l IHl]; intros t H.
      - simpl in H. injection H as <-. reflexivity.
      - cbn [Py.for_each] in H.
        destruct (body t c) as [u|] eqn:Hc; [|discriminate H].
        etrans; [by eapply Hmono|]. by apply IHl. }
    apply elem_of_cons in Ha as [->|Ha].
    + exists s, t. split_and!; [reflexivity|done|done].
    + destruct (IH t H Ha) as (s1 & s2 & H1 & H2 & H3).
      exists s1, s2. split_and!; [|done|done].
      etrans; [by eapply Hmono|done].
Qed.

Lemma for_each_mono {A S} (body : S -> A -> Py.result S)
    (R : S -> S -> Prop) `{!Reflexive R} `{!Transitive R}
    (l : list A) (s s' : S) :
  (forall s a s', body s a = Py.Ok s' -> R s s') ->
  Py.for_each body l s = Py.Ok s' -> R s s'.
Proof.
  intros Hmono. revert s. induction l as [|c l IHl]; intros s H.
  - simpl in H. injection H as <-. reflexivity.
  - cbn [Py.for_each] in H.
    destruct (body s c) as [u|] eqn:Hc; [|discriminate H].
    etrans; [by eapply Hmono|]. by apply IHl.
Qed.

Section WithExternals.
Context `{Ext : Externals}.

#[local] Instance grows_refl : Reflexive grows.
Proof. intros s. unfold grows. split_and!; [lia|set_solver|auto]. Qed.

#[local] Instance grows_trans : Transitive grows.
Proof.
  intros s1 s2 s3 (H1 & H2 & H3) (H1' & H2' & H3'). unfold grows.
  split_and!; [lia|set_solver|].
  intros Hc. destruct (H3' Hc) as [Hc2|Hlt]; [|right; lia].
  destruct (H3 Hc2) as [Hc1|Hlt]; [by left|right; lia].
Qed.

Lemma claimed_count_insert (gcn : list (list Node)) i c n :
  gcn !! i = Some c ->
  length (concat (<[i := c ++ [n]]> gcn)) = S (length (concat gcn)).
Proof.
  intros Hi. rewrite insert_take_drop by by eapply lookup_lt_Some.
  rewrite <- (take_drop_middle gcn i c Hi) at 3.
  rewrite !concat_app, !concat_cons, !length_app. simpl. lia.
Qed.

(** One node visited: the claims stay well formed and only grow. *)
Lemma visit_node_grows (sdfg : SDFG) (i : nat) (state : SDFGState)
    (s s' : Scan) (node : Node) :
  states sdfg !! i = Some state ->
  node ∈ nodes state ->
  well_claimed sdfg s ->
  visit_node sdfg i state s node = Py.Ok s' ->
  well_claimed sdfg s' /\ grows s s'.
Proof.
  intros Hstate Hnode Hwc H. unfold visit_node in H.
  assert (Hsame : well_claimed sdfg s /\ grows s s) by (split; [done|reflexivity]).
  destruct (kind node) eqn:Hkind;
    try (injection H as <-; exact Hsame).
  - (* a tasklet *)
    destruct (Forall2_lookup_r _ _ _ _ _ Hwc Hstate) as (c & Hc & Hnd & Hsub).
    rewrite Hc in H. simpl in H.
    case_bool_decide as Hin; [injection H as <-; exact Hsame|].
    destruct (is_free sdfg state node); [|injection H as <-; exact Hsame].
    destruct (_recursive_out_check _ _ _ _ _) as [o|]; simpl in H; [|discriminate H].
    destruct (_recursive_in_check _ _ _ _ _) as [i'|]; simpl in H; [|discriminate H].
    destruct (negb (o.2 && i'.2) || bool_decide (parent_schedule sdfg = Some GPU_Default));
      [|injection H as <-; exact Hsame].
    injection H as <-. split.
    + unfold well_claimed in *. cbn [global_code_nodes].
      apply Forall2_same_length_lookup. split.
      * rewrite length_insert. by eapply Forall2_length.
      * intros j x y Hx Hy. destruct (decide (i = j)) as [<-|Hne].
        -- rewrite list_lookup_insert_eq in Hx by by eapply lookup_lt_Some.
           injection Hx as <-. rewrite Hstate in Hy. injection Hy as <-.
           split.
           ++ apply NoDup_app. split_and!; [done| |apply NoDup_singleton].
              intros x Hx Hx'. apply list_elem_of_singleton in Hx' as ->. done.
           ++ intros x Hx. apply elem_of_app in Hx as [Hx|Hx]; [by apply Hsub|].
              by apply list_elem_of_singleton in Hx as ->.
        -- rewrite list_lookup_insert_ne in Hx by done.
           by eapply (Forall2_lookup_lr _ _ _ _ _ _ Hwc).
    + unfold grows, claimed_count. cbn [global_code_nodes gpu_scalars changed].
      rewrite (claimed_count_insert _ _ _ _ Hc).
      split_and!; [lia|set_solver|]. intros _. right. lia.
  - (* a nested graph *)
    destruct (is_free sdfg state node); injection H as <-; [|exact Hsame].
    split; [exact Hwc|]. unfold grows, claimed_count. simpl.
    split_and!; [lia|set_solver|auto].
Qed.

(** One turn of the loop. *)
Lemma scan_states_grows (sdfg : SDFG) (s s' : Scan) :
  well_claimed sdfg s ->
  scan_states sdfg s = Py.Ok s' ->
  well_claimed sdfg s'
  /\ claimed_count s <= claimed_count s'
  /\ gpu_scalars s ⊆ gpu_scalars s'
  /\ (changed s' = true -> claimed_count s < claimed_count s').
Proof.
  intros Hwc H. unfold scan_states in H.
  set (s0 := {| global_code_nodes := global_code_nodes s;
                gpu_scalars := gpu_scalars s; nsdfgs := nsdfgs s;
                changed := false |}) in H.
  assert (Hwc0 : well_claimed sdfg s0) by exact Hwc.
  assert (Hbody : forall s1 (ist : nat * SDFGState) s2,
             ist ∈ imap (fun i st => (i, st)) (states sdfg) ->
             well_claimed sdfg s1 ->
             Py.for_each (visit_node sdfg ist.1 ist.2) (nodes ist.2) s1 = Py.Ok s2 ->
             well_claimed sdfg s2 /\ grows s1 s2).
  { intros s1 [i state] s2 Hin Hwc1 Hbody. simpl in Hbody.
    apply elem_of_lookup_imap in Hin as (j & st & [= -> ->] & Hst).
    apply (for_each_keeps (visit_node sdfg j st) (well_claimed sdfg) grows
             (nodes st) s1 s2); [|done|done].
    intros s3 node s4 Hnode Hwc3 Hvisit.
    by eapply visit_node_grows. }
  destruct (for_each_keeps _ (well_claimed sdfg) grows _ s0 s' Hbody Hwc0 H)
    as (Hwc' & Hle & Hsub & Hch).
  split_and!; [done|exact Hle|exact Hsub|].
  intros Hc. destruct (Hch Hc) as [Hf|Hlt]; [discriminate Hf|exact Hlt].
Qed.


Lemma initial_scan_well_claimed (sdfg : SDFG) : well_claimed sdfg (initial_scan sdfg).
Proof.
  unfold well_claimed, initial_scan. simpl.
  apply Forall2_same_length_lookup. split; [by rewrite length_replicate|].
  intros i x y Hx _. apply lookup_replicate in Hx as [-> _].
  split; [apply NoDup_nil_2|]. intros z Hz. by apply elem_of_nil in Hz.
Qed.


(** *** The claims are only appended to *)

#[local] Instance claims_extended_refl : Reflexive claims_extended.
Proof. intros s. unfold claims_extended. reflexivity. Qed.

#[local] Instance claims_extended_trans : Transitive claims_extended.
Proof.
  intros s1 s2 s3 H12 H23. unfold claims_extended in *. by etrans.
Qed.



(** *** Only scalars are marked *)

Lemma scalars_only_union (sdfg : SDFG) (a b : gset string) :
  scalars_only sdfg a -> scalars_only sdfg b -> scalars_only sdfg (a ∪ b).
Proof. intros Ha Hb k Hk. apply elem_of_union in Hk as [?|?]; auto. Qed.

Lemma scalars_only_empty (sdfg : SDFG) : scalars_only sdfg ∅.
Proof. intros k Hk. by apply elem_of_empty in Hk. Qed.

Lemma check_far_end_scalars (sdfg : SDFG) (gs : gset string)
    (last_edge : Edge) (far : Node)
    (recurse : Node -> Py.result (gset string * bool))
    (acc r : gset string * bool) :
  (forall n r, recurse n = Py.Ok r -> scalars_only sdfg r.1) ->
  scalars_only sdfg acc.1 ->
  check_far_end sdfg gs last_edge far recurse acc = Py.Ok r ->
  scalars_only sdfg r.1.
Proof.
  intros Hrec Hacc H. destruct acc as [scalset scalout].
  unfold check_far_end in H.
  destruct (kind far) as [d| | | | |]; try (by injection H as <-).
  destruct (Py.get d (arrays sdfg)) as [desc|] eqn:Hd; [|discriminate H].
  case_bool_decide as Hsc.
  { destruct (recurse far) as [rr|] eqn:Hr; [|discriminate H].
    injection H as <-. cbn [fst].
    apply scalars_only_union; [apply scalars_only_union|]; [done| |by eapply Hrec].
    intros k Hk. apply elem_of_singleton in Hk as ->. eauto. }
  case_bool_decide as Hsh.
  { destruct (recurse far) as [rr|] eqn:Hr; [|discriminate H].
    injection H as <-. cbn [fst].
    apply scalars_only_union; [done|by eapply Hrec]. }
  case_bool_decide as Hone.
  { destruct (recurse far) as [rr|] eqn:Hr; [|discriminate H].
    injection H as <-. cbn [fst].
    apply scalars_only_union; [done|by eapply Hrec]. }
  by injection H as <-.
Qed.

Lemma recursive_out_check_scalars (depth : nat) (sdfg : SDFG) (node : Node)
    (state : SDFGState) (gs : gset string) (r : gset string * bool) :
  _recursive_out_check depth sdfg node state gs = Py.Ok r ->
  scalars_only sdfg r.1.
Proof.
  revert node r. induction depth as [|depth IH]; intros node r H;
    [discriminate H|].
  cbn [_recursive_out_check] in H.
  eapply (for_each_inv _ (fun acc => scalars_only sdfg acc.1)); [| |exact H].
  - intros acc e acc' _ Hacc Hstep. cbv beta in Hstep.
    destruct (last (memlet_path state e)) as [le|]; [|discriminate Hstep].
    eapply check_far_end_scalars; [|exact Hacc|exact Hstep].
    intros n r'. apply IH.
  - apply scalars_only_empty.
Qed.

Lemma recursive_in_check_scalars (depth : nat) (sdfg : SDFG) (node : Node)
    (state : SDFGState) (gs : gset string) (r : gset string * bool) :
  _recursive_in_check depth sdfg node state gs = Py.Ok r ->
  scalars_only sdfg r.1.
Proof.
  revert node r. induction depth as [|depth IH]; intros node r H;
    [discriminate H|].
  cbn [_recursive_in_check] in H.
  eapply (for_each_inv _ (fun acc => scalars_only sdfg acc.1)); [| |exact H].
  - intros acc e acc' _ Hacc Hstep. cbv beta in Hstep.
    destruct (head (memlet_path state e)) as [le|]; [|discriminate Hstep].
    eapply check_far_end_scalars; [|exact Hacc|exact Hstep].
    intros n r'. apply IH.
  - apply scalars_only_empty.
Qed.

Lemma visit_node_scalars (sdfg : SDFG) (i : nat) (state : SDFGState)
    (s s' : Scan) (node : Node) :
  scalars_only sdfg (gpu_scalars s) ->
  visit_node sdfg i state s node = Py.Ok s' ->
  scalars_only sdfg (gpu_scalars s').
Proof.
  intros Hs H. unfold visit_node in H.
  destruct (kind node); try (by injection H as <-).
  - case_bool_decide; [by injection H as <-|].
    destruct (is_free sdfg state node); [|by injection H as <-].
    destruct (_recursive_out_check _ _ _ _ _) as [o|] eqn:Ho; [|discriminate H].
    destruct (_recursive_in_check _ _ _ _ _) as [i'|] eqn:Hi; [|discriminate H].
    cbn [mbind Py.result_bind] in H.
    destruct (negb _ || _); [|by injection H as <-].
    injection H as <-. cbn [gpu_scalars].
    apply scalars_only_union; [done|].
    apply scalars_only_union;
      [by eapply recursive_out_check_scalars|by eapply recursive_in_check_scalars].
  - destruct (is_free sdfg state node); by injection H as <-.
Qed.

Lemma scan_states_scalars (sdfg : SDFG) (s s' : Scan) :
  scalars_only sdfg (gpu_scalars s) ->
  scan_states sdfg s = Py.Ok s' ->
  scalars_only sdfg (gpu_scalars s').
Proof.
  intros Hs H. unfold scan_states in H.
  eapply (for_each_inv _ (fun s => scalars_only sdfg (gpu_scalars s)));
    [| |exact H]; [|exact Hs].
  intros s1 ist s2 _ Hs1 Hstate. cbv beta in Hstate.
  eapply (for_each_inv _ (fun s => scalars_only sdfg (gpu_scalars s)));
    [|exact Hs1|exact Hstate].
  intros s3 node s4 _. apply visit_node_scalars.
Qed.




End WithExternals.

Import Examples.



Lemma scalar_fixpoint_example :
  exists s,
    scalar_fixpoint 3 offload_graph (initial_scan offload_graph) = Some (Py.Ok s)
    /\ global_code_nodes s = [[{| node_id := 0; kind := Tasklet "t" |}]]
    /\ changed s = false.
Proof. eexists. split; [by vm_compute|]. done. Qed.

End ScanFacts.

(** ** More on [const_symbol_to_map.py] *)

Module ConstSymbolToMapMore.
Import Dtypes ConstSymbolToMap ConstSymbolToMapFacts.

Section WithExternals.
Context `{Ext : Externals}.

(** *** The guard with entries left in the dictionary *)

Lemma collect_assignment_keys (sdfg : SDFG) (compute : SDFGState)
    (ms ms' : ClassState) (kv : string * string) (k : string) :
  collect_assignment sdfg compute ms kv = Py.Ok ms' ->
  k ∈ Py.keys ms -> k ∈ Py.keys ms'.
Proof.
  intros H Hk. destruct kv as [k' v]. unfold collect_assignment in H.
  case_bool_decide; [|by injection H as <-].
  destruct (Memlet_parse v) as [m|ex].
  - destruct (subset m); [|by injection H as <-].
    destruct (data m); [|by injection H as <-].
    destruct (Py.mem _ _); injection H as <-; [|done].
    rewrite keys_set. destruct (Py.mem k' ms); [done|].
    apply elem_of_app. by left.
  - case_bool_decide; [by injection H as <-|discriminate H].
Qed.

Lemma collect_assignments_keys (sdfg : SDFG) (compute : SDFGState)
    (l : list (string * string)) (ms ms' : ClassState) (k : string) :
  Py.for_each (collect_assignment sdfg compute) l ms = Py.Ok ms' ->
  k ∈ Py.keys ms -> k ∈ Py.keys ms'.
Proof.
  revert ms. induction l as [|kv l IH]; intros ms H Hk.
  - simpl in H. by injection H as <-.
  - cbn [Py.for_each] in H.
    destruct (collect_assignment sdfg compute ms kv) as [ms1|] eqn:Hstep;
      [|discriminate H].
    apply (IH ms1 H). by eapply collect_assignment_keys.
Qed.

(** With an entry left in the dictionary of the class, the guard looks
    at the control edges only: it accepts exactly when the compute state
    has no outgoing control edge, whatever the assignments are, and no
    entry leaves the dictionary. *)
Theorem can_be_applied_with_entries (ms ms' : ClassState)
    (self self' : Instance) (sdfg : SDFG) (b : bool) :
  ms ≠ [] ->
  can_be_applied ms self sdfg = Py.Ok (b, ms', self') ->
  (b = true <-> cf_out_edges sdfg (compute_state self) = [])
  /\ (forall k, k ∈ Py.keys ms -> k ∈ Py.keys ms').
Proof.
  intros Hne H. unfold can_be_applied in H.
  destruct (cf_out_edges sdfg (compute_state self)) as [|oe oes] eqn:Hout.
  - simpl in H.
    destruct (symbol_edge _) as [i|]; [|discriminate H].
    destruct (cf_edges sdfg !! i) as [e|]; [|discriminate H].
    destruct (states sdfg !! compute_state self) as [compute|]; [|discriminate H].
    destruct (Py.for_each (collect_assignment sdfg compute) _ ms)
      as [ms1|] eqn:Hloop; [|discriminate H].
    cbn [mbind Py.result_bind] in H. injection H as <- <- <-.
    split; [|intros k; by eapply collect_assignments_keys].
    split; [done|]. intros _. apply bool_decide_eq_true.
    assert (Hne' : ms1 ≠ [])
      by (apply (collect_assignments_empty _ _ _ _ _ Hloop); by left).
    by destruct ms1.
  - simpl in H. injection H as <- <- <-. split; [|done]. split; done.
Qed.

(** *** The guard on a value that [Memlet] does not take apart *)

Lemma collect_assignment_returns (sdfg : SDFG) (compute : SDFGState)
    (ms : ClassState) (kv : string * string) :
  (forall ex, ¬ unparsable compute kv ex) ->
  exists ms', collect_assignment sdfg compute ms kv = Py.Ok ms'.
Proof.
  intros Hno. destruct kv as [k v]. unfold collect_assignment.
  case_bool_decide as Hk; [|eauto].
  destruct (Memlet_parse v) as [m|ex] eqn:Hm.
  - destruct (subset m); [|eauto]. destruct (data m); [|eauto].
    destruct (Py.mem _ _); eauto.
  - case_bool_decide as Hex; [eauto|]. by destruct (Hno ex).
Qed.

Lemma collect_assignment_raises (sdfg : SDFG) (compute : SDFGState)
    (ms : ClassState) (kv : string * string) (ex : Py.exn) :
  unparsable compute kv ex ->
  collect_assignment sdfg compute ms kv = Py.Raise ex.
Proof.
  destruct kv as [k v]. intros (Hk & Hm & Hex). simpl in Hk, Hm.
  unfold collect_assignment. rewrite bool_decide_true by done.
  rewrite Hm. by rewrite bool_decide_false.
Qed.

Lemma collect_assignments_raise (sdfg : SDFG) (compute : SDFGState)
    (l1 l2 : list (string * string)) (kv : string * string)
    (ms : ClassState) (ex : Py.exn) :
  (forall kv' ex', kv' ∈ l1 -> ¬ unparsable compute kv' ex') ->
  unparsable compute kv ex ->
  Py.for_each (collect_assignment sdfg compute) (l1 ++ kv :: l2) ms
  = Py.Raise ex.
Proof.
  intros Hl1 Hkv. revert ms. induction l1 as [|kv1 l1 IH]; intros ms.
  - cbn [app Py.for_each]. by rewrite (collect_assignment_raises _ _ _ _ _ Hkv).
  - cbn [app Py.for_each].
    destruct (collect_assignment_returns sdfg compute ms kv1) as [ms1 ->].
    { intros ex'. apply Hl1. left. }
    cbn [mbind Py.result_bind]. apply IH.
    intros kv' ex' Hin. apply Hl1. by right.
Qed.

Lemma cf_out_edges_lookup (sdfg : SDFG) (state i : nat) (e : CFEdge) :
  (i, e) ∈ cf_out_edges sdfg state -> cf_edges sdfg !! i = Some e.
Proof.
  unfold cf_out_edges. intros H. apply list_elem_of_filter in H as [_ H].
  by apply elem_of_lookup_imap in H as (j & e' & [= -> ->] & He).
Qed.

(** The guard does not return on a symbol edge with an assignment that
    the compute state reads and of whose value [Memlet] raises another
    exception than [SyntaxError], a [ValueError] for one: the [try]
    statement lets the exception of the first such assignment pass,
    whatever the other assignments are and whatever is in the dictionary
    of the class. *)
Theorem can_be_applied_raises_on_unparsable (ms : ClassState) (self : Instance)
    (sdfg : SDFG) (i : nat) (e : CFEdge) (compute : SDFGState)
    (l1 l2 : list (string * string)) (kv : string * string) (ex : Py.exn) :
  cf_out_edges sdfg (compute_state self) = [] ->
  head (filter (fun ie => cf_dst ie.2 = compute_state self)
          (cf_out_edges sdfg (symbol_state self))) = Some (i, e) ->
  states sdfg !! compute_state self = Some compute ->
  assignments (cf_data e) = l1 ++ kv :: l2 ->
  (forall kv' ex', kv' ∈ l1 -> ¬ unparsable compute kv' ex') ->
  unparsable compute kv ex ->
  can_be_applied ms self sdfg = Py.Raise ex.
Proof.
  intros Hout Hhead Hstate Hassign Hl1 Hkv. unfold can_be_applied.
  rewrite Hout, Hhead. cbn [length bool_decide decide_rel symbol_edge fst].
  rewrite bool_decide_false by (intros Hne; by apply Hne).
  assert (He : cf_edges sdfg !! i = Some e).
  { apply (cf_out_edges_lookup sdfg (symbol_state self)).
    apply head_Some_elem_of in Hhead. by apply list_elem_of_filter in Hhead as [_ ?]. }
  rewrite He, Hstate, Hassign.
  by rewrite (collect_assignments_raise _ _ _ _ _ _ _ Hl1 Hkv).
Qed.

(** *** What [apply] needs to return *)

Lemma add_map_symbols_ok (sdfg : SDFG) (l : list (string * Memlet))
    (b b' : Building) :
  Py.for_each (add_map_symbol sdfg) l b = Py.Ok b' ->
  (forall s m, (s, m) ∈ l ->
     exists d, data m = Some d /\ d ∈ Py.keys (arrays sdfg))
  /\ params (b_map b') = params (b_map b) ++ Py.keys l
  /\ length (range (b_map b')) = length (range (b_map b)) + length l
  /\ map_label (b_map b') = map_label (b_map b).
Proof.
  revert b. induction l as [|[s m] l IH]; intros b H.
  - simpl in H. injection H as <-. split_and!; [|by rewrite app_nil_r|simpl; lia|done].
    intros s m Hin. by apply elem_of_nil in Hin.
  - cbn [Py.for_each] in H.
    destruct (add_map_symbol sdfg b (s, m)) as [b1|] eqn:Hstep;
      [|discriminate H].
    change (Py.for_each (add_map_symbol sdfg) l b1 = Py.Ok b') in H.
    destruct (IH b1 H) as (Hdata & Hparams & Hrange & Hlabel).
    unfold add_map_symbol in Hstep.
    case_bool_decide; [discriminate Hstep|].
    destruct (data m) as [d|] eqn:Hd; [|discriminate Hstep].
    destruct (Py.get d (arrays sdfg)) as [desc|] eqn:Hdesc; [|discriminate Hstep].
    destruct (head _) as [n|]; injection Hstep as <-; simpl in *.
    all: split_and!;
      [ intros s' m' Hin; apply elem_of_cons in Hin as [[= -> ->]|Hin];
        [exists d; split; [done|]; apply CloningFacts.key_get_Some; eauto
        |by eapply Hdata]
      | by rewrite Hparams, <- app_assoc
      | rewrite Hrange, length_app; simpl; lia
      | done ].
Qed.

Lemma remove_assignments_needs (ks : list string)
    (a s a' s' : list (string * string)) (k : string) :
  Py.for_each remove_assignment ks (a, s) = Py.Ok (a', s') ->
  k ∈ ks -> k ∈ Py.keys a.
Proof.
  revert a s. induction ks as [|k0 ks IH]; intros a s H Hk.
  - by apply elem_of_nil in Hk.
  - simpl in H. unfold Py.pop in H.
    destruct (Py.mem k0 a) eqn:Hm; simpl in H; [|discriminate H].
    apply elem_of_cons in Hk as [->|Hk]; [by apply mem_true_key|].
    apply (keys_del_subseteq a k0). by eapply IH.
Qed.

(** [apply] returns only when every memlet of the dictionary reads an
    array of the graph and, unless the dictionary is empty, the object has
    a symbol edge on which every symbol of the dictionary is assigned: an
    entry left by an earlier candidate makes it raise [KeyError]. *)
Theorem apply_needs_own_entries (ms : ClassState) (self : Instance)
    (sdfg sdfg' : SDFG) (map : Map) :
  apply ms self sdfg = Py.Ok (sdfg', map) ->
  (forall s m, (s, m) ∈ ms ->
     exists d, data m = Some d /\ d ∈ Py.keys (arrays sdfg))
  /\ (ms ≠ [] ->
      exists i e,
        symbol_edge self = Some i
        /\ cf_edges sdfg !! i = Some e
        /\ forall s, s ∈ Py.keys ms -> s ∈ Py.keys (assignments (cf_data e))).
Proof.
  intros H. unfold apply in H.
  destruct (states sdfg !! compute_state self) as [compute|]; [|discriminate H].
  destruct (Py.for_each (add_map_symbol sdfg) ms _) as [b|] eqn:Hb;
    [|discriminate H].
  cbn [mbind Py.result_bind] in H.
  destruct (reroute_all src _ _ _ _) as [st1|]; [|discriminate H].
  cbn [mbind Py.result_bind] in H.
  destruct (reroute_all dst _ _ _ _) as [st2|]; [|discriminate H].
  cbn [mbind Py.result_bind] in H.
  destruct (Py.for_each (remove_assignment_on_edge self) _ _) as [r|] eqn:Hr;
    [|discriminate H].
  clear H. split.
  - destruct (add_map_symbols_ok _ _ _ _ Hb) as [Hdata _]. exact Hdata.
  - intros Hne.
    destruct (symbol_edge self) as [i|] eqn:Hi; cycle 1.
    { apply remove_assignments_without_edge in Hr as [Hks _]; [|by rewrite Hi].
      apply fmap_nil_inv in Hks. done. }
    destruct (cf_edges sdfg !! i) as [e|] eqn:He; cycle 1.
    { apply remove_assignments_without_edge in Hr as [Hks _];
        [|intros i'; rewrite Hi; by intros [= <-]].
      apply fmap_nil_inv in Hks. done. }
    exists i, e. split_and!; [done|done|].
    rewrite (remove_assignments_on_edge self i _ _ e _ Hi He) in Hr.
    destruct (Py.for_each remove_assignment _ _) as [[a' s']|] eqn:Hr';
      [|discriminate Hr].
    intros s Hs. by eapply remove_assignments_needs.
Qed.

(** [apply] leaves the descriptors, every state but the compute state and
    every control edge but the symbol edge as they are, and keeps the ends
    and the condition of the symbol edge; the map it builds is named after
    the compute state and has the symbols of the dictionary as parameters,
    in their order, with one range each. *)
Theorem apply_frame (ms : ClassState) (self : Instance) (sdfg sdfg' : SDFG)
    (map : Map) :
  apply ms self sdfg = Py.Ok (sdfg', map) ->
  arrays sdfg' = arrays sdfg
  /\ length (states sdfg') = length (states sdfg)
  /\ (forall j, j ≠ compute_state self -> states sdfg' !! j = states sdfg !! j)
  /\ length (cf_edges sdfg') = length (cf_edges sdfg)
  /\ (forall j, symbol_edge self ≠ Some j ->
      cf_edges sdfg' !! j = cf_edges sdfg !! j)
  /\ (forall i e e', symbol_edge self = Some i ->
      cf_edges sdfg !! i = Some e -> cf_edges sdfg' !! i = Some e' ->
      cf_src e' = cf_src e /\ cf_dst e' = cf_dst e
      /\ condition (cf_data e') = condition (cf_data e))
  /\ params map = Py.keys ms
  /\ length (range map) = length ms
  /\ (forall compute, states sdfg !! compute_state self = Some compute ->
      map_label map = label compute +:+ "_map").
Proof.
  intros H. unfold apply in H.
  destruct (states sdfg !! compute_state self) as [compute|]; [|discriminate H].
  destruct (Py.for_each (add_map_symbol sdfg) ms _) as [b|] eqn:Hb;
    [|discriminate H].
  cbn [mbind Py.result_bind] in H.
  destruct (reroute_all src _ _ _ _) as [st1|]; [|discriminate H].
  cbn [mbind Py.result_bind] in H.
  destruct (reroute_all dst _ _ _ _) as [st2|]; [|discriminate H].
  cbn [mbind Py.result_bind] in H.
  destruct (Py.for_each (remove_assignment_on_edge self) _ _) as [r|] eqn:Hr;
    [|discriminate H].
  cbn [mbind Py.result_bind] in H. injection H as <- <-.
  cbn [arrays states cf_edges].
  destruct (add_map_symbols_ok _ _ _ _ Hb) as (_ & Hparams & Hrange & Hlabel).
  simpl in Hparams, Hrange, Hlabel.
  assert (Hedges :
    length r.1 = length (cf_edges sdfg)
    /\ (forall j, symbol_edge self ≠ Some j -> r.1 !! j = cf_edges sdfg !! j)
    /\ (forall i e e', symbol_edge self = Some i ->
        cf_edges sdfg !! i = Some e -> r.1 !! i = Some e' ->
        cf_src e' = cf_src e /\ cf_dst e' = cf_dst e
        /\ condition (cf_data e') = condition (cf_data e))).
  { destruct (symbol_edge self) as [i|] eqn:Hi; cycle 1.
    { apply remove_assignments_without_edge in Hr as [_ ->]; [|by rewrite Hi].
      split_and!; [done|done|]. by intros i e e' [=]. }
    destruct (cf_edges sdfg !! i) as [e|] eqn:He; cycle 1.
    { apply remove_assignments_without_edge in Hr as [_ ->];
        [|intros i'; rewrite Hi; by intros [= <-]].
      split_and!; [done|done|]. intros i' e e' [= <-] He'. cbn [fst] in *.
      congruence. }
    rewrite (remove_assignments_on_edge self i _ _ e _ Hi He) in Hr.
    destruct (Py.for_each remove_assignment _ _) as [[a' s']|];
      [|discriminate Hr].
    cbn [mbind Py.result_bind fst snd] in Hr. injection Hr as <-. cbn [fst].
    split_and!.
    - apply length_insert.
    - intros j Hj. apply list_lookup_insert_ne. congruence.
    - intros i' e0 e' [= <-] He0 He'. rewrite He in He0. injection He0 as <-.
      rewrite list_lookup_insert_eq in He' by by eapply lookup_lt_Some.
      by injection He' as <-. }
  destruct Hedges as (Hlen & Hother & Hsame).
  split_and!; try done.
  - apply length_insert.
  - intros j Hj. by apply list_lookup_insert_ne.
  - intros compute' [= <-]. done.
Qed.

(** *** Source nodes that hold no data *)

Lemma in_degree_add_node (st : SDFGState) (n0 n : Node) :
  in_degree (add_node st n0) n = in_degree st n.
Proof. unfold add_node, in_degree. by case_bool_decide. Qed.

Lemma nodes_add_node (st : SDFGState) (n0 n : Node) :
  n ∈ nodes st -> n ∈ nodes (add_node st n0).
Proof.
  intros H. unfold add_node. case_bool_decide; [done|].
  cbn [nodes]. apply elem_of_app. by left.
Qed.

Lemma in_degree_add_edge (st : SDFGState) (e : Edge) (n : Node) :
  dst e ≠ n -> in_degree (add_edge st e) n = in_degree st n.
Proof.
  intros Hne. unfold add_edge, in_degree at 1. cbn [edges].
  rewrite filter_app, filter_cons, decide_False, filter_nil, app_nil_r by done.
  fold (in_degree (add_node (add_node st (src e)) (dst e)) n).
  by rewrite !in_degree_add_node.
Qed.

Lemma nodes_add_edge (st : SDFGState) (e : Edge) (n : Node) :
  n ∈ nodes st -> n ∈ nodes (add_edge st e).
Proof.
  intros H. unfold add_edge. cbn [nodes]. by apply nodes_add_node, nodes_add_node.
Qed.

Lemma add_map_symbol_keeps_sources (sdfg : SDFG) (b b' : Building)
    (sm : string * Memlet) (n : Node) :
  add_map_symbol sdfg b sm = Py.Ok b' ->
  n ≠ MapEntry (map_label (b_map b)) ->
  n ∈ nodes (b_state b) ->
  map_label (b_map b') = map_label (b_map b)
  /\ n ∈ nodes (b_state b')
  /\ in_degree (b_state b') n = in_degree (b_state b) n.
Proof.
  intros H Hne Hn. destruct sm as [s m]. unfold add_map_symbol in H.
  case_bool_decide; [discriminate H|].
  destruct (data m) as [d|]; [|discriminate H].
  destruct (Py.get d (arrays sdfg)) as [desc|]; [|discriminate H].
  destruct (head _) as [n0|]; injection H as <-; cbn [b_state b_map map_label].
  - split_and!; [done|by apply nodes_add_edge|].
    by rewrite in_degree_add_edge by (cbn [dst]; congruence).
  - split_and!; [done|by apply nodes_add_edge, nodes_add_node|].
    rewrite in_degree_add_edge by (cbn [dst]; congruence).
    apply in_degree_add_node.
Qed.

Lemma add_map_symbols_keep_sources (sdfg : SDFG) (l : list (string * Memlet))
    (b b' : Building) (n : Node) :
  Py.for_each (add_map_symbol sdfg) l b = Py.Ok b' ->
  n ≠ MapEntry (map_label (b_map b)) ->
  n ∈ nodes (b_state b) ->
  n ∈ nodes (b_state b')
  /\ in_degree (b_state b') n = in_degree (b_state b) n.
Proof.
  revert b. induction l as [|sm l IH]; intros b H Hne Hn.
  - simpl in H. by injection H as <-.
  - cbn [Py.for_each] in H.
    destruct (add_map_symbol sdfg b sm) as [b1|] eqn:Hstep; [|discriminate H].
    change (Py.for_each (add_map_symbol sdfg) l b1 = Py.Ok b') in H.
    destruct (add_map_symbol_keeps_sources _ _ _ _ n Hstep Hne Hn)
      as (Hl & Hn1 & Hd1).
    destruct (IH b1 H) as [Hn' Hd']; [by rewrite Hl|done|].
    split; [done|]. by rewrite Hd', Hd1.
Qed.

Lemma reroute_all_raises (side : Edge -> Node) (via : Node)
    (id_table : Py.dict nat) (ends : list Node) (st : SDFGState) (n : Node) :
  n ∈ ends ->
  (forall id d, n ≠ AccessNode id d) ->
  reroute_all side via id_table ends st = Py.Raise (Py.AttributeError "data").
Proof.
  intros Hn Hcode. unfold reroute_all.
  revert st. induction ends as [|n0 ends IH]; intros st.
  - by apply elem_of_nil in Hn.
  - cbn [Py.for_each]. destruct n0 as [id d|id l|l|l]; cbn [node_data mbind Py.result_bind];
      try done.
    apply elem_of_cons in Hn as [->|Hn]; [by destruct (Hcode id d)|].
    destruct (Py.mem d id_table); cbn [mbind Py.result_bind]; by apply IH.
Qed.

Lemma add_map_symbols_raise (sdfg : SDFG) (l : list (string * Memlet))
    (b : Building) (e : Py.exn) :
  Py.for_each (add_map_symbol sdfg) l b = Py.Raise e ->
  e = Py.AssertionError \/ e = Py.TypeError \/ exists k, e = Py.KeyError k.
Proof.
  revert b. induction l as [|[s m] l IH]; intros b H; [discriminate H|].
  cbn [Py.for_each] in H.
  destruct (add_map_symbol sdfg b (s, m)) as [b1|e1] eqn:Hstep.
  - by apply (IH b1).
  - cbn [mbind Py.result_bind] in H. injection H as <-.
    unfold add_map_symbol in Hstep.
    case_bool_decide; [injection Hstep as <-; by left|].
    destruct (data m) as [d|]; [|injection Hstep as <-; right; by left].
    destruct (Py.get d (arrays sdfg)) as [desc|];
      [|injection Hstep as <-; right; right; eauto].
    by destruct (head _).
Qed.

(** [apply] does not return on a compute state with a source node that
    holds no data, such as a tasklet or a map entry without inputs: the
    loop over the source nodes reads [n.data] of every one of them, which
    raises [AttributeError], unless the loop over the dictionary has
    raised before ([AssertionError] for a symbol met twice, [TypeError]
    for a memlet without data, [KeyError] for one of no array). *)
Theorem apply_fails_on_source_without_data (ms : ClassState) (self : Instance)
    (sdfg : SDFG) (compute : SDFGState) (n : Node) :
  states sdfg !! compute_state self = Some compute ->
  n ∈ nodes compute ->
  in_degree compute n = 0 ->
  (forall id d, n ≠ AccessNode id d) ->
  n ≠ MapEntry (label compute +:+ "_map") ->
  exists e,
    apply ms self sdfg = Py.Raise e
    /\ (e = Py.AttributeError "data" \/ e = Py.AssertionError
        \/ e = Py.TypeError \/ exists k, e = Py.KeyError k).
Proof.
  intros Hstate Hn Hdeg Hcode Hme. unfold apply. rewrite Hstate.
  destruct (Py.for_each (add_map_symbol sdfg) ms _) as [b|e] eqn:Hb.
  - destruct (add_map_symbols_keep_sources _ _ _ _ n Hb Hme Hn) as [Hn' Hd'].
    cbn [b_state] in Hd'. rewrite Hdeg in Hd'.
    assert (Hsrc : n ∈ source_nodes (b_state b)).
    { unfold source_nodes. by apply list_elem_of_filter. }
    exists (Py.AttributeError "data"). split; [|by left].
    cbn [mbind Py.result_bind].
    by rewrite (reroute_all_raises src _ _ _ _ n Hsrc Hcode).
  - exists e. split; [done|]. right. by apply (add_map_symbols_raise _ _ _ _ Hb).
Qed.

End WithExternals.

Import Examples.

(** The first theorem at the candidate [other], with the entry of [body]
    left in the dictionary. *)
Lemma can_be_applied_with_entries_witness :
  [("k", {| data := Some "A_row"; subset := Some "i" |})] ≠ []
  /\ exists ms' self',
       can_be_applied [("k", {| data := Some "A_row"; subset := Some "i" |})]
         other_candidate two_candidates = Py.Ok (true, ms', self')
       /\ (true = true <->
           cf_out_edges two_candidates (compute_state other_candidate) = []).
Proof.
  assert (Hne : [("k", {| data := Some "A_row"; subset := Some "i" |})] ≠ [])
    by done.
  split; [exact Hne|]. eexists _, _.
  assert (Hrun : can_be_applied
                   [("k", {| data := Some "A_row"; subset := Some "i" |})]
                   other_candidate two_candidates
                 = Py.Ok (true,
                          [("k", {| data := Some "A_row"; subset := Some "i" |})],
                          {| symbol_state := 0; compute_state := 2;
                             symbol_edge := Some 1 |}))
    by by vm_compute.
  split; [exact Hrun|].
  exact (proj1 (can_be_applied_with_entries _ _ _ _ _ _ Hne Hrun)).
Defined.

(** The guard on an edge that assigns [k] the difference of two array
    reads, which [Memlet] cuts into three parts. *)
Lemma can_be_applied_raises_on_unparsable_witness :
  cf_out_edges difference_graph (compute_state body_candidate) = []
  /\ states difference_graph !! compute_state body_candidate
     = Some (gather_state "body")
  /\ unparsable (gather_state "body") ("k", "A_row[i + 1] - A_row[i]")
       Py.ValueError
  /\ can_be_applied [] body_candidate difference_graph
     = Py.Raise Py.ValueError.
Proof.
  assert (Hout : cf_out_edges difference_graph (compute_state body_candidate)
                 = []) by done.
  assert (Hun : unparsable (gather_state "body")
                  ("k", "A_row[i + 1] - A_row[i]") Py.ValueError).
  { split_and!; [|by vm_compute|done].
    apply (bool_decide_unpack _). by vm_compute. }
  split; [exact Hout|]. split; [reflexivity|]. split; [exact Hun|].
  apply (can_be_applied_raises_on_unparsable [] body_candidate difference_graph
           0 _ (gather_state "body") [] [] _ _ Hout eq_refl eq_refl eq_refl);
    [|exact Hun].
  intros kv' ex' Hin. by apply elem_of_nil in Hin.
Defined.

(** The other two theorems at the accepted candidate [body]. *)
Lemma apply_needs_own_entries_witness :
  exists sdfg' map,
    apply [("k", {| data := Some "A_row"; subset := Some "i" |})]
      {| symbol_state := 0; compute_state := 1; symbol_edge := Some 0 |}
      two_candidates = Py.Ok (sdfg', map)
    /\ [("k", {| data := Some "A_row"; subset := Some "i" |})] ≠ []
    /\ exists i e,
         symbol_edge
           {| symbol_state := 0; compute_state := 1; symbol_edge := Some 0 |}
         = Some i
         /\ cf_edges two_candidates !! i = Some e
         /\ forall s,
              s ∈ Py.keys [("k", {| data := Some "A_row"; subset := Some "i" |})] ->
              s ∈ Py.keys (assignments (cf_data e)).
Proof.
  assert (Hne : [("k", {| data := Some "A_row"; subset := Some "i" |})] ≠ [])
    by done.
  eexists _, _. split; [by vm_compute|]. split; [exact Hne|].
  refine (proj2 (apply_needs_own_entries _ _ _ _ _ _) Hne). by vm_compute.
Defined.

Lemma apply_frame_witness :
  exists sdfg' map,
    apply [("k", {| data := Some "A_row"; subset := Some "i" |})]
      {| symbol_state := 0; compute_state := 1; symbol_edge := Some 0 |}
      two_candidates = Py.Ok (sdfg', map)
    /\ arrays sdfg' = arrays two_candidates
    /\ params map = ["k"].
Proof.
  eexists _, _. split; [by vm_compute|].
  pose proof (apply_frame
                [("k", {| data := Some "A_row"; subset := Some "i" |})]
                {| symbol_state := 0; compute_state := 1; symbol_edge := Some 0 |}
                two_candidates _ _ ltac:(by vm_compute)) as H.
  split; [exact (proj1 H)|].
  exact (proj1 (proj2 (proj2 (proj2 (proj2 (proj2 (proj2 H))))))).
Defined.

(** The theorem on a compute state whose tasklet has no input: the
    candidate is accepted by the guard, and [apply] raises. *)
Lemma apply_fails_on_source_without_data_witness :
  can_be_applied [] {| symbol_state := 0; compute_state := 1;
                       symbol_edge := None |} fill_graph
  = Py.Ok (true, [("k", {| data := Some "A_row"; subset := Some "i" |})],
           {| symbol_state := 0; compute_state := 1; symbol_edge := Some 0 |})
  /\ apply [("k", {| data := Some "A_row"; subset := Some "i" |})]
       {| symbol_state := 0; compute_state := 1; symbol_edge := Some 0 |}
       fill_graph
     = Py.Raise (Py.AttributeError "data")
  /\ exists e,
       apply [("k", {| data := Some "A_row"; subset := Some "i" |})]
         {| symbol_state := 0; compute_state := 1; symbol_edge := Some 0 |}
         fill_graph
       = Py.Raise e.
Proof.
  split; [by vm_compute|]. split; [by vm_compute|].
  destruct (apply_fails_on_source_without_data
              [("k", {| data := Some "A_row"; subset := Some "i" |})]
              {| symbol_state := 0; compute_state := 1; symbol_edge := Some 0 |}
              fill_graph fill_state (CodeNode 0 "t"))
    as (e & He & _).
  - done.
  - apply elem_of_cons. by left.
  - by vm_compute.
  - done.
  - done.
  - by exists e.
Defined.

End ConstSymbolToMapMore.

(** ** More on [replace.py] *)

Module ReplaceMore.
Import Symbolic Dtypes Replace SymbolicFacts ReplaceFacts.

Lemma fmap_fixed {A} (f : A -> A) (l : list A) :
  (forall x, x ∈ l -> f x = x) -> f <$> l = l.
Proof.
  induction l as [|x l IH]; intros H; [done|].
  csimpl. rewrite (H x) by left. f_equal. apply IH.
  intros y Hy. apply H. by right.
Qed.

Lemma filter_none {A} (P : A -> Prop) `{!forall x, Decision (P x)}
    (l : list A) :
  (forall x, x ∈ l -> ¬ P x) -> filter P l = [].
Proof.
  induction l as [|x l IH]; intros Hl; [done|].
  rewrite filter_cons. destruct (decide (P x)) as [Hx|_].
  - destruct (Hl x); [left|done].
  - apply IH. intros y Hy. apply Hl. by right.
Qed.

Lemma remove_dups_NoDup {A} `{EqDecision A} (l : list A) :
  NoDup l -> remove_dups l ≡ₚ l.
Proof.
  intros Hnd. apply NoDup_Permutation; [apply NoDup_remove_dups|done|].
  intros x. apply elem_of_remove_dups.
Qed.

Lemma all_false_no_true {A} (f : A -> bool) (l : list A) :
  Forall (fun x => f x = false) l -> ¬ Exists (fun x => f x = true) l.
Proof.
  intros HF HE. apply Exists_exists in HE as (x & Hin & Hx).
  rewrite Forall_forall in HF. specialize (HF x Hin). congruence.
Qed.

Lemma all_word_chars_app (a b : string) :
  Str.all_word_chars (a +:+ b)
  = Str.all_word_chars a && Str.all_word_chars b.
Proof.
  induction a as [|c a IH]; [done|].
  rewrite append_cons. simpl. rewrite IH. by rewrite andb_assoc.
Qed.

(** Every token of the tokenizer is a word. *)
Lemma findall_words_from_words (cur s : string) :
  Str.all_word_chars cur = true ->
  Forall (fun t => Str.is_word t = true) (Str.findall_words_from cur s).
Proof.
  revert cur. induction s as [|c s IH]; intros cur Hcur; simpl.
  - destruct (String.eqb cur EmptyString) eqn:He; [done|].
    apply Forall_singleton. unfold Str.is_word. by rewrite He, Hcur.
  - destruct (Str.is_word_char c) eqn:Hc.
    + apply IH. rewrite all_word_chars_app, Hcur. simpl. by rewrite Hc.
    + destruct (String.eqb cur EmptyString) eqn:He; [by apply IH|].
      apply Forall_cons. split; [|by apply IH].
      unfold Str.is_word. by rewrite He, Hcur.
Qed.

Section WithExternals.
Context `{Ext : Externals}.

(** *** Code in other dialects *)

Lemma replace_in_codeblock_result (cb : CodeBlock) (repl : Py.dict string)
    (node : option Node) :
  match replace_in_codeblock cb repl node with
  | Py.Ok _ => is_foreign_code (Some (CodeProperty cb)) = false
  | Py.Raise e =>
      e = Py.UnboundLocalError "name"
      /\ is_foreign_code (Some (CodeProperty cb)) = true
  end.
Proof.
  unfold replace_in_codeblock, is_foreign_code.
  destruct (code cb) as [|[|c s]|stmts]; try done.
  destruct (decide (language cb = CPP)) as [Hl|Hl].
  - rewrite (bool_decide_true _ Hl).
    rewrite bool_decide_false by (intros H; by apply H).
    destruct (String.eqb _ _); [done|].
    destruct node as [n|]; [|done]. by destruct (bool_decide _).
  - rewrite (bool_decide_false _ Hl). simpl. split; [done|].
    by apply bool_decide_eq_true.
Qed.

Lemma replace_property_result (repl : Py.dict string) (symrepl : Py.dict expr)
    (st : Node * list Warning) (p : string * option property) :
  match replace_property repl symrepl st p with
  | Py.Ok _ => is_foreign_code p.2 = false
  | Py.Raise e =>
      e = Py.UnboundLocalError "name" /\ is_foreign_code p.2 = true
  end.
Proof.
  destruct st as [node ws], p as [pname [pv|]]; [|done].
  destruct pv as [v|d|r|r|cb|d|t]; try done.
  - simpl. by destruct (Py.get d repl).
  - pose proof (replace_in_codeblock_result cb (reduced_repl node repl)
                  (Some node)) as H.
    unfold replace_property.
    destruct (replace_in_codeblock cb (reduced_repl node repl) (Some node))
      as [[[cb' node'] ws']|e]; simpl; done.
  - simpl. by destruct (String.eqb pname "symbol_mapping").
Qed.

Lemma replace_properties_result (repl : Py.dict string)
    (symrepl : Py.dict expr) (l : list (string * option property))
    (st : Node * list Warning) :
  match Py.for_each (replace_property repl symrepl) l st with
  | Py.Ok _ => Forall (fun p => is_foreign_code p.2 = false) l
  | Py.Raise e =>
      e = Py.UnboundLocalError "name"
      /\ Exists (fun p => is_foreign_code p.2 = true) l
  end.
Proof.
  revert st. induction l as [|p l IH]; intros st; [by constructor|].
  cbn [Py.for_each].
  pose proof (replace_property_result repl symrepl st p) as Hp.
  destruct (replace_property repl symrepl st p) as [st'|e]; simpl.
  - specialize (IH st').
    destruct (Py.for_each (replace_property repl symrepl) l st') as [r|e].
    + by apply Forall_cons.
    + destruct IH as [-> IH]. split; [done|]. by apply Exists_cons_tl.
  - destruct Hp as [-> Hp]. split; [done|]. by apply Exists_cons_hd.
Qed.

Lemma replace_properties_dict_result (node : Node) (repl : Py.dict string)
    (symrepl : option (Py.dict expr)) :
  match replace_properties_dict node repl symrepl with
  | Py.Ok _ => ¬ has_foreign_code node
  | Py.Raise e => e = Py.UnboundLocalError "name" /\ has_foreign_code node
  end.
Proof.
  unfold replace_properties_dict, has_foreign_code.
  pose proof (replace_properties_result repl (symrepl_or symrepl repl)
                (properties node) (node, [])) as H.
  destruct (Py.for_each _ (properties node) (node, [])) as [r|e]; [|done].
  by apply all_false_no_true.
Qed.

Lemma replace_nodes_result (repl : Py.dict string) (sr : Py.dict expr)
    (l : list Node) (acc : list Node * list Warning) :
  match
    Py.for_each
      (fun (acc : list Node * list Warning) node =>
         r ← replace_properties_dict node repl (Some sr);
         Py.Ok (acc.1 ++ [r.1], acc.2 ++ r.2))
      l acc
  with
  | Py.Ok r =>
      Forall (fun n => ¬ has_foreign_code n) l
      /\ length r.1 = length acc.1 + length l
  | Py.Raise e =>
      e = Py.UnboundLocalError "name" /\ Exists has_foreign_code l
  end.
Proof.
  revert acc. induction l as [|n l IH]; intros acc.
  - simpl. split; [by constructor|lia].
  - cbn [Py.for_each].
    pose proof (replace_properties_dict_result n repl (Some sr)) as Hn.
    destruct (replace_properties_dict n repl (Some sr)) as [r|e];
      cbn [mbind Py.result_bind].
    + specialize (IH (acc.1 ++ [r.1], acc.2 ++ r.2)).
      match type of IH with
      | match ?c with _ => _ end => destruct c as [r'|e']
      end.
      * destruct IH as [IH1 IH2]. split.
        -- by apply Forall_cons.
        -- rewrite IH2. cbn [fst]. rewrite length_app. simpl. lia.
      * destruct IH as [-> IH]. split; [done|]. by apply Exists_cons_tl.
    + destruct Hn as [-> Hn]. split; [done|]. by apply Exists_cons_hd.
Qed.

(** [replace_dict] raises exactly when a node of the subgraph has a
    property holding a non-empty code text in a language other than C++,
    and what it raises is the [UnboundLocalError] of [name]; otherwise it
    returns, with a node for every node and a memlet for every memlet. *)
Theorem replace_dict_raises_on_foreign_code (subgraph : Subgraph)
    (repl : Py.dict string) (symrepl : option (Py.dict expr)) :
  match replace_dict subgraph repl symrepl with
  | Py.Ok r =>
      Forall (fun n => ¬ has_foreign_code n) (nodes subgraph)
      /\ length (nodes r.1) = length (nodes subgraph)
      /\ length (edges r.1) = length (edges subgraph)
  | Py.Raise e =>
      e = Py.UnboundLocalError "name"
      /\ Exists has_foreign_code (nodes subgraph)
  end.
Proof.
  unfold replace_dict.
  pose proof (replace_nodes_result repl (symrepl_or symrepl repl)
                (nodes subgraph) ([], [])) as Hloop.
  match type of Hloop with
  | match ?c with _ => _ end => destruct c as [r|e]
  end; cbn [mbind Py.result_bind].
  - destruct Hloop as [H1 H2]. split_and!; [done|done|].
    cbn [fst edges]. by rewrite length_fmap.
  - done.
Qed.

(** *** Names that are no words *)

(** A mapping whose names are no words (empty, or with a character
    outside the class of [\w], as the dot in the name of a member) leaves
    a C++ body as it is: no binding is put before it, even where the body
    spells such a name out. *)
Theorem cpp_code_keeps_names_that_are_no_words (c : ascii) (s : string)
    (repl : Py.dict string) (node : option Node) :
  (forall k, k ∈ Py.keys repl -> Str.is_word k = false) ->
  replace_in_codeblock {| code := CodeStr (String c s); language := CPP |}
    repl node
  = Py.Ok ({| code := CodeStr (String c s); language := CPP |}, node, []).
Proof.
  intros Hk. unfold replace_in_codeblock. simpl.
  rewrite cpp_loop_prefix.
  assert (Hf : filter (fun p : string * string =>
                         p.1 ∈ tokenize_cpp_findall (String c s)) repl = []).
  { apply filter_none. intros [k v] Hin Htok. simpl in Htok.
    assert (Hw : Str.is_word k = true).
    { pose proof (findall_words_from_words EmptyString (String c s) eq_refl)
        as Hall.
      rewrite Forall_forall in Hall. by apply Hall. }
    rewrite Hk in Hw; [done|].
    unfold Py.keys. apply list_elem_of_fmap. by exists (k, v). }
  rewrite Hf. done.
Qed.

(** *** Connectors *)

Lemma omap_get_self {V} (repl l : list (string * V)) :
  (forall p, p ∈ l -> Py.get p.1 repl = Some p.2) ->
  omap (fun k => (fun v => (k, v)) <$> Py.get k repl) l.*1 = l.
Proof.
  induction l as [|[k v] l IH]; intros H; [done|].
  pose proof (H (k, v) ltac:(left)) as Hk. simpl in Hk.
  rewrite fmap_cons. cbn [omap list_omap fst]. rewrite Hk. simpl. f_equal.
  apply IH. intros p Hp. apply H. by right.
Qed.

Lemma filter_keys {V} (P : string -> Prop) `{!forall k, Decision (P k)}
    (d : list (string * V)) :
  filter P (Py.keys d) = Py.keys (filter (fun p => P p.1) d).
Proof.
  unfold Py.keys. induction d as [|[k v] d IH]; [done|].
  csimpl. rewrite !filter_cons. simpl.
  destruct (decide (P k)); csimpl; by rewrite IH.
Qed.

Lemma reduced_repl_connectors (node : Node) (repl : Py.dict string)
    (ins outs : list string) :
  NoDup (Py.keys repl) ->
  connectors node = Some (ins, outs) ->
  reduced_repl node repl ≡ₚ filter (fun p => p.1 ∉ ins ++ outs) repl.
Proof.
  intros Hnd Hc. unfold reduced_repl. rewrite Hc.
  rewrite (filter_keys (fun k => k ∉ ins ++ outs)).
  set (kept := filter (fun p : string * string => p.1 ∉ ins ++ outs) repl).
  assert (Hk : NoDup (Py.keys kept)).
  { unfold Py.keys in *. eapply sublist_NoDup; [exact Hnd|].
    apply fmap_sublist, sublist_filter. }
  rewrite (set_iter_perm (Py.keys kept)), (remove_dups_NoDup _ Hk).
  unfold Py.keys. rewrite omap_get_self; [done|].
  intros [k v] Hin. simpl. apply elem_of_get_NoDup; [done|].
  by apply list_elem_of_filter in Hin as [_ Hin].
Qed.

(** The code of a node with connectors gets a binding only for the names
    of the mapping that are tokens of the body and name no connector of
    the node: a name that is a connector is never shadowed, and never
    joins the ignored symbols. *)
Theorem connectors_are_not_shadowed (c : ascii) (s : string)
    (repl : Py.dict string) (n : Node) (ins outs : list string) :
  let text := String c s in
  let cb := {| code := CodeStr text; language := CPP |} in
  NoDup (Py.keys repl) ->
  connectors n = Some (ins, outs) ->
  exists active,
    active ≡ₚ filter (fun p => p.1 ∈ tokenize_cpp_findall text
                               /\ p.1 ∉ ins ++ outs) repl
    /\ replace_in_codeblock cb (reduced_repl n repl) (Some n) =
       Py.Ok
         match active with
         | [] => (cb, Some n, [])
         | _ =>
             ({| code :=
                   CodeStr (Str.concat_all (reverse (shadow_binding <$> active))
                            +:+ text);
                 language := CPP |},
              Some (if bool_decide (node_type n = Tasklet)
                    then set_ignored_symbols n
                           (ignored_symbols n ∪ list_to_set active.*1)
                    else n),
              [])
         end.
Proof.
  intros text cb Hnd Hc.
  exists (filter (fun p => p.1 ∈ tokenize_cpp_findall text) (reduced_repl n repl)).
  split.
  - rewrite (reduced_repl_connectors n repl ins outs Hnd Hc).
    rewrite list_filter_filter. done.
  - unfold replace_in_codeblock. simpl.
    rewrite cpp_loop_prefix, cpp_loop_active. simpl. fold text.
    destruct (filter _ (reduced_repl n repl)) as [|p l] eqn:Ha.
    + done.
    + rewrite shadow_prefix_nonempty by done. rewrite append_nil_r.
      destruct (bool_decide (node_type n = Tasklet)); [|done].
      unfold set_ignored_symbols. by rewrite (left_id_L ∅ (∪)).
Qed.

(** *** A mapping of every name to itself *)

Lemma subs1_self (k : string) (e : expr) : subs1 k (Symbol k) e = e.
Proof.
  induction e as [x|z|a IHa b IHb|a IHa b IHb|a IHa b IHb]; simpl;
    try by rewrite IHa, IHb.
  - by destruct (String.eqb_spec x k) as [->|].
  - done.
Qed.

Lemma subs_identity (e : expr) (m : Py.dict expr) :
  (forall p, p ∈ m -> p.2 = Symbol p.1) -> subs e m = e.
Proof.
  intros H. unfold subs, ordered.
  assert (Hs : forall p, p ∈ merge_sort key_le m -> p.2 = Symbol p.1).
  { intros p Hp. apply H. by rewrite <- (merge_sort_Permutation key_le m). }
  revert e. induction (merge_sort key_le m) as [|p l IH]; intros e; [done|].
  simpl. rewrite (Hs p) by left. rewrite subs1_self. apply IH.
  intros q Hq. apply Hs. by right.
Qed.

Lemma internal_replace_identity (v : value) (m : Py.dict expr) :
  (forall p, p ∈ m -> p.2 = Symbol p.1) -> _internal_replace v m = v.
Proof.
  intros H. destruct v as [z|e]; [done|]. simpl. f_equal.
  unfold _internal_replace_basic.
  destruct (filter _ m) as [|p l] eqn:Hf; [done|].
  rewrite <- Hf. apply subs_identity. intros q Hq.
  apply H. by apply list_elem_of_filter in Hq as [_ Hq].
Qed.

Lemma replsym_dim_identity (d : dim) (m : Py.dict expr) :
  (forall p, p ∈ m -> p.2 = Symbol p.1) -> _replsym_dim m d = d.
Proof.
  intros H. destruct d as [ds|v]; simpl; f_equal.
  - apply fmap_fixed. intros v _. by apply internal_replace_identity.
  - by apply internal_replace_identity.
Qed.

(** A mapping of names to themselves leaves every memlet of the
    subgraph as it is: name, subsets and volume. *)
Theorem replace_dict_identity_keeps_memlets (subgraph subgraph' : Subgraph)
    (repl : Py.dict string) (ws : list Warning) :
  (forall k v, (k, v) ∈ repl -> v = k) ->
  (forall k, k ∈ Py.keys repl -> pystr_to_symbolic k = Symbol k) ->
  replace_dict subgraph repl None = Py.Ok (subgraph', ws) ->
  edges subgraph' = edges subgraph.
Proof.
  intros Hid Hsym H. unfold replace_dict in H.
  destruct (Py.for_each _ (nodes subgraph) _) as [r|]; [|discriminate H].
  simpl in H. injection H as <- _. simpl.
  assert (Hm : forall p, p ∈ make_symrepl repl -> p.2 = Symbol p.1).
  { intros p Hp. unfold make_symrepl in Hp.
    apply list_elem_of_fmap in Hp as ([k v] & -> & Hin). simpl.
    rewrite (Hid k v Hin). apply Hsym.
    unfold Py.keys. apply list_elem_of_fmap. by exists (k, v). }
  apply fmap_fixed. intros [d sub osub vol] _.
  unfold replace_memlet. simpl. f_equal.
  - destruct d as [d|]; [|done]. f_equal.
    destruct (Py.get d repl) as [d'|] eqn:Hg; [|done]. simpl.
    apply get_Some_elem_of in Hg. by apply Hid.
  - unfold replace_subset. destruct sub as [rg|]; [|done].
    destruct (intersects _ _); [|done]. f_equal.
    apply fmap_fixed. intros x _. by apply replsym_dim_identity.
  - unfold replace_subset. destruct osub as [rg|]; [|done].
    destruct (intersects _ _); [|done]. f_equal.
    apply fmap_fixed. intros x _. by apply replsym_dim_identity.
  - destruct (intersects _ _); [|done].
    unfold _internal_replace_basic.
    destruct (filter _ (make_symrepl repl)) as [|p l] eqn:Hf; [done|].
    rewrite <- Hf. apply subs_identity. intros q Hq.
    apply Hm. by apply list_elem_of_filter in Hq as [_ Hq].
Qed.

End WithExternals.

Import Examples.

(** The tokens of a text with characters beyond ASCII: the letter with
    the code point 233 ([e] with an acute accent) is of the word class and
    joins [a] and [b] into one token; the multiplication sign, 215, is not
    and parts [c] from [d].  So a mapping of [a] finds no token [a] in
    that text and leaves it as it is, and a mapping of [c] finds [c]. *)
Lemma tokenize_cpp_beyond_ascii :
  let text := "a" +:+ String (ascii_of_nat 233) "b = c"
              +:+ String (ascii_of_nat 215) "d;" in
  tokenize_cpp_findall text
  = ["a" +:+ String (ascii_of_nat 233) "b"; "c"; "d"]
  /\ replace_in_codeblock {| code := CodeStr text; language := CPP |}
       [("a", "z")] None
     = Py.Ok ({| code := CodeStr text; language := CPP |}, None, [])
  /\ replace_in_codeblock {| code := CodeStr text; language := CPP |}
       [("c", "z")] None
     = Py.Ok ({| code := CodeStr ("auto c = z;" +:+ String "010" text);
                 language := CPP |}, None, []).
Proof. split_and!; by vm_compute. Qed.

Lemma cpp_code_keeps_names_that_are_no_words_witness :
  (forall k, k ∈ Py.keys [("A.x", "B.x")] -> Str.is_word k = false)
  /\ replace_in_codeblock
       {| code := CodeStr "y = A.x;"; language := CPP |}
       [("A.x", "B.x")] None
     = Py.Ok ({| code := CodeStr "y = A.x;"; language := CPP |}, None, []).
Proof.
  assert (H : forall k, k ∈ Py.keys [("A.x", "B.x")] -> Str.is_word k = false).
  { intros k Hk. apply list_elem_of_singleton in Hk as ->. reflexivity. }
  split; [exact H|].
  exact (cpp_code_keeps_names_that_are_no_words _ _ _ None H).
Defined.

Lemma connectors_are_not_shadowed_witness :
  NoDup (Py.keys [("out", "res"); ("n", "m")])
  /\ connectors cpp_tasklet = Some ([], ["out"])
  /\ exists active,
       active ≡ₚ [("n", "m")]
       /\ replace_in_codeblock cpp_code
            (reduced_repl cpp_tasklet [("out", "res"); ("n", "m")])
            (Some cpp_tasklet)
          = Py.Ok
              match active with
              | [] => (cpp_code, Some cpp_tasklet, [])
              | _ =>
                  ({| code :=
                        CodeStr
                          (Str.concat_all (reverse (shadow_binding <$> active))
                           +:+ "out = n + 1;");
                      language := CPP |},
                   Some (if bool_decide (node_type cpp_tasklet = Tasklet)
                         then set_ignored_symbols cpp_tasklet
                                (ignored_symbols cpp_tasklet
                                 ∪ list_to_set active.*1)
                         else cpp_tasklet),
                   [])
              end.
Proof.
  assert (Hnd : NoDup (Py.keys [("out", "res"); ("n", "m")]))
    by (apply (bool_decide_unpack _); by vm_compute).
  split; [exact Hnd|]. split; [reflexivity|].
  destruct (connectors_are_not_shadowed "o" "ut = n + 1;"
              [("out", "res"); ("n", "m")] cpp_tasklet [] ["out"] Hnd eq_refl)
    as (active & Hp & Hr).
  exists active. split; [|exact Hr].
  rewrite Hp. apply (bool_decide_unpack _). by vm_compute.
Defined.

Lemma replace_dict_identity_keeps_memlets_witness :
  (forall k v, (k, v) ∈ [("n", "n")] -> v = k)
  /\ (forall k, k ∈ Py.keys [("n", "n")] -> pystr_to_symbolic k = Symbol k)
  /\ exists g' ws,
       replace_dict memlet_graph [("n", "n")] None = Py.Ok (g', ws)
       /\ edges g' = edges memlet_graph.
Proof.
  assert (H1 : forall k v : string, (k, v) ∈ [("n", "n")] -> v = k).
  { intros k v Hin. apply list_elem_of_singleton in Hin. by injection Hin as -> ->. }
  assert (H2 : forall k, k ∈ Py.keys [("n", "n")] ->
                         pystr_to_symbolic k = Symbol k) by done.
  split; [exact H1|]. split; [exact H2|].
  eexists _, _. split; [by vm_compute|].
  eapply (replace_dict_identity_keeps_memlets memlet_graph _ [("n", "n")] _ H1 H2).
  by vm_compute.
Defined.

End ReplaceMore.

(** ** More on [replace_datadesc_names] *)

Module DatadescMore.
Import Symbolic Dtypes Replace ReplaceFacts DatadescFacts.

Lemma key_of_pair {V} (d : list (string * V)) k v : (k, v) ∈ d -> k ∈ Py.keys d.
Proof. intros H. unfold Py.keys. apply list_elem_of_fmap. by exists (k, v). Qed.

Lemma get_of_key {V} (d : list (string * V)) k :
  k ∈ Py.keys d -> exists v, Py.get k d = Some v.
Proof.
  intros Hk. destruct (Py.get k d) as [v|] eqn:Hg; [eauto|].
  by apply get_None_not_key in Hg.
Qed.

Lemma length_del {V} (d : list (string * V)) k :
  k ∈ Py.keys d -> S (length (Py.del k d)) = length d.
Proof.
  unfold Py.keys. induction d as [|[k' v'] d IH]; csimpl; intros Hk.
  - by apply elem_of_nil in Hk.
  - destruct (String.eqb_spec k k') as [->|Hne]; [done|]. simpl. f_equal.
    apply IH. apply elem_of_cons in Hk as [?|?]; done.
Qed.

Lemma length_set {V} (d : list (string * V)) k v :
  length (Py.set k v d) <= S (length d).
Proof.
  induction d as [|[k' v'] d IH]; simpl; [lia|].
  destruct (String.eqb k k'); simpl; lia.
Qed.

Section WithExternals.
Context `{Ext : Externals}.

(** One turn of the loop on an entry that is renamed and still in the
    table. *)
Lemma rename_descriptor_step (repl : Py.dict string)
    (cur : Py.dict Data) (consts : Py.dict Z) (a n : string) (v : Data) :
  Py.get a repl = Some n ->
  a ∈ Py.keys cur ->
  exists consts',
    rename_descriptor repl (cur, consts) (a, v)
    = Py.Ok (Py.set n v (Py.del a cur), consts').
Proof.
  intros Hn Ha. unfold rename_descriptor. rewrite Hn.
  unfold Py.pop. rewrite (proj2 (mem_true_key cur a) Ha).
  cbn [mbind Py.result_bind].
  destruct (Py.get a consts) as [c|] eqn:Hc; [|eauto].
  assert (Hm : Py.mem a (Py.set n c consts) = true).
  { unfold Py.mem. destruct (decide (n = a)) as [->|Hne].
    - by rewrite get_set_eq.
    - by rewrite get_set_ne, Hc. }
  rewrite Hm. cbn [mbind Py.result_bind]. eauto.
Qed.

Lemma rename_descriptor_skip (repl : Py.dict string)
    (tables : Py.dict Data * Py.dict Z) (a : string) (v : Data) :
  Py.get a repl = None -> rename_descriptor repl tables (a, v) = Py.Ok tables.
Proof. intros Hn. destruct tables. unfold rename_descriptor. by rewrite Hn. Qed.

(** *** The call returns *)

Lemma rename_loop_returns (repl : Py.dict string) (R cur : Py.dict Data)
    (consts : Py.dict Z) :
  NoDup (Py.keys R) ->
  (forall k, k ∈ Py.keys R -> k ∈ Py.keys cur) ->
  exists cur' consts',
    Py.for_each (rename_descriptor repl) R (cur, consts) = Py.Ok (cur', consts')
    /\ length cur' <= length cur.
Proof.
  revert cur consts. induction R as [|[a v] R IH]; intros cur consts Hnd Hin.
  - exists cur, consts. split; [done|lia].
  - apply NoDup_cons in Hnd as [Ha Hnd]. cbn [Py.for_each].
    destruct (Py.get a repl) as [n|] eqn:Hn.
    + assert (Hacur : a ∈ Py.keys cur) by (apply Hin; left).
      destruct (rename_descriptor_step repl cur consts a n v Hn Hacur)
        as (consts1 & ->).
      cbn [mbind Py.result_bind].
      destruct (IH (Py.set n v (Py.del a cur)) consts1 Hnd)
        as (cur' & consts' & Hrun & Hlen).
      * intros k Hk.
        assert (Hka : a ≠ k) by (intros ->; done).
        destruct (get_of_key cur k) as [d Hd]; [apply Hin; by right|].
        rewrite keys_set.
        assert (Hdel : k ∈ Py.keys (Py.del a cur)).
        { destruct (decide (k ∈ Py.keys (Py.del a cur))) as [|Hno]; [done|].
          apply get_None_not_key in Hno. rewrite get_del_ne in Hno by done.
          congruence. }
        destruct (Py.mem n (Py.del a cur)); [done|].
        apply elem_of_app. by left.
      * exists cur', consts'. split; [done|].
        pose proof (length_set (Py.del a cur) n v).
        pose proof (length_del cur a Hacur). lia.
    + rewrite (rename_descriptor_skip repl _ a v Hn). cbn [mbind Py.result_bind].
      apply IH; [done|]. intros k Hk. apply Hin. by right.
Qed.

(** With the keys of the descriptor table distinct, the call returns for
    every mapping, also one that swaps two names or sends two names to
    one: no entry is looked up after it has gone; and the descriptor table
    does not grow. *)
Theorem replace_datadesc_names_returns (sdfg : SDFG) (repl : Py.dict string) :
  NoDup (Py.keys (arrays sdfg)) ->
  exists sdfg',
    replace_datadesc_names sdfg repl = Py.Ok sdfg'
    /\ length (arrays sdfg') <= length (arrays sdfg).
Proof.
  intros Hnd. unfold replace_datadesc_names.
  destruct (rename_loop_returns repl (arrays sdfg) (arrays sdfg)
              (constants_prop sdfg) Hnd ltac:(done))
    as (cur' & consts' & -> & Hlen).
  cbn [mbind Py.result_bind]. eexists. split; [reflexivity|done].
Qed.

(** *** New names that are not taken *)

Lemma rename_loop_fresh (repl : Py.dict string) (R cur : Py.dict Data)
    (consts : Py.dict Z) :
  NoDup (Py.keys cur) ->
  NoDup (Py.keys R) ->
  (forall k d, (k, d) ∈ R -> Py.get k cur = Some d) ->
  (forall k n, Py.get k repl = Some n -> n ∉ Py.keys R) ->
  (forall k k' n, k ∈ Py.keys R -> k' ∈ Py.keys R ->
     Py.get k repl = Some n -> Py.get k' repl = Some n -> k = k') ->
  exists cur' consts',
    Py.for_each (rename_descriptor repl) R (cur, consts) = Py.Ok (cur', consts')
    /\ NoDup (Py.keys cur')
    /\ (forall k d, (k, d) ∈ R -> Py.get (renamed repl k) cur' = Some d)
    /\ (forall k, k ∈ Py.keys R -> k ∈ Py.keys repl -> Py.get k cur' = None)
    /\ (forall x, x ∉ Py.keys R ->
        (forall k, k ∈ Py.keys R -> Py.get k repl ≠ Some x) ->
        Py.get x cur' = Py.get x cur).
Proof.
  revert cur consts.
  induction R as [|[a v] R IH]; intros cur consts Hcur Hnd Hget Hfresh Hinj.
  - exists cur, consts. split_and!; [done|done| | |done].
    + intros k d H. by apply elem_of_nil in H.
    + intros k H. by apply elem_of_nil in H.
  - apply NoDup_cons in Hnd as [Ha Hnd]. cbn [Py.for_each].
    assert (HfreshR : forall k n, Py.get k repl = Some n -> n ∉ Py.keys R).
    { intros k n Hk Hin. apply (Hfresh k n Hk). by right. }
    assert (HinjR : forall k k' n, k ∈ Py.keys R -> k' ∈ Py.keys R ->
              Py.get k repl = Some n -> Py.get k' repl = Some n -> k = k').
    { intros k k' n Hk Hk'. apply Hinj; by right. }
    assert (Hnotarget : forall k, k ∈ Py.keys R -> Py.get k repl ≠ Some a).
    { intros k _ Hk. apply (Hfresh k a Hk). left. }
    destruct (Py.get a repl) as [n|] eqn:Hn.
    + assert (Hacur : a ∈ Py.keys cur).
      { apply key_of_pair with v, get_Some_elem_of, Hget. left. }
      assert (Han : n ≠ a).
      { intros ->. apply (Hfresh a a Hn). left. }
      assert (HnR : n ∉ Py.keys R) by by eapply HfreshR.
      destruct (rename_descriptor_step repl cur consts a n v Hn Hacur)
        as (consts1 & ->).
      cbn [mbind Py.result_bind].
      destruct (IH (Py.set n v (Py.del a cur)) consts1)
        as (cur' & consts' & Hrun & Hnd' & Hnew & Hold & Hframe);
        [by apply NoDup_keys_set, NoDup_keys_del|done| |done|done|].
      { intros k d Hk.
        assert (Hk' : k ∈ Py.keys R) by by eapply key_of_pair.
        rewrite get_set_ne by (intros ->; done).
        rewrite get_del_ne by (intros ->; done).
        apply Hget. by right. }
      exists cur', consts'. split_and!; [done|done| | |].
      * intros k d Hk. apply elem_of_cons in Hk as [[= -> ->]|Hk]; [|by apply Hnew].
        unfold renamed. rewrite Hn. simpl.
        rewrite Hframe; [apply get_set_eq|done|].
        intros k Hk Hkn. apply Ha. by rewrite <- (Hinj k a n); [|right|left|..].
      * intros k Hk Hkr. apply elem_of_cons in Hk as [->|Hk]; [|by apply Hold].
        rewrite Hframe by done.
        rewrite get_set_ne by done. by apply get_del_eq.
      * intros x Hx Htarget.
        assert (Hxa : x ≠ a) by (intros ->; apply Hx; left).
        assert (Hxn : x ≠ n).
        { intros ->. apply (Htarget a); [left|done]. }
        rewrite Hframe.
        -- rewrite get_set_ne by done. by rewrite get_del_ne.
        -- intros Hin. apply Hx. by right.
        -- intros k Hk. apply Htarget. by right.
    + rewrite (rename_descriptor_skip repl _ a v Hn). cbn [mbind Py.result_bind].
      destruct (IH cur consts)
        as (cur' & consts' & Hrun & Hnd' & Hnew & Hold & Hframe);
        [done|done| |done|done|].
      { intros k d Hk. apply Hget. by right. }
      exists cur', consts'. split_and!; [done|done| | |].
      * intros k d Hk. apply elem_of_cons in Hk as [[= -> ->]|Hk]; [|by apply Hnew].
        unfold renamed. rewrite Hn. simpl.
        rewrite Hframe by done. apply Hget. left.
      * intros k Hk Hkr. apply elem_of_cons in Hk as [->|Hk]; [|by apply Hold].
        by apply get_None_not_key in Hn.
      * intros x Hx Htarget. apply Hframe.
        -- intros Hin. apply Hx. by right.
        -- intros k Hk. apply Htarget. by right.
Qed.

(** A mapping with several pairs whose new names are not taken and
    differ from each other renames the descriptors as one step: every
    descriptor is found under its new name (its own, when the mapping does
    not hold it), no renamed descriptor stays under the old one, the keys
    stay distinct, and every data reference of the states goes through the
    same renaming. *)
Theorem replace_datadesc_names_fresh (sdfg : SDFG) (repl : Py.dict string) :
  NoDup (Py.keys (arrays sdfg)) ->
  (forall k n, Py.get k repl = Some n -> n ∉ Py.keys (arrays sdfg)) ->
  (forall k k' n, Py.get k repl = Some n -> Py.get k' repl = Some n -> k = k') ->
  exists sdfg',
    replace_datadesc_names sdfg repl = Py.Ok sdfg'
    /\ NoDup (Py.keys (arrays sdfg'))
    /\ (forall k d, Py.get k (arrays sdfg) = Some d ->
        Py.get (renamed repl k) (arrays sdfg') = Some d)
    /\ (forall k, k ∈ Py.keys (arrays sdfg) -> k ∈ Py.keys repl ->
        Py.get k (arrays sdfg') = None)
    /\ sdfg_data_refs sdfg' = replace_data_name repl <$> sdfg_data_refs sdfg.
Proof.
  intros Hnd Hfresh Hinj. unfold replace_datadesc_names.
  destruct (rename_loop_fresh repl (arrays sdfg) (arrays sdfg)
              (constants_prop sdfg) Hnd Hnd)
    as (cur' & consts' & -> & Hnd' & Hnew & Hold & _).
  - intros k d Hk. by apply elem_of_get_NoDup.
  - done.
  - intros k k' n _ _. apply Hinj.
  - cbn [mbind Py.result_bind]. eexists. split; [reflexivity|]. simpl.
    split_and!; [done| |done|].
    + intros k d Hk. apply Hnew. by apply get_Some_elem_of.
    + unfold sdfg_data_refs. simpl. apply blocks_data_refs_replaced.
      apply Forall_forall. intros b _. apply block_data_refs_replaced.
Qed.

(** *** A descriptor renamed to its own name *)

Lemma replace_data_name_self (x d : string) : replace_data_name [(x, x)] d = d.
Proof.
  unfold replace_data_name. simpl.
  destruct (String.eqb_spec d x) as [->|Hne]; [done|].
  destruct (Str.contains "." d) eqn:Hdot; [|done].
  pose proof (join_split d) as Hjs.
  destruct (Str.split "." d) as [|part0 parts] eqn:Hs; [done|].
  destruct (String.eqb_spec part0 x) as [->|Hp]; [|done].
  destruct parts as [|p ps].
  - simpl in Hjs. congruence.
  - by rewrite join_cons_cons in Hjs.
Qed.

(** The pair of a name with itself is not skipped: the descriptor keeps
    its name and its content (it moves to the end of the table), every
    data reference stays, but the constant of that name is deleted, since
    it is stored under the new name first and the old name is deleted
    after. *)
Theorem replace_datadesc_names_own_name (sdfg : SDFG) (x : string) :
  NoDup (Py.keys (arrays sdfg)) ->
  NoDup (Py.keys (constants_prop sdfg)) ->
  x ∈ Py.keys (arrays sdfg) ->
  exists sdfg',
    replace_datadesc_names sdfg [(x, x)] = Py.Ok sdfg'
    /\ (forall k, Py.get k (arrays sdfg') = Py.get k (arrays sdfg))
    /\ Py.get x (constants_prop sdfg') = None
    /\ (forall k, k ≠ x ->
        Py.get k (constants_prop sdfg') = Py.get k (constants_prop sdfg))
    /\ sdfg_data_refs sdfg' = sdfg_data_refs sdfg.
Proof.
  intros Hnd Hndc Hx.
  destruct (get_of_key _ _ Hx) as [desc Hget].
  destruct (list_elem_of_split _ _ (get_Some_elem_of _ _ _ Hget))
    as (l1 & l2 & Hsplit).
  assert (Hkeys : (x ∉ Py.keys l1) /\ (x ∉ Py.keys l2)).
  { unfold Py.keys in *. rewrite Hsplit, fmap_app, fmap_cons in Hnd.
    simpl in Hnd. apply NoDup_app in Hnd as (_ & H1 & H2).
    apply NoDup_cons in H2 as [H2 _].
    split; [|done]. intros Hin. apply (H1 x Hin). left. }
  destruct Hkeys as [Hl1 Hl2].
  pose (constants' :=
          match Py.get x (constants_prop sdfg) with
          | Some c => Py.del x (Py.set x c (constants_prop sdfg))
          | None => constants_prop sdfg
          end).
  assert (Hloop :
    Py.for_each (rename_descriptor [(x, x)]) (arrays sdfg)
      (arrays sdfg, constants_prop sdfg)
    = Py.Ok (Py.set x desc (Py.del x (arrays sdfg)), constants')).
  { rewrite Hsplit at 1. rewrite for_each_app.
    rewrite for_each_unchanged; cycle 1.
    { intros [k v] Hk. apply rename_descriptor_other. simpl. intros ->.
      apply Hl1. by eapply key_of_pair. }
    simpl. rewrite String.eqb_refl. unfold Py.pop, Py.mem. rewrite Hget. simpl.
    unfold constants'.
    destruct (Py.get x (constants_prop sdfg)) as [c|] eqn:Hc; simpl.
    - rewrite get_set_eq. simpl.
      apply for_each_unchanged. intros [k v] Hk. apply rename_descriptor_other.
      simpl. intros ->. apply Hl2. by eapply key_of_pair.
    - apply for_each_unchanged. intros [k v] Hk. apply rename_descriptor_other.
      simpl. intros ->. apply Hl2. by eapply key_of_pair. }
  eexists. unfold replace_datadesc_names. rewrite Hloop. simpl.
  split; [reflexivity|]. simpl. split_and!.
  - intros k. destruct (decide (k = x)) as [->|Hk].
    + by rewrite get_set_eq.
    + by rewrite get_set_ne, get_del_ne.
  - unfold constants'.
    destruct (Py.get x (constants_prop sdfg)) as [c|] eqn:Hc; [|done].
    by apply get_del_eq, NoDup_keys_set.
  - intros k Hk. unfold constants'.
    destruct (Py.get x (constants_prop sdfg)) as [c|] eqn:Hc; [|done].
    by rewrite get_del_ne, get_set_ne.
  - unfold sdfg_data_refs. simpl.
    rewrite blocks_data_refs_replaced
      by (apply Forall_forall; intros b _; apply block_data_refs_replaced).
    apply ReplaceMore.fmap_fixed. intros d _. apply replace_data_name_self.
Qed.

End WithExternals.

Import Examples.

(** The first theorem on a mapping that swaps the two descriptors. *)
Lemma replace_datadesc_names_returns_witness :
  NoDup (Py.keys (arrays two_arrays))
  /\ exists sdfg',
       replace_datadesc_names two_arrays [("x", "y"); ("y", "x")] = Py.Ok sdfg'
       /\ length (arrays sdfg') <= length (arrays two_arrays).
Proof.
  assert (Hnd : NoDup (Py.keys (arrays two_arrays)))
    by (apply (bool_decide_unpack _); by vm_compute).
  split; [exact Hnd|].
  exact (replace_datadesc_names_returns two_arrays [("x", "y"); ("y", "x")] Hnd).
Defined.

(** The second theorem on a mapping that renames both descriptors. *)
Lemma replace_datadesc_names_fresh_witness :
  NoDup (Py.keys (arrays two_arrays))
  /\ exists sdfg',
       replace_datadesc_names two_arrays [("x", "u"); ("y", "v")] = Py.Ok sdfg'
       /\ Py.get "u" (arrays sdfg') = Some array_desc
       /\ Py.get "v" (arrays sdfg') = Some index_desc.
Proof.
  assert (Hnd : NoDup (Py.keys (arrays two_arrays)))
    by (apply (bool_decide_unpack _); by vm_compute).
  split; [exact Hnd|].
  destruct (replace_datadesc_names_fresh two_arrays [("x", "u"); ("y", "v")] Hnd)
    as (sdfg' & Hrun & _ & Hnew & _).
  - intros k n Hk Hin. simpl in Hk.
    destruct (String.eqb k "x"); [injection Hk as <-|].
    + revert Hin. apply (bool_decide_unpack _). by vm_compute.
    + destruct (String.eqb k "y"); [injection Hk as <-|done].
      revert Hin. apply (bool_decide_unpack _). by vm_compute.
  - intros k k' n Hk Hk'. simpl in Hk, Hk'.
    destruct (String.eqb_spec k "x") as [->|?];
      destruct (String.eqb_spec k' "x") as [->|?]; try done.
    + injection Hk as <-. by destruct (String.eqb_spec k' "y").
    + injection Hk' as <-. by destruct (String.eqb_spec k "y").
    + destruct (String.eqb_spec k "y") as [->|?]; [|done].
      by destruct (String.eqb_spec k' "y") as [->|?].
  - exists sdfg'. split; [exact Hrun|]. split.
    + exact (Hnew "x" array_desc eq_refl).
    + exact (Hnew "y" index_desc eq_refl).
Defined.

Lemma replace_datadesc_names_own_name_witness :
  NoDup (Py.keys (arrays two_arrays_with_constant))
  /\ NoDup (Py.keys (constants_prop two_arrays_with_constant))
  /\ "x" ∈ Py.keys (arrays two_arrays_with_constant)
  /\ Py.get "x" (constants_prop two_arrays_with_constant) = Some 4%Z
  /\ exists sdfg',
       replace_datadesc_names two_arrays_with_constant [("x", "x")]
       = Py.Ok sdfg'
       /\ Py.get "x" (constants_prop sdfg') = None.
Proof.
  assert (Hnd : NoDup (Py.keys (arrays two_arrays_with_constant)))
    by (apply (bool_decide_unpack _); by vm_compute).
  assert (Hndc : NoDup (Py.keys (constants_prop two_arrays_with_constant)))
    by (apply (bool_decide_unpack _); by vm_compute).
  assert (Hx : "x" ∈ Py.keys (arrays two_arrays_with_constant))
    by (apply (bool_decide_unpack _); by vm_compute).
  split; [exact Hnd|]. split; [exact Hndc|]. split; [exact Hx|].
  split; [reflexivity|].
  destruct (replace_datadesc_names_own_name two_arrays_with_constant "x"
              Hnd Hndc Hx)
    as (sdfg' & Hrun & _ & Hc & _).
  exists sdfg'. by split.
Defined.

End DatadescMore.

(** ** More on step 5 of the device offload *)

Module ScanMore.
Import Symbolic Dtypes GPUTransformSDFG ScanFacts.

Section WithExternals.
Context `{Ext : Externals}.

(** *** Only scalars are marked *)

(** Every name the loop over the free tasklets marks is the name of a
    scalar of the descriptor table: an array of one element at the far
    end of a path is looked through, its name is not marked. *)
Theorem scalar_fixpoint_marks_scalars_only (sdfg : SDFG) (fuel : nat)
    (s : Scan) :
  scalar_fixpoint fuel sdfg (initial_scan sdfg) = Some (Py.Ok s) ->
  scalars_only sdfg (gpu_scalars s).
Proof.
  assert (Hgen : forall s0, scalars_only sdfg (gpu_scalars s0) ->
            scalar_fixpoint fuel sdfg s0 = Some (Py.Ok s) ->
            scalars_only sdfg (gpu_scalars s)).
  { induction fuel as [|fuel IH]; intros s0 Hs0 H; [discriminate H|].
    cbn [scalar_fixpoint] in H.
    destruct (scan_states sdfg s0) as [s1|e] eqn:Hscan; [|discriminate H].
    pose proof (scan_states_scalars sdfg s0 s1 Hs0 Hscan) as Hs1.
    destruct (changed s1); [by apply (IH s1)|].
    by injection H as <-. }
  apply Hgen. apply scalars_only_empty.
Qed.

(** *** A tasklet next to an array is claimed *)

Lemma check_far_end_false (sdfg : SDFG) (gs : gset string)
    (last_edge : Edge) (far : Node)
    (recurse : Node -> Py.result (gset string * bool))
    (acc r : gset string * bool) :
  check_far_end sdfg gs last_edge far recurse acc = Py.Ok r ->
  (acc.2 = false -> r.2 = false)
  /\ (far_array sdfg last_edge far -> r.2 = false).
Proof.
  intros H. destruct acc as [scalset scalout].
  unfold check_far_end, far_array in *.
  destruct (kind far) as [d| | | | |] eqn:Hk;
    try (injection H as <-; split; [done|];
         intros (d' & desc' & Hk' & _); discriminate Hk').
  destruct (Py.get d (arrays sdfg)) as [desc|] eqn:Hd; [|discriminate H].
  case_bool_decide as Hsc.
  { destruct (recurse far) as [rr|]; [|discriminate H].
    injection H as <-. cbn [snd]. split.
    - intros ->. by destruct (bool_decide _).
    - intros (d' & desc' & Hk' & Hd' & Hns & _).
      injection Hk' as <-. congruence. }
  case_bool_decide as Hsh.
  { destruct (recurse far) as [rr|]; [|discriminate H].
    by injection H as <-. }
  case_bool_decide as Hone.
  { destruct (recurse far) as [rr|]; [|discriminate H].
    injection H as <-. cbn [snd]. split.
    - by intros ->.
    - intros (d' & desc' & Hk' & Hd' & _ & _ & Hno).
      injection Hk' as <-. rewrite Hd in Hd'. injection Hd' as <-. done. }
  by injection H as <-.
Qed.

Lemma checks_false_at_array {A} (sdfg : SDFG) (gs : gset string)
    (pick : A -> option Edge) (far : Edge -> Node)
    (recurse : Node -> Py.result (gset string * bool))
    (l : list A) (r : gset string * bool) (a : A) (le : Edge) :
  Py.for_each
    (fun acc x =>
       match pick x with
       | None => Py.Raise Py.IndexError
       | Some last_edge =>
           check_far_end sdfg gs last_edge (far last_edge) recurse acc
       end)
    l (∅, true) = Py.Ok r ->
  a ∈ l -> pick a = Some le -> far_array sdfg le (far le) ->
  r.2 = false.
Proof.
  intros H Ha Hpick Hfar.
  set (R := fun acc acc' : gset string * bool => acc.2 = false -> acc'.2 = false).
  assert (Hrefl : Reflexive R) by (intros x; unfold R; auto).
  assert (Htrans : Transitive R) by (intros x y z; unfold R; auto).
  eapply (for_each_visits _ R) in H as (s1 & s2 & _ & Hstep & Hrest);
    [| |exact Ha].
  - cbv beta in Hstep. rewrite Hpick in Hstep.
    apply Hrest. exact (proj2 (check_far_end_false _ _ _ _ _ _ _ Hstep) Hfar).
  - intros acc x acc' Hx. cbv beta in Hx.
    destruct (pick x) as [e|]; [|discriminate Hx].
    exact (proj1 (check_far_end_false _ _ _ _ _ _ _ Hx)).
Qed.

(** A free tasklet not yet claimed, one of whose paths ends at an array
    that is no scalar, has not the shape of one element and is not
    accessed at one element on the host, is claimed by the turn that
    looks at it, whether the array is read or written and wherever it is
    stored. *)
Theorem tasklet_next_to_array_is_claimed (sdfg : SDFG) (i : nat)
    (state : SDFGState) (s s' : Scan) (node : Node) (label : string) :
  kind node = Tasklet label ->
  node ∉ default [] (global_code_nodes s !! i) ->
  is_free sdfg state node = true ->
  (exists e le, e ∈ out_edges state node
                /\ last (memlet_path state e) = Some le
                /\ far_array sdfg le (dst le))
  \/ (exists e le, e ∈ in_edges state node
                   /\ head (memlet_path state e) = Some le
                   /\ far_array sdfg le (src le)) ->
  visit_node sdfg i state s node = Py.Ok s' ->
  global_code_nodes s' =
  <[i := default [] (global_code_nodes s !! i) ++ [node]]> (global_code_nodes s)
  /\ changed s' = true
  /\ gpu_scalars s ⊆ gpu_scalars s'.
Proof.
  intros Hkind Hnew Hfree Hfar H. unfold visit_node in H.
  rewrite Hkind, Hfree in H. rewrite bool_decide_false in H by done.
  destruct (_recursive_out_check _ _ _ _ _) as [o|] eqn:Ho; [|discriminate H].
  destruct (_recursive_in_check _ _ _ _ _) as [i'|] eqn:Hi; [|discriminate H].
  cbn [mbind Py.result_bind] in H.
  assert (Hfalse : o.2 && i'.2 = false).
  { destruct Hfar as [(e & le & He & Hle & Hf)|(e & le & He & Hle & Hf)].
    - destruct recursion_limit as [|depth]; [discriminate Ho|].
      cbn [_recursive_out_check] in Ho.
      by rewrite (checks_false_at_array sdfg _ (fun e => last (memlet_path state e))
                    dst _ _ _ e le Ho He Hle Hf).
    - destruct recursion_limit as [|depth]; [discriminate Hi|].
      cbn [_recursive_in_check] in Hi.
      rewrite (checks_false_at_array sdfg _ (fun e => head (memlet_path state e))
                 src _ _ _ e le Hi He Hle Hf).
      apply andb_false_r. }
  rewrite Hfalse in H. simpl in H. injection H as <-.
  cbn [global_code_nodes changed gpu_scalars]. split_and!; [done|done|].
  set_solver.
Qed.

(** *** The turn that ends the loop *)

#[local] Instance quiet_refl : Reflexive quiet.
Proof. intros s. by split. Qed.

#[local] Instance quiet_trans : Transitive quiet.
Proof.
  intros s1 s2 s3 [H1 H2] [H1' H2']. split; [auto|].
  intros Hc. destruct (changed s2) eqn:Hc2.
  - rewrite H1' in Hc by done. discriminate Hc.
  - destruct (H2' Hc) as [-> ->]. by apply H2.
Qed.

Lemma visit_node_quiet (sdfg : SDFG) (i : nat) (state : SDFGState)
    (s s' : Scan) (node : Node) :
  visit_node sdfg i state s node = Py.Ok s' -> quiet s s'.
Proof.
  intros H. unfold visit_node in H.
  destruct (kind node); try (injection H as <-; reflexivity).
  - case_bool_decide; [injection H as <-; reflexivity|].
    destruct (is_free sdfg state node); [|injection H as <-; reflexivity].
    destruct (_recursive_out_check _ _ _ _ _) as [o|]; [|discriminate H].
    destruct (_recursive_in_check _ _ _ _ _) as [i'|]; [|discriminate H].
    cbn [mbind Py.result_bind] in H.
    destruct (negb _ || _); injection H as <-; [|reflexivity].
    split; [done|]. cbn [changed]. discriminate.
  - destruct (is_free sdfg state node); injection H as <-; [|reflexivity].
    by split.
Qed.

(** A turn that leaves [changed] unset claimed no tasklet and marked no
    scalar. *)
Lemma scan_states_quiet (sdfg : SDFG) (s s' : Scan) :
  scan_states sdfg s = Py.Ok s' ->
  changed s' = false ->
  global_code_nodes s' = global_code_nodes s /\ gpu_scalars s' = gpu_scalars s.
Proof.
  intros H Hc. unfold scan_states in H.
  apply (for_each_keeps _ (fun _ => True) quiet) in H as [_ [_ Hq]]; [| |done].
  - by apply Hq.
  - intros s1 ist s2 _ _ Hstate. split; [done|].
    apply (for_each_keeps _ (fun _ => True) quiet) in Hstate as [_ Hq]; [done| |done].
    intros s3 node s4 _ _ Hv. split; [done|]. by eapply visit_node_quiet.
Qed.

Lemma for_each_sim {A S} (body : S -> A -> Py.result S) (R : S -> S -> Prop)
    (l : list A) (s1 s2 s1' : S) :
  (forall s1 s2 a s1', R s1 s2 -> body s1 a = Py.Ok s1' ->
     exists s2', body s2 a = Py.Ok s2' /\ R s1' s2') ->
  R s1 s2 -> Py.for_each body l s1 = Py.Ok s1' ->
  exists s2', Py.for_each body l s2 = Py.Ok s2' /\ R s1' s2'.
Proof.
  intros Hbody. revert s1 s2. induction l as [|a l IH]; intros s1 s2 HR H.
  - simpl in H. injection H as <-. by exists s2.
  - cbn [Py.for_each] in *.
    destruct (body s1 a) as [t1|] eqn:Hb; [|discriminate H].
    destruct (Hbody s1 s2 a t1 HR Hb) as (t2 & -> & HR').
    by apply (IH t1 t2).
Qed.

Lemma visit_node_sim (sdfg : SDFG) (i : nat) (state : SDFGState)
    (s1 s2 s1' : Scan) (node : Node) :
  same_claims s1 s2 ->
  visit_node sdfg i state s1 node = Py.Ok s1' ->
  exists s2', visit_node sdfg i state s2 node = Py.Ok s2' /\ same_claims s1' s2'.
Proof.
  intros (Hg & Hs & Hc) H. unfold visit_node in *. rewrite Hg, Hs.
  destruct (kind node); try (injection H as <-; by eexists).
  - case_bool_decide; [injection H as <-; by eexists|].
    destruct (is_free sdfg state node); [|injection H as <-; by eexists].
    destruct (_recursive_out_check _ _ _ _ _) as [o|]; [|discriminate H].
    destruct (_recursive_in_check _ _ _ _ _) as [i'|]; [|discriminate H].
    cbn [mbind Py.result_bind] in *.
    destruct (negb _ || _); injection H as <-; by eexists.
  - destruct (is_free sdfg state node); injection H as <-; by eexists.
Qed.

(** The loop stops at a fixed point: the turn that ends it claimed no
    tasklet and marked no scalar, and one more turn on what it leaves
    would return and claim and mark nothing either. *)
Theorem scalar_fixpoint_result_is_stable (sdfg : SDFG) (fuel : nat)
    (s0 s : Scan) :
  scalar_fixpoint fuel sdfg s0 = Some (Py.Ok s) ->
  changed s = false
  /\ exists s', scan_states sdfg s = Py.Ok s' /\ same_claims s s'.
Proof.
  revert s0. induction fuel as [|fuel IH]; intros s0 H; [discriminate H|].
  cbn [scalar_fixpoint] in H.
  destruct (scan_states sdfg s0) as [s1|e] eqn:Hscan; [|discriminate H].
  destruct (changed s1) eqn:Hch; [by apply (IH s1)|].
  injection H as <-. split; [done|].
  destruct (scan_states_quiet sdfg s0 s1 Hscan Hch) as [Hg Hs].
  unfold scan_states in *.
  eapply (for_each_sim _ same_claims) in Hscan as (s2 & Hrun & Hsame).
  - exists s2. split; [exact Hrun|]. exact Hsame.
  - intros t1 t2 ist t1' Ht Hstate.
    eapply (for_each_sim _ same_claims); [|exact Ht|exact Hstate].
    intros u1 u2 node u1'. apply visit_node_sim.
  - by split_and!.
Qed.

(** *** Nested graphs are recorded at every turn *)

Lemma visit_node_nested (sdfg : SDFG) (i : nat) (state : SDFGState)
    (s s' : Scan) (node : Node) :
  visit_node sdfg i state s node = Py.Ok s' ->
  nsdfgs s' =
  nsdfgs s ++ match kind node with
              | NestedSDFG _ =>
                  if is_free sdfg state node then [(node, i)] else []
              | _ => []
              end.
Proof.
  intros H. unfold visit_node in H.
  destruct (kind node); try (injection H as <-; by rewrite app_nil_r).
  - case_bool_decide; [injection H as <-; by rewrite app_nil_r|].
    destruct (is_free sdfg state node);
      [|injection H as <-; by rewrite app_nil_r].
    destruct (_recursive_out_check _ _ _ _ _) as [o|]; [|discriminate H].
    destruct (_recursive_in_check _ _ _ _ _) as [i'|]; [|discriminate H].
    cbn [mbind Py.result_bind] in H.
    destruct (negb _ || _); injection H as <-; by rewrite app_nil_r.
  - destruct (is_free sdfg state node); injection H as <-;
      [done|by rewrite app_nil_r].
Qed.

Lemma visit_nodes_nested (sdfg : SDFG) (i : nat) (state : SDFGState)
    (l : list Node) (s s' : Scan) :
  Py.for_each (visit_node sdfg i state) l s = Py.Ok s' ->
  nsdfgs s' =
  nsdfgs s ++ omap (fun node =>
                      match kind node with
                      | NestedSDFG _ =>
                          if is_free sdfg state node then Some (node, i)
                          else None
                      | _ => None
                      end) l.
Proof.
  revert s. induction l as [|node l IH]; intros s H.
  - simpl in H. injection H as <-. by rewrite app_nil_r.
  - cbn [Py.for_each] in H.
    destruct (visit_node sdfg i state s node) as [s1|] eqn:Hv; [|discriminate H].
    apply visit_node_nested in Hv. apply IH in H. rewrite H, Hv, <- app_assoc.
    f_equal. cbn [omap list_omap].
    destruct (kind node); try done.
    by destruct (is_free sdfg state node).
Qed.

Lemma visit_states_nested (sdfg : SDFG) (l : list (nat * SDFGState))
    (s s' : Scan) :
  Py.for_each
    (fun s ist => Py.for_each (visit_node sdfg ist.1 ist.2) (nodes ist.2) s)
    l s = Py.Ok s' ->
  nsdfgs s' =
  nsdfgs s ++ concat ((fun ist => free_nested_in sdfg ist.1 ist.2) <$> l).
Proof.
  revert s. induction l as [|[i state] l IH]; intros s H.
  - simpl in H. injection H as <-. by rewrite app_nil_r.
  - cbn [Py.for_each] in H. cbn [fst snd] in H.
    destruct (Py.for_each (visit_node sdfg i state) (nodes state) s)
      as [s1|] eqn:Hv; [|discriminate H].
    apply visit_nodes_nested in Hv. apply IH in H.
    rewrite H, Hv, <- app_assoc. done.
Qed.

(** One turn of the loop records every free nested graph again. *)
Lemma scan_states_nested (sdfg : SDFG) (s s' : Scan) :
  scan_states sdfg s = Py.Ok s' -> nsdfgs s' = nsdfgs s ++ free_nested sdfg.
Proof.
  intros H. unfold scan_states in H. apply visit_states_nested in H.
  rewrite H. cbn [nsdfgs]. f_equal. unfold free_nested.
  by rewrite fmap_imap.
Qed.

(** The nested graphs are recorded inside the loop, so the list the
    loop leaves holds every free nested graph once for every turn taken:
    once when no tasklet is claimed, and more than once as soon as a
    tasklet is claimed, since a turn that claims one is followed by
    another. *)
Theorem scalar_fixpoint_records_nested_each_turn (sdfg : SDFG) (fuel : nat)
    (s : Scan) :
  scalar_fixpoint fuel sdfg (initial_scan sdfg) = Some (Py.Ok s) ->
  exists turns,
    1 <= turns <= fuel
    /\ nsdfgs s = concat (replicate turns (free_nested sdfg))
    /\ (turns = 1 <-> claimed_count s = 0).
Proof.
  assert (Hgen : forall s0, well_claimed sdfg s0 ->
            scalar_fixpoint fuel sdfg s0 = Some (Py.Ok s) ->
            exists turns,
              1 <= turns <= fuel
              /\ nsdfgs s = nsdfgs s0 ++ concat (replicate turns (free_nested sdfg))
              /\ claimed_count s0 <= claimed_count s
              /\ (1 < turns -> claimed_count s0 < claimed_count s)
              /\ (turns = 1 -> changed s = false
                               /\ scan_states sdfg s0 = Py.Ok s)).
  { induction fuel as [|fuel IH]; intros s0 Hwc H; [discriminate H|].
    cbn [scalar_fixpoint] in H.
    destruct (scan_states sdfg s0) as [s1|e] eqn:Hscan; [|discriminate H].
    destruct (scan_states_grows sdfg s0 s1 Hwc Hscan) as (Hwc1 & Hle & _ & Hlt).
    pose proof (scan_states_nested sdfg s0 s1 Hscan) as Hn.
    destruct (changed s1) eqn:Hch.
    - destruct (IH s1 Hwc1 H) as (turns & Hturns & Hns & Hle' & _ & _).
      specialize (Hlt eq_refl).
      exists (S turns). split; [lia|]. split; [|split; [lia|split; [lia|lia]]].
      rewrite Hns, Hn, <- app_assoc. done.
    - injection H as <-. exists 1.
      split; [lia|]. split; [|split; [done|split; [lia|done]]].
      rewrite Hn. simpl. by rewrite app_nil_r. }
  intros H.
  destruct (Hgen (initial_scan sdfg) (initial_scan_well_claimed sdfg) H)
    as (turns & Hturns & Hns & Hle & Hlt & Hone).
  assert (Hzero : claimed_count (initial_scan sdfg) = 0).
  { unfold claimed_count, initial_scan. cbn [global_code_nodes].
    induction (length (states sdfg)) as [|n IHn]; [done|]. simpl. exact IHn. }
  exists turns. split; [done|]. split; [done|]. split.
  - intros ->. destruct (Hone eq_refl) as [Hch Hscan].
    destruct (scan_states_quiet sdfg _ _ Hscan Hch) as [Hg _].
    unfold claimed_count in *. by rewrite Hg.
  - intros Hc. destruct (decide (turns = 1)) as [|Hne]; [done|].
    assert (1 < turns) as Hgt by lia. specialize (Hlt Hgt). lia.
Qed.

End WithExternals.

Import Examples.

(** The three theorems on a graph whose tasklet writes a scalar and an
    array: the tasklet is claimed at the first turn and the scalar marked,
    the second turn ends the loop, and the nested graph is recorded
    twice. *)
Lemma scalar_fixpoint_marks_scalars_only_witness :
  exists s,
    scalar_fixpoint 5 scalar_graph (initial_scan scalar_graph) = Some (Py.Ok s)
    /\ "s" ∈ gpu_scalars s
    /\ scalars_only scalar_graph (gpu_scalars s).
Proof.
  eexists. split; [by vm_compute|]. split.
  - apply (bool_decide_unpack _). by vm_compute.
  - apply (scalar_fixpoint_marks_scalars_only scalar_graph 5). by vm_compute.
Defined.

Lemma tasklet_next_to_array_is_claimed_witness :
  exists s',
    visit_node scalar_graph 0 scalar_state (initial_scan scalar_graph)
      scalar_tasklet = Py.Ok s'
    /\ global_code_nodes s' = [[scalar_tasklet]]
    /\ changed s' = true.
Proof.
  eexists. split; [by vm_compute|].
  assert (Hfar : far_array scalar_graph array_write (dst array_write)).
  { exists "y", array_desc. split_and!; try done.
    intros [_ Hone]. vm_compute in Hone. discriminate Hone. }
  assert (Hedge : array_write ∈ out_edges scalar_state scalar_tasklet).
  { assert (He : out_edges scalar_state scalar_tasklet
                 = [{| src := scalar_tasklet;
                       dst := {| node_id := 1; kind := AccessNode "s" |};
                       edge_data := write_memlet "s" first_element |};
                    array_write]) by by vm_compute.
    rewrite He. apply elem_of_cons. right. apply elem_of_cons. by left. }
  assert (Hnew : scalar_tasklet
                 ∉ default [] (global_code_nodes (initial_scan scalar_graph) !! 0))
    by apply not_elem_of_nil.
  assert (Hfree : is_free scalar_graph scalar_state scalar_tasklet = true)
    by by vm_compute.
  destruct (tasklet_next_to_array_is_claimed scalar_graph 0 scalar_state
              (initial_scan scalar_graph) _ scalar_tasklet "t"
              eq_refl Hnew Hfree
              (or_introl (ex_intro _ array_write
                 (ex_intro _ array_write (conj Hedge (conj eq_refl Hfar)))))
              ltac:(by vm_compute))
    as (Hg & Hc & _).
  split; [exact Hg|exact Hc].
Defined.

Lemma scalar_fixpoint_result_is_stable_witness :
  exists s,
    scalar_fixpoint 5 scalar_graph (initial_scan scalar_graph) = Some (Py.Ok s)
    /\ changed s = false
    /\ exists s', scan_states scalar_graph s = Py.Ok s' /\ same_claims s s'.
Proof.
  eexists. split; [by vm_compute|].
  apply (scalar_fixpoint_result_is_stable scalar_graph 5
           (initial_scan scalar_graph)).
  by vm_compute.
Defined.

Lemma scalar_fixpoint_records_nested_each_turn_witness :
  exists s,
    scalar_fixpoint 5 scalar_graph (initial_scan scalar_graph) = Some (Py.Ok s)
    /\ length (nsdfgs s) = 2
    /\ exists turns,
         1 <= turns <= 5
         /\ nsdfgs s = concat (replicate turns (free_nested scalar_graph))
         /\ (turns = 1 <-> claimed_count s = 0).
Proof.
  eexists. split; [by vm_compute|]. split; [by vm_compute|].
  apply (scalar_fixpoint_records_nested_each_turn scalar_graph 5).
  by vm_compute.
Defined.

End ScanMore.

(** ** More on steps 0 to 3 of the device offload *)

Module OffloadMore.
Import Symbolic Dtypes GPUTransformSDFG GPUTransformSDFGFacts CloningFacts.
Import ScanFacts ScanMore.

Lemma omap_names_NoDup {A B} (f : string * A -> option (string * B))
    (l : list (string * A)) :
  (forall x y, f x = Some y -> y.1 = x.1) ->
  NoDup l.*1 -> NoDup (omap f l).*1.
Proof.
  intros Hf. induction l as [|x l IH]; intros Hnd; [constructor|].
  rewrite fmap_cons in Hnd. apply NoDup_cons in Hnd as [Hx Hnd].
  cbn [omap list_omap]. destruct (f x) as [y|] eqn:Hy; [|by apply IH].
  rewrite fmap_cons. apply NoDup_cons. split; [|by apply IH].
  rewrite (Hf x y Hy). intros Hin. apply Hx.
  apply list_elem_of_fmap in Hin as (z & -> & Hz).
  apply list_elem_of_omap in Hz as (w & Hw & Hfw).
  rewrite (Hf w z Hfw). apply list_elem_of_fmap. by exists w.
Qed.

Section WithExternals.
Context `{Ext : Externals}.

(** *** Step 1: what is cloned and what joins the inputs *)

Lemma clone_output_cases (sts : list SDFGState) (c : Cloning)
    (n : string) (d : Data) :
  let c' := clone_output sts c (n, d) in
  (forall k, k ∈ Py.keys (cloned_arrays c') ->
     k = n \/ k ∈ Py.keys (cloned_arrays c))
  /\ ((input_nodes c' = input_nodes c
       /\ (storage d = GPU_Global \/ n ∈ Py.keys (cloned_arrays c)
           \/ (n, d) ∈ input_nodes c
           \/ full_write sts n (Range_from_array d)))
      \/ (input_nodes c' = input_nodes c ++ [(n, d)]
          /\ storage d ≠ GPU_Global
          /\ ((n, d) ∉ input_nodes c)
          /\ ¬ full_write sts n (Range_from_array d))).
Proof.
  unfold clone_output.
  case_bool_decide as Hgpu; [simpl; split; [auto|left; auto]|].
  destruct (Py.mem n (cloned_arrays c)) eqn:Hm.
  { apply mem_true_key in Hm. split; [auto|left; auto]. }
  destruct (add_datadesc _ _ _) as [arrays' name].
  cbn [cloned_arrays input_nodes]. split.
  - intros k. rewrite keys_set, Hm. rewrite elem_of_app, list_elem_of_singleton.
    tauto.
  - case_bool_decide as Hin; [|left; split; [done|]; right; right; left].
    + pose proof (found_full_write_spec sts n (Range_from_array d)) as Hspec.
      destruct (found_full_write _ _ _).
      * left. split; [done|]. right; right; right. by apply Hspec.
      * right. split_and!; [done|done|done|].
        intros Hfw. apply Hspec in Hfw. discriminate Hfw.
    + by destruct (decide ((n, d) ∈ input_nodes c)).
Qed.

Lemma clone_outputs_inputs (arrays0 : Py.dict Data)
    (ins : list (string * Data)) (sts : list SDFGState)
    (l : list (string * Data)) (c : Cloning) :
  from_table arrays0 ins ->
  from_table arrays0 l ->
  NoDup l.*1 ->
  (forall x, x ∈ ins -> x ∈ input_nodes c) ->
  (forall x, x ∈ l -> x ∈ input_nodes c -> x ∈ ins) ->
  (forall n d, (n, d) ∈ l -> n ∈ Py.keys (cloned_arrays c) ->
     exists d', (n, d') ∈ ins) ->
  exists extra,
    input_nodes (foldl (clone_output sts) c l) = input_nodes c ++ extra
    /\ NoDup extra
    /\ forall n d, (n, d) ∈ extra <->
         (n, d) ∈ l /\ ((n, d) ∉ ins) /\ storage d ≠ GPU_Global
         /\ ¬ full_write sts n (Range_from_array d).
Proof.
  intros Hins. revert c.
  induction l as [|[n d] l IH]; intros c Htab Hnd Hsub Hold Hcl.
  - exists []. simpl. split_and!; [by rewrite app_nil_r|constructor|].
    intros n d. split; [intros H; by apply elem_of_nil in H|].
    intros [H _]. by apply elem_of_nil in H.
  - rewrite fmap_cons in Hnd. apply NoDup_cons in Hnd as [Hn Hnd].
    cbn [foldl].
    assert (Hname : forall d', (n, d') ∉ l).
    { intros d' Hin. apply Hn. apply list_elem_of_fmap. by exists (n, d'). }
    destruct (clone_output_cases sts c n d) as [Hkeys Hcases].
    set (c' := clone_output sts c (n, d)) in *.
    assert (Hcl' : forall n' d', (n', d') ∈ l ->
              n' ∈ Py.keys (cloned_arrays c') -> exists d'', (n', d'') ∈ ins).
    { intros n' d' Hin Hk. destruct (Hkeys n' Hk) as [->|Hk'].
      - by destruct (Hname d').
      - apply (Hcl n' d'); [by right|done]. }
    assert (Htab' : from_table arrays0 l).
    { intros n' d' Hin. apply Htab. by right. }
    destruct Hcases as [(Hsame & Hwhy)|(Happ & Hgpu & Hnew & Hfw)].
    + destruct (IH c' Htab' Hnd) as (extra & Hrun & Hex & Hiff).
      * intros x Hx. rewrite Hsame. by apply Hsub.
      * intros x Hx. rewrite Hsame. intros Hx'. apply Hold; [by right|done].
      * done.
      * exists extra. rewrite Hrun, Hsame. split_and!; [done|done|].
        intros n' d'. rewrite Hiff. split.
        -- intros (H1 & H2). split; [by right|done].
        -- intros (H1 & H2 & H3 & H4). split; [|done].
           apply elem_of_cons in H1 as [[= -> ->]|H1]; [|done].
           exfalso. destruct Hwhy as [Hw|[Hw|[Hw|Hw]]]; [done| | |done].
           ++ destruct (Hcl n d ltac:(left) Hw) as [d'' Hd''].
              assert (d'' = d) as ->; [|done].
              pose proof (Hins _ _ Hd'') as E1.
              pose proof (Htab n d ltac:(left)) as E2. congruence.
           ++ apply H2. apply Hold; [left|done].
    + destruct (IH c' Htab' Hnd) as (extra & Hrun & Hex & Hiff).
      * intros x Hx. rewrite Happ. apply elem_of_app. left. by apply Hsub.
      * intros x Hx. rewrite Happ. intros Hx'.
        apply elem_of_app in Hx' as [Hx'|Hx'].
        -- apply Hold; [by right|done].
        -- apply list_elem_of_singleton in Hx' as ->. by destruct (Hname d).
      * done.
      * exists ((n, d) :: extra). rewrite Hrun, Happ, <- app_assoc.
        split_and!; [done| |].
        -- apply NoDup_cons. split; [|done]. intros Hin.
           apply Hiff in Hin as [Hin _]. by destruct (Hname d).
        -- intros n' d'. rewrite elem_of_cons, Hiff. split.
           ++ intros [[= -> ->]|(H1 & H2)].
              ** split_and!; [left|auto|done|done].
              ** split; [by right|done].
           ++ intros (H1 & H2 & H3 & H4).
              apply elem_of_cons in H1 as [H1|H1]; [by left|by right].
Qed.

Lemma clone_arrays_ok (sdfg : SDFG) (ins outs : list (string * Data)) :
  NoDup (Py.keys (arrays sdfg)) ->
  from_table (arrays sdfg) ins ->
  from_table (arrays sdfg) outs ->
  let c := clone_arrays sdfg ins outs in
  cloning_ok (arrays sdfg) (c_arrays c) (cloned_arrays c)
  /\ (forall k, k ∈ Py.keys (cloned_arrays c) <->
      (exists d, (k, d) ∈ ins /\ storage d ≠ GPU_Global /\ dclass d ≠ Scalar)
      \/ (exists d, (k, d) ∈ outs /\ storage d ≠ GPU_Global))
  /\ exists extra,
       input_nodes c = ins ++ extra
       /\ NoDup extra
       /\ forall n d, (n, d) ∈ extra <->
            (n, d) ∈ outs /\ ((n, d) ∉ ins) /\ storage d ≠ GPU_Global
            /\ ¬ full_write (states sdfg) n (Range_from_array d).
Proof.
  intros Hnd Hin Hout c.
  set (c0 := {| c_arrays := arrays sdfg; data_already_on_gpu := [];
                cloned_arrays := []; input_nodes := ins |}).
  assert (Hok0 : cloning_ok (arrays sdfg) (c_arrays c0) (cloned_arrays c0)).
  { split; simpl; [done|done|lia|apply NoDup_nil_2|apply NoDup_nil_2|].
    intros n g H. by apply elem_of_nil in H. }
  destruct (clone_inputs_ok (arrays sdfg) (set_iter ins) c0 Hok0)
    as (Hok1 & Hkeys1 & Hins1).
  { intros n d H. by apply Hin, set_iter_elem_of. }
  { by eapply set_iter_names_NoDup. }
  { intros n _. apply not_elem_of_nil. }
  set (c1 := foldl clone_input c0 (set_iter ins)) in *.
  assert (Htab2 : from_table (arrays sdfg) (set_iter outs)).
  { intros n d H. by apply Hout, set_iter_elem_of. }
  destruct (clone_outputs_ok (arrays sdfg) (states sdfg) (set_iter outs) c1 Hok1
              Htab2) as (Hok2 & Hkeys2).
  change (foldl _ c1 (set_iter outs)) with c in *.
  split; [done|]. split.
  - intros k. rewrite Hkeys2, Hkeys1. cbn [cloned_arrays c0]. split.
    + intros [[H|(d & H & H')]|(d & H & H')].
      * by apply elem_of_nil in H.
      * left. exists d. split; [by apply set_iter_elem_of|done].
      * right. exists d. split; [by apply set_iter_elem_of|done].
    + intros [(d & H & H')|(d & H & H')].
      * left. right. exists d. split; [by apply set_iter_elem_of|done].
      * right. exists d. split; [by apply set_iter_elem_of|done].
  - destruct (clone_outputs_inputs (arrays sdfg) ins (states sdfg)
                (set_iter outs) c1 Hin Htab2)
      as (extra & Hrun & Hex & Hiff).
    + by eapply set_iter_names_NoDup.
    + intros x Hx. by rewrite Hins1.
    + intros x _. by rewrite Hins1.
    + intros n d _ Hk. apply Hkeys1 in Hk as [Hk|(d' & Hd' & _)].
      * by apply elem_of_nil in Hk.
      * exists d'. by apply set_iter_elem_of.
    + exists extra. change (foldl _ c1 (set_iter outs)) with c in Hrun.
      rewrite Hrun, Hins1. split_and!; [done|done|].
      intros n d. rewrite Hiff, set_iter_elem_of. done.
Qed.

(** What step 1 clones and what it adds to the inputs: an array has a
    shadow exactly when it is an input that is neither in GPU global
    storage nor a scalar, or an output that is not in GPU global storage
    (so a scalar that is written is cloned); and the input list is the
    one of step 0 followed, each once, by the outputs outside GPU global
    storage that were no inputs and have no full write. *)
Theorem clone_arrays_inputs_and_clones (sdfg : SDFG)
    (ins outs : list (string * Data)) :
  NoDup (Py.keys (arrays sdfg)) ->
  from_table (arrays sdfg) ins ->
  from_table (arrays sdfg) outs ->
  let c := clone_arrays sdfg ins outs in
  (forall k, k ∈ Py.keys (cloned_arrays c) <->
     (exists d, (k, d) ∈ ins /\ storage d ≠ GPU_Global /\ dclass d ≠ Scalar)
     \/ (exists d, (k, d) ∈ outs /\ storage d ≠ GPU_Global))
  /\ exists extra,
       input_nodes c = ins ++ extra
       /\ NoDup extra
       /\ forall n d, (n, d) ∈ extra <->
            (n, d) ∈ outs /\ ((n, d) ∉ ins) /\ storage d ≠ GPU_Global
            /\ ¬ full_write (states sdfg) n (Range_from_array d).
Proof.
  intros Hnd Hin Hout c.
  exact (proj2 (clone_arrays_ok sdfg ins outs Hnd Hin Hout)).
Qed.

(** *** Step 0: the classification *)

#[local] Instance classified_grows_refl : Reflexive classified_grows.
Proof. intros acc. by split. Qed.

#[local] Instance classified_grows_trans : Transitive classified_grows.
Proof.
  intros a b c [H1 H2] [H1' H2']. split; by etrans.
Qed.

Section Classification.
Variable dst_conn : Edge -> option string.
Variable in_host_maps : Node -> bool.
Variable host_data : list string.

Lemma node_desc_ok (sdfg : SDFG) (d : string) (desc : Data) :
  node_desc sdfg d = Py.Ok desc <-> Py.get d (arrays sdfg) = Some desc.
Proof.
  unfold node_desc. destruct (Py.get d (arrays sdfg)); split; congruence.
Qed.

(** What one turn of the loop over the nodes gives for an access node of
    a descriptor that is no transient. *)
Lemma classify_node_access (sdfg : SDFG) (state : SDFGState)
    (acc acc' : list (string * Data) * list (string * Data)) (node : Node)
    (d : string) (desc : Data) :
  kind node = AccessNode d ->
  Py.get d (arrays sdfg) = Some desc ->
  transient desc = false ->
  classify_node dst_conn in_host_maps host_data sdfg state acc node
  = Py.Ok acc' ->
  (acc'.1 = acc.1 \/ acc'.1 = acc.1 ++ [(d, desc)])
  /\ (acc'.2 = acc.2 \/ (acc'.2 = acc.2 ++ [(d, desc)] /\ d ∉ host_data))
  /\ (in_edges state node ≠ [] -> d ∉ host_data -> (d, desc) ∈ acc'.2)
  /\ (out_edges state node ≠ [] ->
      leads_to_host dst_conn in_host_maps state (out_edges state node)
      = Py.Ok false ->
      (d, desc) ∈ acc'.1).
Proof.
  intros Hkind Hd Ht H. unfold classify_node in H. rewrite Hkind in H.
  rewrite (proj2 (node_desc_ok sdfg d desc) Hd) in H.
  cbn [mbind Py.result_bind] in H. rewrite Ht in H.
  destruct (decide (out_edges state node = [])) as [Ho|Ho].
  - rewrite (bool_decide_false (out_edges state node ≠ [])) in H
      by (intros Hne; by apply Hne).
    cbn [mbind Py.result_bind] in H. injection H as <-. cbn [fst snd].
    split; [by left|]. split_and!.
    + destruct (bool_decide _ && bool_decide _) eqn:Hb; [|by left].
      right. split; [done|].
      apply andb_true_iff in Hb as [_ Hb]. by apply bool_decide_eq_true in Hb.
    + intros Hi Hh. rewrite !bool_decide_true by done. simpl.
      apply elem_of_app. right. left.
    + done.
  - rewrite (bool_decide_true (out_edges state node ≠ [])) in H by done.
    destruct (leads_to_host dst_conn in_host_maps state (out_edges state node))
      as [b|] eqn:Hb; [|discriminate H].
    cbn [mbind Py.result_bind] in H. injection H as <-. cbn [fst snd].
    split; [destruct b; [by left|by right]|]. split_and!.
    + destruct (bool_decide _ && bool_decide _) eqn:Hb'; [|by left].
      right. split; [done|].
      apply andb_true_iff in Hb' as [_ Hb']. by apply bool_decide_eq_true in Hb'.
    + intros Hi Hh. rewrite !bool_decide_true by done. simpl.
      apply elem_of_app. right. left.
    + intros _ [= ->]. apply elem_of_app. right. left.
Qed.

Lemma classify_node_cases (sdfg : SDFG) (state : SDFGState)
    (acc acc' : list (string * Data) * list (string * Data)) (node : Node) :
  classify_node dst_conn in_host_maps host_data sdfg state acc node
  = Py.Ok acc' ->
  acc' = acc
  \/ exists d desc,
       kind node = AccessNode d
       /\ Py.get d (arrays sdfg) = Some desc
       /\ transient desc = false.
Proof.
  intros H. unfold classify_node in H.
  destruct (kind node) as [d| | | | |] eqn:Hkind;
    try (injection H as <-; by left).
  destruct (node_desc sdfg d) as [desc|] eqn:Hd; [|discriminate H].
  cbn [mbind Py.result_bind] in H.
  destruct (transient desc) eqn:Ht; [injection H as <-; by left|].
  right. exists d, desc. split_and!; [done| |done]. by apply node_desc_ok.
Qed.

Lemma classify_node_keeps (sdfg : SDFG) (state : SDFGState)
    (acc acc' : list (string * Data) * list (string * Data)) (node : Node) :
  classify_node dst_conn in_host_maps host_data sdfg state acc node
  = Py.Ok acc' ->
  classified_grows acc acc'
  /\ (classified sdfg host_data acc -> classified sdfg host_data acc').
Proof.
  intros H. destruct (classify_node_cases _ _ _ _ _ H)
    as [->|(d & desc & Hkind & Hd & Ht)]; [by split|].
  destruct (classify_node_access _ _ _ _ _ _ _ Hkind Hd Ht H)
    as (H1 & H2 & _ & _).
  split.
  - split.
    + destruct H1 as [->| ->]; [done|]. intros x Hx. apply elem_of_app. by left.
    + destruct H2 as [->|[-> _]]; [done|]. intros x Hx. apply elem_of_app. by left.
  - intros (Ha & Hb & Hc & Hh). unfold classified.
    assert (Hnew : forall l n d',
              (n, d') ∈ l ++ [(d, desc)] -> (n, d') ∈ l \/ (n = d /\ d' = desc)).
    { intros l n d' Hin. apply elem_of_app in Hin as [?|Hin]; [by left|].
      apply list_elem_of_singleton in Hin. injection Hin as -> ->. by right. }
    split_and!.
    + intros n d' Hin. destruct H1 as [E|E]; rewrite E in Hin; [by apply Ha|].
      destruct (Hnew _ _ _ Hin) as [?|[-> ->]]; [by apply Ha|done].
    + intros n d' Hin. destruct H2 as [E|[E _]]; rewrite E in Hin; [by apply Hb|].
      destruct (Hnew _ _ _ Hin) as [?|[-> ->]]; [by apply Hb|done].
    + intros n d' [Hin|Hin].
      * destruct H1 as [E|E]; rewrite E in Hin; [apply (Hc n d'); by left|].
        destruct (Hnew _ _ _ Hin) as [?|[-> ->]]; [apply (Hc n d'); by left|done].
      * destruct H2 as [E|[E _]]; rewrite E in Hin; [apply (Hc n d'); by right|].
        destruct (Hnew _ _ _ Hin) as [?|[-> ->]]; [apply (Hc n d'); by right|done].
    + intros n d' Hin. destruct H2 as [E|[E Hhost]]; rewrite E in Hin;
        [by eapply Hh|].
      destruct (Hnew _ _ _ Hin) as [?|[-> ->]]; [by eapply Hh|done].
Qed.

Lemma classify_wcr_cases (sdfg : SDFG) (ins ins' : list (string * Data))
    (e : Edge) :
  classify_wcr sdfg ins e = Py.Ok ins' ->
  (ins' = ins
   \/ exists d desc,
        data (edge_data e) = Some d
        /\ Py.get d (arrays sdfg) = Some desc
        /\ transient desc = false
        /\ ins' = ins ++ [(d, desc)])
  /\ (forall d desc,
        wcr (edge_data e) ≠ None -> data (edge_data e) = Some d ->
        Py.get d (arrays sdfg) = Some desc -> transient desc = false ->
        (d, desc) ∈ ins').
Proof.
  intros H. unfold classify_wcr in H.
  destruct (wcr (edge_data e)) as [w|]; [|injection H as <-; split; [by left|done]].
  destruct (data (edge_data e)) as [d|]; [|discriminate H].
  destruct (node_desc sdfg d) as [desc|] eqn:Hd; [|discriminate H].
  apply node_desc_ok in Hd. cbn [mbind Py.result_bind] in H.
  destruct (transient desc) eqn:Ht; injection H as <-.
  - split; [by left|]. intros d' desc' _ [= <-] Hd' Ht'. congruence.
  - split; [right; by exists d, desc|].
    intros d' desc' _ [= <-] Hd' _. rewrite Hd in Hd'. injection Hd' as <-.
    apply elem_of_app. right. left.
Qed.

Lemma classify_wcr_keeps (sdfg : SDFG) (outs ins ins' : list (string * Data))
    (e : Edge) :
  classify_wcr sdfg ins e = Py.Ok ins' ->
  classified_grows (ins, outs) (ins', outs)
  /\ (classified sdfg host_data (ins, outs) ->
      classified sdfg host_data (ins', outs)).
Proof.
  intros H. destruct (classify_wcr_cases _ _ _ _ H) as [Hc _].
  destruct Hc as [->|(d & desc & _ & Hd & Ht & ->)]; [by split|].
  split.
  - split; [|done]. intros x Hx. apply elem_of_app. by left.
  - intros (Ha & Hb & Hc & Hh). unfold classified. cbn [fst snd] in *.
    split_and!; [|done| |done].
    + intros n d' Hin. apply elem_of_app in Hin as [?|Hin]; [by apply Ha|].
      apply list_elem_of_singleton in Hin. by injection Hin as -> ->.
    + intros n d' [Hin|Hin]; [|apply (Hc n d'); by right].
      apply elem_of_app in Hin as [?|Hin]; [apply (Hc n d'); by left|].
      apply list_elem_of_singleton in Hin. by injection Hin as -> ->.
Qed.

Lemma classify_wcr_loop (sdfg : SDFG) (outs : list (string * Data))
    (es : list Edge) (ins ins' : list (string * Data)) :
  Py.for_each (classify_wcr sdfg) es ins = Py.Ok ins' ->
  classified_grows (ins, outs) (ins', outs)
  /\ (classified sdfg host_data (ins, outs) ->
      classified sdfg host_data (ins', outs)).
Proof.
  revert ins. induction es as [|e es IH]; intros ins H.
  - simpl in H. injection H as <-. by split.
  - cbn [Py.for_each] in H.
    destruct (classify_wcr sdfg ins e) as [ins1|] eqn:He; [|discriminate H].
    destruct (classify_wcr_keeps sdfg outs _ _ _ He) as [Hg Hk].
    destruct (IH ins1 H) as [Hg' Hk']. split; [by etrans|auto].
Qed.

Lemma classify_nodes_loop (sdfg : SDFG) (state : SDFGState) (ns : list Node)
    (acc acc' : list (string * Data) * list (string * Data)) :
  Py.for_each (classify_node dst_conn in_host_maps host_data sdfg state) ns acc
  = Py.Ok acc' ->
  classified_grows acc acc'
  /\ (classified sdfg host_data acc -> classified sdfg host_data acc').
Proof.
  revert acc. induction ns as [|n ns IH]; intros acc H.
  - simpl in H. injection H as <-. by split.
  - cbn [Py.for_each] in H.
    destruct (classify_node _ _ _ sdfg state acc n) as [acc1|] eqn:Hn;
      [|discriminate H].
    destruct (classify_node_keeps _ _ _ _ _ Hn) as [Hg Hk].
    destruct (IH acc1 H) as [Hg' Hk']. split; [by etrans|auto].
Qed.

Lemma classify_state_parts (sdfg : SDFG) (state : SDFGState)
    (acc acc' : list (string * Data) * list (string * Data)) :
  classify_state dst_conn in_host_maps host_data sdfg acc state = Py.Ok acc' ->
  exists accn,
    Py.for_each (classify_node dst_conn in_host_maps host_data sdfg state)
      (nodes state) acc = Py.Ok accn
    /\ Py.for_each (classify_wcr sdfg) (edges state) accn.1 = Py.Ok acc'.1
    /\ acc'.2 = accn.2.
Proof.
  intros H. unfold classify_state in H.
  destruct (Py.for_each (classify_node _ _ _ _ _) _ _) as [accn|];
    [|discriminate H].
  cbn [mbind Py.result_bind] in H.
  destruct (Py.for_each (classify_wcr sdfg) _ _) as [ins|] eqn:Hw;
    [|discriminate H].
  cbn [mbind Py.result_bind] in H. injection H as <-. by exists accn.
Qed.

Lemma classify_state_keeps (sdfg : SDFG) (state : SDFGState)
    (acc acc' : list (string * Data) * list (string * Data)) :
  classify_state dst_conn in_host_maps host_data sdfg acc state = Py.Ok acc' ->
  classified_grows acc acc'
  /\ (classified sdfg host_data acc -> classified sdfg host_data acc').
Proof.
  intros H. destruct (classify_state_parts _ _ _ _ H) as (accn & Hn & Hw & E).
  destruct (classify_nodes_loop _ _ _ _ _ Hn) as [Hg Hk].
  destruct (classify_wcr_loop sdfg accn.2 _ _ _ Hw) as [Hg' Hk'].
  destruct acc' as [ins' outs'], accn as [insn outsn].
  cbn [fst snd] in *. subst outs'. split; [by etrans|auto].
Qed.

Lemma classify_classified (sdfg : SDFG) (ins outs : list (string * Data)) :
  classify dst_conn in_host_maps host_data sdfg = Py.Ok (ins, outs) ->
  classified sdfg host_data (ins, outs).
Proof.
  intros H. unfold classify in H.
  eapply (ScanFacts.for_each_inv _ (classified sdfg host_data)); [| |exact H].
  - intros acc st acc' _ Hacc Hst.
    by apply (proj2 (classify_state_keeps _ _ _ _ Hst)).
  - unfold classified. simpl. split_and!; intros n d Hin;
      try (by apply elem_of_nil in Hin).
    destruct Hin as [Hin|Hin]; by apply elem_of_nil in Hin.
Qed.

(** The classification, when it returns, gives two lists of names with
    their descriptors in the table, none of a transient and no output
    among the host data; among them are, as an output, every array that
    is no transient, not host data and has an access node with an
    incoming edge; as an input, every array that is no transient and has
    an access node with outgoing edges none of which leads to a host
    scope, or is the array of a memlet with write-conflict resolution. *)
Theorem classify_sound_and_complete (sdfg : SDFG)
    (ins outs : list (string * Data)) :
  classify dst_conn in_host_maps host_data sdfg = Py.Ok (ins, outs) ->
  from_table (arrays sdfg) ins
  /\ from_table (arrays sdfg) outs
  /\ (forall n d, (n, d) ∈ ins \/ (n, d) ∈ outs -> transient d = false)
  /\ (forall n d, (n, d) ∈ outs -> n ∉ host_data)
  /\ (forall state node d desc,
        state ∈ states sdfg -> node ∈ nodes state ->
        kind node = AccessNode d ->
        Py.get d (arrays sdfg) = Some desc -> transient desc = false ->
        (in_edges state node ≠ [] -> d ∉ host_data -> (d, desc) ∈ outs)
        /\ (out_edges state node ≠ [] ->
            leads_to_host dst_conn in_host_maps state (out_edges state node)
            = Py.Ok false ->
            (d, desc) ∈ ins))
  /\ (forall state e d desc,
        state ∈ states sdfg -> e ∈ edges state ->
        wcr (edge_data e) ≠ None -> data (edge_data e) = Some d ->
        Py.get d (arrays sdfg) = Some desc -> transient desc = false ->
        (d, desc) ∈ ins).
Proof.
  intros H.
  destruct (classify_classified sdfg ins outs H) as (H1 & H2 & H3 & H4).
  unfold classify in H. cbn [fst snd] in *.
  split_and!; [done|done|done|done| |].
  - intros state node d desc Hstate Hnode Hkind Hd Ht.
    destruct (for_each_visits _ classified_grows _ _ _ state
                (fun s a s' Hs => proj1 (classify_state_keeps _ _ _ _ Hs))
                H Hstate)
      as (acc1 & acc2 & _ & Hst & [Hg1 Hg2]).
    destruct (classify_state_parts _ _ _ _ Hst) as (accn & Hn & Hw & E).
    destruct (classify_wcr_loop sdfg accn.2 _ _ _ Hw) as [[Hw1 _] _].
    cbn [fst snd] in *.
    destruct (for_each_visits _ classified_grows _ _ _ node
                (fun s a s' Hs => proj1 (classify_node_keeps _ _ _ _ _ Hs))
                Hn Hnode)
      as (b1 & b2 & _ & Hb & [Hb1 Hb2]).
    destruct (classify_node_access _ _ _ _ _ _ _ Hkind Hd Ht Hb)
      as (_ & _ & Hout & Hin).
    split.
    + intros Hi Hh. apply Hg2. rewrite E. apply Hb2. by apply Hout.
    + intros Ho Hl. apply Hg1, Hw1, Hb1. by apply Hin.
  - intros state e d desc Hstate He Hw Hdata Hd Ht.
    destruct (for_each_visits _ classified_grows _ _ _ state
                (fun s a s' Hs => proj1 (classify_state_keeps _ _ _ _ Hs))
                H Hstate)
      as (acc1 & acc2 & _ & Hst & [Hg1 _]).
    destruct (classify_state_parts _ _ _ _ Hst) as (accn & _ & Hloop & _).
    cbn [fst snd] in *.
    destruct (for_each_visits _ (⊆) _ _ _ e
                (fun s a s' Hs =>
                   proj1 (proj1 (classify_wcr_keeps sdfg [] _ _ _ Hs)))
                Hloop He)
      as (i1 & i2 & _ & Hstep & Hsub).
    apply Hg1, Hsub.
    by apply (proj2 (classify_wcr_cases _ _ _ _ Hstep) d desc).
Qed.

(** Step 0 and step 1 together: of the arrays the classification
    returns, step 1 gives those outside GPU global storage exactly one
    shadow each under a new name, holding the GPU clone of the
    descriptor; no descriptor of before is lost or changed, and no
    transient gets a shadow. *)
Theorem classified_arrays_get_one_shadow (sdfg : SDFG)
    (ins outs : list (string * Data)) :
  classify dst_conn in_host_maps host_data sdfg = Py.Ok (ins, outs) ->
  NoDup (Py.keys (arrays sdfg)) ->
  let c := clone_arrays sdfg ins outs in
  cloning_ok (arrays sdfg) (c_arrays c) (cloned_arrays c)
  /\ forall n g, (n, g) ∈ cloned_arrays c ->
       exists d,
         Py.get n (arrays sdfg) = Some d
         /\ transient d = false
         /\ storage d ≠ GPU_Global
         /\ Py.get g (c_arrays c) = Some (gpu_clone d).
Proof.
  intros H Hnd c.
  destruct (classify_classified sdfg ins outs H) as (Hin & Hout & Htr & _).
  cbn [fst snd] in *.
  destruct (clone_arrays_ok sdfg ins outs Hnd Hin Hout) as (Hok & Hkeys & _).
  fold c in Hok, Hkeys. split; [done|].
  intros n g Hng. destruct (ok_shadow _ _ _ Hok n g Hng)
    as (_ & d & Hd & Hs & Hg).
  exists d. split_and!; [done| |done|done].
  assert (Hk : n ∈ Py.keys (cloned_arrays c)) by by eapply key_elem_of.
  apply Hkeys in Hk as [(d' & Hd' & _)|(d' & Hd' & _)].
  - assert (d' = d) as -> by (apply Hin in Hd'; congruence).
    apply (Htr n d). by left.
  - assert (d' = d) as -> by (apply Hout in Hd'; congruence).
    apply (Htr n d). by right.
Qed.

End Classification.

(** *** Nodes and memlets go to the shadows *)

Lemma redirect_state_refs (cloned : Py.dict string) (st : SDFGState) :
  state_refs (redirect_state cloned st)
  = (fun d => default d (Py.get d cloned)) <$> state_refs st.
Proof.
  unfold state_refs, redirect_state. cbn [nodes edges].
  rewrite fmap_app. f_equal.
  - induction (nodes st) as [|n ns IH]; [done|].
    rewrite fmap_cons. cbn [omap list_omap]. rewrite IH.
    unfold redirect_node. destruct (kind n) as [d| | | | |] eqn:Hk;
      try by rewrite Hk.
    destruct (Py.get d cloned) as [g|] eqn:Hg; cbn [kind].
    + by rewrite fmap_cons, Hg.
    + by rewrite Hk, fmap_cons, Hg.
  - induction (edges st) as [|e es IH]; [done|].
    rewrite fmap_cons. cbn [omap list_omap edge_data]. rewrite IH.
    unfold redirect_memlet. destruct (data (edge_data e)) as [d|] eqn:Hd;
      [|by rewrite Hd].
    destruct (Py.get d cloned) as [g|] eqn:Hg; cbn [data].
    + by rewrite fmap_cons, Hg.
    + by rewrite Hd, fmap_cons, Hg.
Qed.

(** After the nodes and memlets are sent to the shadows, no access node
    and no memlet of a state names an array that has a shadow: every
    reference to such an array names the shadow, the other references are
    as before, and no node or edge is added or lost. *)
Theorem redirect_leaves_no_host_reference (sdfg : SDFG)
    (ins outs : list (string * Data)) (st : SDFGState) :
  NoDup (Py.keys (arrays sdfg)) ->
  from_table (arrays sdfg) ins ->
  from_table (arrays sdfg) outs ->
  let c := clone_arrays sdfg ins outs in
  state_refs (redirect_state (cloned_arrays c) st)
  = (fun d => default d (Py.get d (cloned_arrays c))) <$> state_refs st
  /\ (forall d, d ∈ state_refs (redirect_state (cloned_arrays c) st) ->
      d ∉ Py.keys (cloned_arrays c))
  /\ length (nodes (redirect_state (cloned_arrays c) st)) = length (nodes st)
  /\ length (edges (redirect_state (cloned_arrays c) st)) = length (edges st).
Proof.
  intros Hnd Hin Hout c.
  destruct (clone_arrays_ok sdfg ins outs Hnd Hin Hout) as (Hok & _ & _).
  fold c in Hok. split; [apply redirect_state_refs|]. split.
  - intros d Hd Hkey. rewrite redirect_state_refs in Hd.
    apply list_elem_of_fmap in Hd as (d0 & -> & _).
    assert (Hhost : forall k, k ∈ Py.keys (cloned_arrays c) ->
                              k ∈ Py.keys (arrays sdfg)).
    { intros k Hk. apply key_get_Some in Hk as [g Hg].
      apply get_Some_elem_of in Hg.
      destruct (ok_shadow _ _ _ Hok k g Hg) as (_ & d' & Hd' & _).
      apply key_get_Some. eauto. }
    destruct (Py.get d0 (cloned_arrays c)) as [g|] eqn:Hg; simpl in Hkey.
    + apply get_Some_elem_of in Hg.
      destruct (ok_shadow _ _ _ Hok d0 g Hg) as (Hfresh & _).
      by apply Hfresh, Hhost.
    + by apply get_None_not_key in Hg.
  - unfold redirect_state. cbn [nodes edges]. by rewrite !length_fmap.
Qed.

(** *** The copy states *)

Section Copies.
Variable deduplicate : list (string * Data) -> list (string * Data).
Hypothesis deduplicate_perm : forall l, deduplicate l ≡ₚ remove_dups l.

Lemma copies_spec (arrays0 : Py.dict Data) (excluded : string)
    (l : list (string * Data)) (cloned : Py.dict string) :
  from_table arrays0 l ->
  NoDup (copies deduplicate excluded l cloned).*1
  /\ forall n g, (n, g) ∈ copies deduplicate excluded l cloned <->
       (n ∉ Str.split "," excluded)
       /\ Py.get n cloned = Some g
       /\ exists d, (n, d) ∈ l.
Proof.
  intros Htab.
  assert (Hmem : forall x, x ∈ deduplicate l <-> x ∈ l).
  { intros x. by rewrite deduplicate_perm, elem_of_remove_dups. }
  split.
  - unfold copies. apply omap_names_NoDup.
    + intros [k d] [k' g] H. cbn [fst] in *.
      destruct (bool_decide _ || negb _); [discriminate H|].
      destruct (Py.get k cloned); [|discriminate H]. by injection H as <- _.
    + apply NoDup_fmap_2_strong.
      * intros [n d] [n' d'] H H' Heq. simpl in Heq. subst n'.
        apply Hmem, Htab in H. apply Hmem, Htab in H'. congruence.
      * rewrite deduplicate_perm. apply NoDup_remove_dups.
  - intros n g. unfold copies. rewrite list_elem_of_omap. split.
    + intros ([k d] & Hin & H). cbn [fst] in H.
      destruct (bool_decide (k ∈ Str.split "," excluded)) eqn:Hex;
        [discriminate H|].
      apply bool_decide_eq_false in Hex.
      destruct (negb (Py.mem k cloned)); [discriminate H|]. simpl in H.
      destruct (Py.get k cloned) as [g'|] eqn:Hg; [|discriminate H].
      injection H as -> ->. split_and!; [done|done|].
      exists d. by apply Hmem.
    + intros (Hex & Hg & d & Hin). exists (n, d).
      split; [by apply Hmem|]. cbn [fst].
      rewrite bool_decide_false by done. unfold Py.mem. by rewrite Hg.
Qed.

(** The two copy states after step 1: every array is copied at most
    once each way; what is copied in is, unless excluded, every array with
    a shadow that is an input, or an output that has no full write; what
    is copied out is, unless excluded, every output with a shadow, which
    is every output outside GPU global storage. *)
Theorem copy_states_after_cloning (sdfg : SDFG)
    (ins outs : list (string * Data)) (exclude_copyin exclude_copyout : string) :
  NoDup (Py.keys (arrays sdfg)) ->
  from_table (arrays sdfg) ins ->
  from_table (arrays sdfg) outs ->
  let c := clone_arrays sdfg ins outs in
  let copyin :=
    copies deduplicate exclude_copyin (input_nodes c) (cloned_arrays c) in
  let copyout := copies deduplicate exclude_copyout outs (cloned_arrays c) in
  NoDup copyin.*1
  /\ NoDup copyout.*1
  /\ (forall n g, (n, g) ∈ copyin <->
      (n ∉ Str.split "," exclude_copyin)
      /\ Py.get n (cloned_arrays c) = Some g
      /\ exists d, (n, d) ∈ ins
                   \/ ((n, d) ∈ outs
                       /\ ¬ full_write (states sdfg) n (Range_from_array d)))
  /\ (forall n g, (n, g) ∈ copyout <->
      (n ∉ Str.split "," exclude_copyout)
      /\ Py.get n (cloned_arrays c) = Some g
      /\ exists d, (n, d) ∈ outs)
  /\ (forall n d, (n, d) ∈ outs -> storage d ≠ GPU_Global ->
      n ∉ Str.split "," exclude_copyout -> n ∈ copyout.*1).
Proof.
  intros Hnd Hin Hout c copyin copyout.
  destruct (clone_arrays_ok sdfg ins outs Hnd Hin Hout)
    as (Hok & Hkeys & extra & Hinputs & _ & Hextra).
  fold c in Hok, Hkeys, Hinputs.
  assert (Htab : from_table (arrays sdfg) (input_nodes c)).
  { intros n d H. rewrite Hinputs in H. apply elem_of_app in H as [H|H].
    - by apply Hin.
    - apply Hextra in H as [H _]. by apply Hout. }
  destruct (copies_spec (arrays sdfg) exclude_copyin (input_nodes c)
              (cloned_arrays c) Htab) as [Hnd1 Hiff1].
  destruct (copies_spec (arrays sdfg) exclude_copyout outs
              (cloned_arrays c) Hout) as [Hnd2 Hiff2].
  split; [done|]. split; [done|]. split; [|split; [done|]].
  - intros n g. unfold copyin. rewrite Hiff1. split.
    + intros (Hex & Hg & d & Hd). split_and!; [done|done|]. exists d.
      rewrite Hinputs in Hd. apply elem_of_app in Hd as [Hd|Hd]; [by left|].
      apply Hextra in Hd as (H1 & _ & _ & H4). by right.
    + intros (Hex & Hg & d & Hd). split_and!; [done|done|]. exists d.
      rewrite Hinputs. apply elem_of_app.
      destruct (decide ((n, d) ∈ ins)) as [?|Hno]; [by left|].
      destruct Hd as [?|[Hd Hfw]]; [done|]. right. apply Hextra.
      split_and!; [done|done| |done].
      destruct (ok_shadow _ _ _ Hok n g (get_Some_elem_of _ _ _ Hg))
        as (_ & d' & Hd' & Hs & _).
      apply Hout in Hd. congruence.
  - intros n d Hd Hs Hex.
    assert (Hk : n ∈ Py.keys (cloned_arrays c)).
    { apply Hkeys. right. by exists d. }
    apply key_get_Some in Hk as [g Hg].
    apply list_elem_of_fmap. exists (n, g). split; [done|].
    apply Hiff2. split_and!; [done|done|by exists d].
Qed.

End Copies.

End WithExternals.

Import Examples.

(** The theorems on a graph whose one state reads the array [x] and
    writes all of the array [y], beside a transient: [x] is the input,
    [y] the output; both get a shadow, the transient none; [x] alone is
    copied in and [y] alone is copied out. *)
Lemma classify_sound_and_complete_witness :
  classify (fun _ => None) (fun _ => false) [] stream_graph
  = Py.Ok ([("x", array_desc)], [("y", array_desc)])
  /\ from_table (arrays stream_graph) [("x", array_desc)]
  /\ from_table (arrays stream_graph) [("y", array_desc)].
Proof.
  assert (H : classify (fun _ => None) (fun _ => false) [] stream_graph
              = Py.Ok ([("x", array_desc)], [("y", array_desc)]))
    by by vm_compute.
  split; [exact H|].
  pose proof (classify_sound_and_complete _ _ _ _ _ _ H) as (H1 & H2 & _).
  by split.
Defined.

Lemma classified_arrays_get_one_shadow_witness :
  classify (fun _ => None) (fun _ => false) [] stream_graph
  = Py.Ok ([("x", array_desc)], [("y", array_desc)])
  /\ NoDup (Py.keys (arrays stream_graph))
  /\ cloning_ok (arrays stream_graph)
       (c_arrays (clone_arrays stream_graph [("x", array_desc)]
                    [("y", array_desc)]))
       (cloned_arrays (clone_arrays stream_graph [("x", array_desc)]
                         [("y", array_desc)])).
Proof.
  assert (H : classify (fun _ => None) (fun _ => false) [] stream_graph
              = Py.Ok ([("x", array_desc)], [("y", array_desc)]))
    by by vm_compute.
  assert (Hnd : NoDup (Py.keys (arrays stream_graph)))
    by (apply (bool_decide_unpack _); by vm_compute).
  split; [exact H|]. split; [exact Hnd|].
  exact (proj1 (classified_arrays_get_one_shadow _ _ _ _ _ _ H Hnd)).
Defined.

Lemma stream_graph_tables :
  NoDup (Py.keys (arrays stream_graph))
  /\ from_table (arrays stream_graph) [("x", array_desc)]
  /\ from_table (arrays stream_graph) [("y", array_desc)].
Proof.
  split; [apply (bool_decide_unpack _); by vm_compute|].
  split; intros n d H; apply list_elem_of_singleton in H;
    by injection H as -> ->.
Defined.

Lemma clone_arrays_inputs_and_clones_witness :
  NoDup (Py.keys (arrays stream_graph))
  /\ from_table (arrays stream_graph) [("x", array_desc)]
  /\ from_table (arrays stream_graph) [("y", array_desc)]
  /\ input_nodes (clone_arrays stream_graph [("x", array_desc)]
                    [("y", array_desc)])
     = [("x", array_desc)]
  /\ exists extra,
       input_nodes (clone_arrays stream_graph [("x", array_desc)]
                      [("y", array_desc)])
       = [("x", array_desc)] ++ extra
       /\ NoDup extra.
Proof.
  destruct stream_graph_tables as (H1 & H2 & H3).
  split; [exact H1|]. split; [exact H2|]. split; [exact H3|].
  split; [by vm_compute|].
  destruct (clone_arrays_inputs_and_clones stream_graph _ _ H1 H2 H3)
    as (_ & extra & He & Hnd & _).
  exists extra. by split.
Defined.

Lemma redirect_leaves_no_host_reference_witness :
  NoDup (Py.keys (arrays stream_graph))
  /\ from_table (arrays stream_graph) [("x", array_desc)]
  /\ from_table (arrays stream_graph) [("y", array_desc)]
  /\ state_refs
       (redirect_state
          (cloned_arrays (clone_arrays stream_graph [("x", array_desc)]
                            [("y", array_desc)]))
          (writer_state "y" full_range))
     = ["gpu_y"; "gpu_y"]
  /\ forall d,
       d ∈ state_refs
             (redirect_state
                (cloned_arrays (clone_arrays stream_graph [("x", array_desc)]
                                  [("y", array_desc)]))
                (writer_state "y" full_range)) ->
       d ∉ Py.keys (cloned_arrays (clone_arrays stream_graph
                                     [("x", array_desc)] [("y", array_desc)])).
Proof.
  destruct stream_graph_tables as (H1 & H2 & H3).
  split; [exact H1|]. split; [exact H2|]. split; [exact H3|].
  split; [by vm_compute|].
  exact (proj1 (proj2 (redirect_leaves_no_host_reference stream_graph _ _
                         (writer_state "y" full_range) H1 H2 H3))).
Defined.

Lemma copy_states_after_cloning_witness :
  (forall l : list (string * Data), remove_dups l ≡ₚ remove_dups l)
  /\ NoDup (Py.keys (arrays stream_graph))
  /\ from_table (arrays stream_graph) [("x", array_desc)]
  /\ from_table (arrays stream_graph) [("y", array_desc)]
  /\ copies remove_dups EmptyString
       (input_nodes (clone_arrays stream_graph [("x", array_desc)]
                       [("y", array_desc)]))
       (cloned_arrays (clone_arrays stream_graph [("x", array_desc)]
                         [("y", array_desc)]))
     = [("x", "gpu_x")]
  /\ copies remove_dups EmptyString [("y", array_desc)]
       (cloned_arrays (clone_arrays stream_graph [("x", array_desc)]
                         [("y", array_desc)]))
     = [("y", "gpu_y")]
  /\ NoDup (copies remove_dups EmptyString
              (input_nodes (clone_arrays stream_graph [("x", array_desc)]
                              [("y", array_desc)]))
              (cloned_arrays (clone_arrays stream_graph [("x", array_desc)]
                                [("y", array_desc)]))).*1.
Proof.
  destruct stream_graph_tables as (H1 & H2 & H3).
  assert (H0 : forall l : list (string * Data), remove_dups l ≡ₚ remove_dups l)
    by done.
  split; [exact H0|].
  split; [exact H1|]. split; [exact H2|]. split; [exact H3|].
  split; [by vm_compute|]. split; [by vm_compute|].
  exact (proj1 (copy_states_after_cloning remove_dups H0 stream_graph _ _
                  EmptyString EmptyString H1 H2 H3)).
Defined.

End OffloadMore.

(** ** More on step 6 of the device offload *)

Module PromoteMore.
Import Symbolic Dtypes GPUTransformSDFG CloningFacts ScanFacts ScanMore.

Section WithExternals.
Context `{Ext : Externals}.

#[local] Instance promoted_refl : Reflexive promoted.
Proof. intros a. split; [done|]. intros k desc H. by exists desc. Qed.

#[local] Instance promoted_trans : Transitive promoted.
Proof.
  intros a b c [Hk1 H1] [Hk2 H2]. split; [by rewrite Hk2|].
  intros k desc Hd.
  destruct (H1 k desc Hd) as (d1 & Hd1 & Ht1 & Hc1 & Hf1).
  destruct (H2 k d1 Hd1) as (d2 & Hd2 & Ht2 & Hc2 & Hf2).
  exists d2. split_and!; [done|congruence|congruence|].
  intros Hfrozen. rewrite <- (Hf1 Hfrozen). apply Hf2.
  by rewrite (Hf1 Hfrozen).
Qed.

(** A descriptor of the table replaced by one that is a transient or not
    and of its class as before. *)
Lemma set_promoted (arrays : Py.dict Data) (d : string) (desc desc' : Data) :
  Py.get d arrays = Some desc ->
  transient desc = true ->
  storage desc ∉ gpu_storage ->
  transient desc' = transient desc ->
  dclass desc' = dclass desc ->
  promoted arrays (Py.set d desc' arrays).
Proof.
  intros Hd Ht Hs Ht' Hc'. split.
  - rewrite keys_set. unfold Py.mem. by rewrite Hd.
  - intros k desc0 Hk. destruct (decide (k = d)) as [->|Hne].
    + rewrite get_set_eq. rewrite Hd in Hk. injection Hk as <-.
      exists desc'. split_and!; [done|done|done|].
      intros [?|?]; [done|congruence].
    + rewrite get_set_ne by done. by exists desc0.
Qed.

Section Promote.
Variable host_data : list string.
Variable toplevel_trans register_trans : bool.
Variable const_syms : gset string.
Variable desc_free_symbols : Data -> gset string.

Lemma promote_node_promoted (gs : gset string) (state : SDFGState)
    (a a' : Py.dict Data) (node : Node) :
  promote_node host_data toplevel_trans register_trans const_syms
    desc_free_symbols gs state a node = Py.Ok a' ->
  promoted a a'.
Proof.
  intros H. unfold promote_node in H.
  destruct (kind node) as [d| | | | |]; try (injection H as <-; reflexivity).
  destruct (Py.get d a) as [nodedesc|] eqn:Hd; [|discriminate H].
  destruct (transient nodedesc) eqn:Ht; [|injection H as <-; reflexivity].
  destruct (leads_to_scope state (out_edges state node)) as [b|];
    [|discriminate H].
  cbn [mbind Py.result_bind] in H.
  destruct b; [injection H as <-; reflexivity|].
  destruct (decide (storage nodedesc ∈ gpu_storage)) as [Hs|Hs].
  { rewrite (bool_decide_false (storage nodedesc ∉ gpu_storage)) in H
      by (intros Hn; by apply Hn).
    rewrite andb_false_r in H. injection H as <-. reflexivity. }
  rewrite (bool_decide_true (storage nodedesc ∉ gpu_storage)) in H by done.
  destruct (bool_decide (entry_node state node = None)); cbn [andb] in H.
  - destruct (bool_decide (dclass nodedesc = Scalar) && bool_decide (d ∉ gs));
      [injection H as <-; reflexivity|].
    injection H as <-. apply (set_promoted a d nodedesc); try done.
    + destruct (_ && _ && _); by destruct (bool_decide (d ∉ host_data)).
    + destruct (_ && _ && _); by destruct (bool_decide (d ∉ host_data)).
  - destruct register_trans; injection H as <-; [|reflexivity].
    by apply (set_promoted a d nodedesc).
Qed.

(** One turn of the loop on a transient at top level that is not kept on
    the host and not a scalar left unmarked. *)
Lemma promote_node_top_level (gs : gset string) (state : SDFGState)
    (a a' : Py.dict Data) (node : Node) (d : string) (desc : Data) :
  kind node = AccessNode d ->
  Py.get d a = Some desc ->
  transient desc = true ->
  leads_to_scope state (out_edges state node) = Py.Ok false ->
  entry_node state node = None ->
  ¬ (dclass desc = Scalar /\ d ∉ gs) ->
  d ∉ host_data ->
  promote_node host_data toplevel_trans register_trans const_syms
    desc_free_symbols gs state a node = Py.Ok a' ->
  exists desc', Py.get d a' = Some desc' /\ storage desc' ∈ gpu_storage.
Proof.
  intros Hkind Hd Ht Hl He Hsc Hh H. unfold promote_node in H.
  rewrite Hkind, Hd, Ht, Hl in H. cbn [mbind Py.result_bind] in H.
  rewrite (bool_decide_true _ He) in H. cbn [andb] in H.
  destruct (decide (storage desc ∈ gpu_storage)) as [Hs|Hs].
  { rewrite (bool_decide_false (storage desc ∉ gpu_storage)) in H
      by (intros Hn; by apply Hn).
    injection H as <-. by exists desc. }
  rewrite (bool_decide_true (storage desc ∉ gpu_storage)) in H by done.
  assert (Hno : bool_decide (dclass desc = Scalar) && bool_decide (d ∉ gs)
                = false).
  { destruct (bool_decide (dclass desc = Scalar)) eqn:H1; [|done].
    destruct (bool_decide (d ∉ gs)) eqn:H2; [|done].
    apply bool_decide_eq_true in H1, H2. by destruct Hsc. }
  rewrite Hno in H. injection H as <-. rewrite get_set_eq.
  rewrite (bool_decide_true _ Hh). eexists. split; [reflexivity|].
  assert (Hin : GPU_Global ∈ gpu_storage) by (unfold gpu_storage; left).
  by destruct (_ && _ && _).
Qed.

(** Step 6 keeps the names of the descriptor table and their order, and
    leaves every descriptor that is no transient, or that is in GPU
    storage already, as it is; and a transient with an access node at top
    level, none of whose edges leads to a scope entry, that is not host
    data and is not a scalar left unmarked by step 5, is in GPU storage
    after the step, in whatever order the loop meets the access nodes of
    the array, those at top level and those inside scopes. *)
Theorem promote_transients_moves_top_level (sdfg : SDFG) (gs : gset string)
    (arrays' : Py.dict Data) :
  promote_transients host_data toplevel_trans register_trans const_syms
    desc_free_symbols sdfg gs = Py.Ok arrays' ->
  Py.keys arrays' = Py.keys (arrays sdfg)
  /\ (forall k desc,
        Py.get k (arrays sdfg) = Some desc ->
        storage desc ∈ gpu_storage \/ transient desc = false ->
        Py.get k arrays' = Some desc)
  /\ (forall state node d desc,
        state ∈ states sdfg -> node ∈ nodes state ->
        kind node = AccessNode d ->
        Py.get d (arrays sdfg) = Some desc ->
        transient desc = true ->
        leads_to_scope state (out_edges state node) = Py.Ok false ->
        entry_node state node = None ->
        ¬ (dclass desc = Scalar /\ d ∉ gs) ->
        d ∉ host_data ->
        exists desc',
          Py.get d arrays' = Some desc' /\ storage desc' ∈ gpu_storage).
Proof.
  intros H. unfold promote_transients in H.
  set (body := promote_node host_data toplevel_trans register_trans const_syms
                 desc_free_symbols gs) in H.
  assert (Hnodes : forall state a a',
            Py.for_each (body state) (nodes state) a = Py.Ok a' ->
            promoted a a').
  { intros state a a'. apply (for_each_mono _ promoted).
    intros a1 node a2. apply promote_node_promoted. }
  pose proof (for_each_mono _ promoted _ _ _
                (fun a state a' => Hnodes state a a') H) as [Hkeys Hall].
  split; [done|]. split.
  - intros k desc Hk Hfrozen.
    destruct (Hall k desc Hk) as (desc' & Hk' & _ & _ & Hsame).
    by rewrite Hk', (Hsame Hfrozen).
  - intros state node d desc Hstate Hnode Hkind Hd Ht Hl He Hsc Hh.
    destruct (for_each_visits _ promoted _ _ _ state
                (fun a st a' => Hnodes st a a') H Hstate)
      as (a1 & a2 & [_ Ha1] & Hst & [_ Ha2]).
    destruct (for_each_visits _ promoted _ _ _ node
                (fun a n a' => promote_node_promoted gs state a a' n) Hst Hnode)
      as (b1 & b2 & [_ Hb1] & Hstep & [_ Hb2]).
    destruct (Ha1 d desc Hd) as (d1 & Hd1 & Ht1 & Hc1 & _).
    destruct (Hb1 d d1 Hd1) as (d2 & Hd2 & Ht2 & Hc2 & _).
    destruct (promote_node_top_level gs state b1 b2 node d d2 Hkind Hd2)
      as (d3 & Hd3 & Hs3); [congruence|done|done| |done|exact Hstep|].
    { rewrite Hc2, Hc1. exact Hsc. }
    destruct (Hb2 d d3 Hd3) as (d4 & Hd4 & _ & _ & Hf4).
    rewrite (Hf4 (or_introl Hs3)) in Hd4.
    destruct (Ha2 d d3 Hd4) as (d5 & Hd5 & _ & _ & Hf5).
    rewrite (Hf5 (or_introl Hs3)) in Hd5.
    by exists d3.
Qed.

End Promote.
End WithExternals.

Import Examples.

(** The theorem on the graph with the transient [tmp], written at top
    level: the step moves it to GPU global storage. *)
Lemma promote_transients_moves_top_level_witness :
  exists arrays',
    promote_transients [] true true ∅ (fun _ => ∅) stream_graph ∅
    = Py.Ok arrays'
    /\ Py.get "tmp" arrays'
       = Some (with_lifetime (with_storage scratch_desc GPU_Global)
                 SDFG_Lifetime)
    /\ exists desc',
         Py.get "tmp" arrays' = Some desc' /\ storage desc' ∈ gpu_storage.
Proof.
  eexists. split; [by vm_compute|]. split; [by vm_compute|].
  assert (Hrun : promote_transients [] true true ∅ (fun _ => ∅) stream_graph ∅
                 = Py.Ok [("x", array_desc); ("y", array_desc);
                          ("tmp", with_lifetime
                                    (with_storage scratch_desc GPU_Global)
                                    SDFG_Lifetime)])
    by by vm_compute.
  apply (proj2 (proj2 (promote_transients_moves_top_level _ _ _ _ _ _ _ _ Hrun))
           stream_state scratch_node "tmp" scratch_desc).
  - apply elem_of_cons. by left.
  - do 3 (apply elem_of_cons; right). apply elem_of_cons. by left.
  - done.
  - done.
  - done.
  - by vm_compute.
  - done.
  - by intros [? _].
  - apply not_elem_of_nil.
Defined.

End PromoteMore.

(** ** More on step 8 of the device offload *)

Module CopyOutMore.
Import Symbolic Dtypes GPUTransformSDFG CloningFacts ScanFacts ScanMore.

Section WithExternals.
Context `{Ext : Externals}.

Lemma add_datadesc_grows (arrays : Py.dict Data) (name : string) (desc : Data) :
  NoDup (Py.keys arrays) ->
  let r := add_datadesc arrays name desc in
  NoDup (Py.keys r.1)
  /\ (forall k d, Py.get k arrays = Some d -> Py.get k r.1 = Some d)
  /\ (forall k, k ∈ Py.keys arrays -> k ∈ Py.keys r.1)
  /\ r.2 ∈ Py.keys r.1
  /\ r.2 = find_new_name name (Py.keys arrays).
Proof.
  intros Hnd. unfold add_datadesc. cbn [fst snd].
  set (g := find_new_name name (Py.keys arrays)).
  assert (Hg : g ∉ Py.keys arrays) by apply find_new_name_fresh.
  rewrite (set_new_key arrays g desc Hg). unfold Py.keys in *.
  rewrite fmap_app. split_and!.
  - apply NoDup_app. split_and!; [done| |apply NoDup_singleton].
    intros k Hk Hk'. apply list_elem_of_singleton in Hk' as ->. done.
  - intros k d Hk. rewrite <- (set_new_key arrays g desc Hg).
    rewrite get_set_ne; [done|]. intros <-. apply Hg.
    apply key_get_Some. eauto.
  - intros k Hk. apply elem_of_app. by left.
  - apply elem_of_app. right. simpl. left.
  - done.
Qed.

Lemma host_name_of_spec (arrays : Py.dict Data)
    (table : Py.dict (option string)) (n : string) :
  NoDup (Py.keys arrays) ->
  n ∈ Py.keys table ->
  n ∈ Py.keys arrays ->
  (forall m h, Py.get m table = Some (Some h) -> h ∈ Py.keys arrays) ->
  exists arrays' table' h,
    host_name_of arrays table n = Py.Ok (arrays', table', h)
    /\ NoDup (Py.keys arrays')
    /\ (forall k d, Py.get k arrays = Some d -> Py.get k arrays' = Some d)
    /\ (forall k, k ∈ Py.keys arrays -> k ∈ Py.keys arrays')
    /\ h ∈ Py.keys arrays'
    /\ Py.keys table' = Py.keys table
    /\ Py.get n table' = Some (Some h)
    /\ (forall m, m ≠ n -> Py.get m table' = Py.get m table)
    /\ (named table n -> arrays' = arrays /\ table' = table)
    /\ (¬ named table n ->
        h = find_new_name ("host_" +:+ n) (Py.keys arrays)).
Proof.
  intros Hnd Hn Ha Hkept. unfold host_name_of.
  apply key_get_Some in Hn as [hostname Hh]. rewrite Hh.
  apply key_get_Some in Ha as [desc Hd].
  assert (Hnew :
    exists arrays' table' h,
      (let '(arrays', h) :=
         add_datadesc arrays ("host_" +:+ n) (host_clone desc) in
       Py.Ok (arrays', Py.set n (Some h) table, h))
      = Py.Ok (arrays', table', h)
      /\ NoDup (Py.keys arrays')
      /\ (forall k d, Py.get k arrays = Some d -> Py.get k arrays' = Some d)
      /\ (forall k, k ∈ Py.keys arrays -> k ∈ Py.keys arrays')
      /\ h ∈ Py.keys arrays'
      /\ Py.keys table' = Py.keys table
      /\ Py.get n table' = Some (Some h)
      /\ (forall m, m ≠ n -> Py.get m table' = Py.get m table)
      /\ h = find_new_name ("host_" +:+ n) (Py.keys arrays)).
  { destruct (add_datadesc_grows arrays ("host_" +:+ n) (host_clone desc) Hnd)
      as (H1 & H2 & H3 & H4 & H5).
    destruct (add_datadesc arrays ("host_" +:+ n) (host_clone desc))
      as [arrays' h]. cbn [fst snd] in *.
    exists arrays', (Py.set n (Some h) table), h.
    split_and!; try done.
    - rewrite keys_set. unfold Py.mem. by rewrite Hh.
    - apply get_set_eq.
    - intros m Hm. by apply get_set_ne. }
  destruct hostname as [[|c h]|].
  - rewrite Hd. destruct Hnew as (a' & t' & h & E & Hrest).
    exists a', t', h. split; [exact E|].
    destruct Hrest as (H1 & H2 & H3 & H4 & H5 & H6 & H7 & H8).
    split_and!; try done.
    intros (h' & Hh' & Hname). rewrite Hh in Hh'. by injection Hh' as <-.
  - assert (Hin : String c h ∈ Py.keys arrays) by by eapply Hkept.
    apply key_get_Some in Hin as [d' Hd']. rewrite Hd'.
    exists arrays, table, (String c h). split_and!; try done.
    + apply key_get_Some. eauto.
    + intros Hno. destruct Hno. by exists (String c h).
  - rewrite Hd. destruct Hnew as (a' & t' & h & E & Hrest).
    exists a', t', h. split; [exact E|].
    destruct Hrest as (H1 & H2 & H3 & H4 & H5 & H6 & H7 & H8).
    split_and!; try done.
    intros (h' & Hh' & Hname). rewrite Hh in Hh'. discriminate Hh'.
Qed.

(** One turn of the loop of [_create_copy_out]. *)
Lemma copy_out_one_spec (cloned : Py.dict string) (st : CopyOut) (n : string) :
  host_names_kept st ->
  n ∈ Py.keys (co_arrays st) ->
  n ∈ Py.keys (co_gpu_scalars st) \/ n ∈ Py.keys (co_on_gpu st)
  \/ n ∈ Py.keys cloned ->
  exists st' dev host,
    copy_out_one cloned st n = Py.Ok st'
    /\ host_names_kept st'
    /\ (forall k d, Py.get k (co_arrays st) = Some d ->
        Py.get k (co_arrays st') = Some d)
    /\ (forall k, k ∈ Py.keys (co_arrays st) -> k ∈ Py.keys (co_arrays st'))
    /\ Py.keys (co_gpu_scalars st') = Py.keys (co_gpu_scalars st)
    /\ Py.keys (co_on_gpu st') = Py.keys (co_on_gpu st)
    /\ (forall m, m ≠ n ->
        Py.get m (co_gpu_scalars st') = Py.get m (co_gpu_scalars st)
        /\ Py.get m (co_on_gpu st') = Py.get m (co_on_gpu st))
    /\ co_copies st' = co_copies st ++ [(dev, host)]
    /\ host ∈ Py.keys (co_arrays st')
    /\ (n ∈ Py.keys (co_gpu_scalars st) ->
        dev = n /\ Py.get n (co_gpu_scalars st') = Some (Some host)
        /\ co_on_gpu st' = co_on_gpu st
        /\ (named (co_gpu_scalars st) n ->
            co_arrays st' = co_arrays st
            /\ co_gpu_scalars st' = co_gpu_scalars st)
        /\ (¬ named (co_gpu_scalars st) n ->
            host = find_new_name ("host_" +:+ n) (Py.keys (co_arrays st))))
    /\ (n ∉ Py.keys (co_gpu_scalars st) -> n ∈ Py.keys (co_on_gpu st) ->
        dev = n /\ Py.get n (co_on_gpu st') = Some (Some host)
        /\ co_gpu_scalars st' = co_gpu_scalars st
        /\ (named (co_on_gpu st) n ->
            co_arrays st' = co_arrays st /\ co_on_gpu st' = co_on_gpu st)
        /\ (¬ named (co_on_gpu st) n ->
            host = find_new_name ("host_" +:+ n) (Py.keys (co_arrays st))))
    /\ (n ∉ Py.keys (co_gpu_scalars st) -> n ∉ Py.keys (co_on_gpu st) ->
        host = n /\ Py.get n cloned = Some dev
        /\ co_arrays st' = co_arrays st
        /\ co_gpu_scalars st' = co_gpu_scalars st
        /\ co_on_gpu st' = co_on_gpu st).
Proof.
  intros (Hnd & Hgs & Hog) Ha Hwhere. unfold copy_out_one.
  destruct (Py.mem n (co_gpu_scalars st)) eqn:Hm1.
  - apply mem_true_key in Hm1.
    destruct (host_name_of_spec (co_arrays st) (co_gpu_scalars st) n
                Hnd Hm1 Ha Hgs)
      as (a' & t' & h & -> & H1 & H2 & H3 & H4 & H5 & H6 & H7 & H8 & H9).
    cbn [mbind Py.result_bind fst snd].
    apply key_get_Some in H4 as Hh. destruct Hh as [dh Hdh]. rewrite Hdh.
    eexists _, n, h. split; [reflexivity|]. cbn.
    split_and!; try done.
    + split_and!; cbn; [done| |].
      * intros m h' Hm. destruct (decide (m = n)) as [->|Hne].
        -- rewrite H6 in Hm. by injection Hm as <-.
        -- rewrite H7 in Hm by done. by apply H3, (Hgs m).
      * intros m h' Hm. by apply H3, (Hog m).
    + intros m Hm. by split; [apply H7|].
  - assert (Hno1 : n ∉ Py.keys (co_gpu_scalars st)).
    { intros Hin. apply mem_true_key in Hin. congruence. }
    destruct (Py.mem n (co_on_gpu st)) eqn:Hm2.
    + apply mem_true_key in Hm2.
      destruct (host_name_of_spec (co_arrays st) (co_on_gpu st) n
                  Hnd Hm2 Ha Hog)
        as (a' & t' & h & -> & H1 & H2 & H3 & H4 & H5 & H6 & H7 & H8 & H9).
      cbn [mbind Py.result_bind fst snd].
      apply key_get_Some in H4 as Hh. destruct Hh as [dh Hdh]. rewrite Hdh.
      eexists _, n, h. split; [reflexivity|]. cbn.
      split_and!; try done.
      * split_and!; cbn; [done| |].
        -- intros m h' Hm. by apply H3, (Hgs m).
        -- intros m h' Hm. destruct (decide (m = n)) as [->|Hne].
           ++ rewrite H6 in Hm. by injection Hm as <-.
           ++ rewrite H7 in Hm by done. by apply H3, (Hog m).
      * intros m Hm. by split; [|apply H7].
    + assert (Hno2 : n ∉ Py.keys (co_on_gpu st)).
      { intros Hin. apply mem_true_key in Hin. congruence. }
      destruct Hwhere as [?|[?|Hc]]; [done|done|].
      apply key_get_Some in Ha as Hd. destruct Hd as [d Hd].
      apply key_get_Some in Hc as [dev Hdev]. rewrite Hd, Hdev.
      cbn [mbind Py.result_bind]. rewrite Hd.
      eexists _, dev, n. split; [reflexivity|]. cbn.
      split_and!; try done.
Qed.

Lemma classic_named (table : Py.dict (option string)) (n : string) :
  named table n \/ ¬ named table n.
Proof.
  unfold named. destruct (Py.get n table) as [[[|c h]|]|] eqn:Hg.
  - right. intros (h & [= <-] & Hn). discriminate Hn.
  - left. by exists (String c h).
  - right. by intros (h & [=] & _).
  - right. by intros (h & [=] & _).
Qed.

Lemma named_resolved (table : Py.dict (option string)) (n : string) :
  named table n -> resolved table n.
Proof. intros (h & Hh & Hn). exists h. split; [done|by left]. Qed.

(** All turns of the loop, from any value of the copies and the
    mapping. *)
Lemma copy_out_loop (cloned : Py.dict string) (l : list string) (st : CopyOut) :
  host_names_kept st ->
  device_names cloned st l ->
  exists st',
    Py.for_each (copy_out_one cloned) l st = Py.Ok st'
    /\ host_names_kept st'
    /\ (forall k d, Py.get k (co_arrays st) = Some d ->
        Py.get k (co_arrays st') = Some d)
    /\ (forall k, k ∈ Py.keys (co_arrays st) -> k ∈ Py.keys (co_arrays st'))
    /\ Py.keys (co_gpu_scalars st') = Py.keys (co_gpu_scalars st)
    /\ Py.keys (co_on_gpu st') = Py.keys (co_on_gpu st)
    /\ (forall m, resolved (co_gpu_scalars st) m ->
        resolved (co_gpu_scalars st') m)
    /\ (forall m, resolved (co_on_gpu st) m -> resolved (co_on_gpu st') m)
    /\ (forall x, x ∈ co_copies st -> x ∈ co_copies st')
    /\ (forall n, n ∈ l ->
        exists dev host,
          (dev, host) ∈ co_copies st'
          /\ host ∈ Py.keys (co_arrays st')
          /\ (n ∈ Py.keys (co_gpu_scalars st) ->
              dev = n /\ resolved (co_gpu_scalars st') n)
          /\ (n ∉ Py.keys (co_gpu_scalars st) -> n ∈ Py.keys (co_on_gpu st) ->
              dev = n /\ resolved (co_on_gpu st') n)
          /\ (n ∉ Py.keys (co_gpu_scalars st) -> n ∉ Py.keys (co_on_gpu st) ->
              host = n /\ Py.get n cloned = Some dev)).
Proof.
  revert st. induction l as [|n l IH]; intros st Hkept Hdev.
  - exists st. split_and!; try done. intros n Hn. by apply elem_of_nil in Hn.
  - destruct (Hdev n ltac:(left)) as [Ha Hwhere].
    destruct (copy_out_one_spec cloned st n Hkept Ha Hwhere)
      as (st1 & dev & host & Hstep & Hkept1 & Hget1 & Hkeys1 & Hgs1 & Hog1
          & Hother & Hcopies & Hhost & Hcase1 & Hcase2 & Hcase3).
    assert (Hdev1 : device_names cloned st1 l).
    { intros m Hm. destruct (Hdev m ltac:(by right)) as [Hma Hmw].
      split; [by apply Hkeys1|]. by rewrite Hgs1, Hog1. }
    destruct (IH st1 Hkept1 Hdev1)
      as (st' & Hrun & Hkept' & Hget' & Hkeys' & Hgs' & Hog' & Hres1 & Hres2
          & Hcop & Hall).
    assert (Hstep_gs : forall m, resolved (co_gpu_scalars st) m ->
                                 resolved (co_gpu_scalars st1) m).
    { intros m (h & Hh & Hr). destruct (decide (m = n)) as [->|Hne].
      - assert (Hin : n ∈ Py.keys (co_gpu_scalars st))
          by (apply key_get_Some; eauto).
        destruct (Hcase1 Hin) as (_ & Hg & _ & Hnamed & Hfresh).
        destruct (classic_named (co_gpu_scalars st) n) as [Hn|Hn].
        + destruct (Hnamed Hn) as [_ ->]. by exists h.
        + exists host. split; [done|]. right. eexists. by apply Hfresh.
      - exists h. split; [|done]. by rewrite (proj1 (Hother m Hne)). }
    assert (Hstep_og : forall m, resolved (co_on_gpu st) m ->
                                 resolved (co_on_gpu st1) m).
    { intros m (h & Hh & Hr). destruct (decide (m = n)) as [->|Hne].
      - assert (Hin : n ∈ Py.keys (co_on_gpu st))
          by (apply key_get_Some; eauto).
        destruct (decide (n ∈ Py.keys (co_gpu_scalars st))) as [Hin1|Hno1].
        + destruct (Hcase1 Hin1) as (_ & _ & -> & _). by exists h.
        + destruct (Hcase2 Hno1 Hin) as (_ & Hg & _ & Hnamed & Hfresh).
          destruct (classic_named (co_on_gpu st) n) as [Hn|Hn].
          * destruct (Hnamed Hn) as [_ ->]. by exists h.
          * exists host. split; [done|]. right. eexists. by apply Hfresh.
      - exists h. split; [|done]. by rewrite (proj2 (Hother m Hne)). }
    exists st'. cbn [Py.for_each]. rewrite Hstep. cbn [mbind Py.result_bind].
    split; [exact Hrun|]. split; [done|].
    split; [intros k d Hk; by apply Hget', Hget1|].
    split; [intros k Hk; by apply Hkeys', Hkeys1|].
    split; [by rewrite Hgs'|]. split; [by rewrite Hog'|].
    split; [intros m Hm; by apply Hres1, Hstep_gs|].
    split; [intros m Hm; by apply Hres2, Hstep_og|].
    split.
    { intros x Hx. apply Hcop. rewrite Hcopies. apply elem_of_app. by left. }
    intros m Hm. apply elem_of_cons in Hm as [->|Hm].
    + exists dev, host. split_and!.
      * apply Hcop. rewrite Hcopies. apply elem_of_app. right. left.
      * by apply Hkeys'.
      * intros Hin. destruct (Hcase1 Hin) as (-> & Hg & _ & Hnamed & Hfresh).
        split; [done|]. apply Hres1.
        destruct (classic_named (co_gpu_scalars st) n) as [Hn|Hn].
        -- destruct (Hnamed Hn) as [_ ->]. by apply named_resolved.
        -- exists host. split; [done|]. right. eexists. by apply Hfresh.
      * intros Hno Hin.
        destruct (Hcase2 Hno Hin) as (-> & Hg & _ & Hnamed & Hfresh).
        split; [done|]. apply Hres2.
        destruct (classic_named (co_on_gpu st) n) as [Hn|Hn].
        -- destruct (Hnamed Hn) as [_ ->]. by apply named_resolved.
        -- exists host. split; [done|]. right. eexists. by apply Hfresh.
      * intros Hno1 Hno2. destruct (Hcase3 Hno1 Hno2) as (-> & Hc & _). done.
    + destruct (Hall m Hm) as (dev' & host' & H1 & H2 & H3 & H4 & H5).
      exists dev', host'. split_and!; [done|done| | |].
      * intros Hin. apply H3. by rewrite Hgs1.
      * intros Hno Hin. apply H4; by rewrite ?Hgs1, ?Hog1.
      * intros Hno1 Hno2. apply H5; by rewrite ?Hgs1, ?Hog1.
Qed.

(** The loop on names whose host names are kept already. *)
Lemma copy_out_loop_stable (cloned : Py.dict string) (l : list string)
    (st : CopyOut) :
  host_names_kept st ->
  device_names cloned st l ->
  (forall n, n ∈ l ->
     (n ∈ Py.keys (co_gpu_scalars st) -> named (co_gpu_scalars st) n)
     /\ (n ∉ Py.keys (co_gpu_scalars st) -> n ∈ Py.keys (co_on_gpu st) ->
         named (co_on_gpu st) n)) ->
  exists st',
    Py.for_each (copy_out_one cloned) l st = Py.Ok st'
    /\ co_arrays st' = co_arrays st
    /\ co_gpu_scalars st' = co_gpu_scalars st
    /\ co_on_gpu st' = co_on_gpu st.
Proof.
  revert st. induction l as [|n l IH]; intros st Hkept Hdev Hnamed.
  - by exists st.
  - destruct (Hdev n ltac:(left)) as [Ha Hwhere].
    destruct (copy_out_one_spec cloned st n Hkept Ha Hwhere)
      as (st1 & dev & host & Hstep & Hkept1 & _ & _ & _ & _
          & _ & _ & _ & Hcase1 & Hcase2 & Hcase3).
    destruct (Hnamed n ltac:(left)) as [Hn1 Hn2].
    assert (Hsame : co_arrays st1 = co_arrays st
                    /\ co_gpu_scalars st1 = co_gpu_scalars st
                    /\ co_on_gpu st1 = co_on_gpu st).
    { destruct (decide (n ∈ Py.keys (co_gpu_scalars st))) as [Hin1|Hno1].
      - destruct (Hcase1 Hin1) as (_ & _ & Hog & Hnm & _).
        destruct (Hnm (Hn1 Hin1)) as [-> ->]. done.
      - destruct (decide (n ∈ Py.keys (co_on_gpu st))) as [Hin2|Hno2].
        + destruct (Hcase2 Hno1 Hin2) as (_ & _ & Hgs & Hnm & _).
          destruct (Hnm (Hn2 Hno1 Hin2)) as [-> ->]. done.
        + destruct (Hcase3 Hno1 Hno2) as (_ & _ & -> & -> & ->). done. }
    destruct Hsame as (E1 & E2 & E3).
    destruct (IH st1 Hkept1) as (st' & Hrun & F1 & F2 & F3).
    + intros m Hm. destruct (Hdev m ltac:(by right)) as [Hma Hmw].
      by rewrite E1, E2, E3.
    + intros m Hm. rewrite E2, E3. apply Hnamed. by right.
    + exists st'. cbn [Py.for_each]. rewrite Hstep. cbn [mbind Py.result_bind].
      split; [exact Hrun|]. by rewrite F1, F2, F3.
Qed.

Section InterimCopyOut.
Variable names_iter : list string -> list string.
Hypothesis names_iter_perm : forall l, names_iter l ≡ₚ remove_dups l.

(** [_create_copy_out] returns for every set of names that are in the
    descriptor table and are scalars on the device, data found on the
    device or arrays with a shadow: no lookup fails.  It keeps every
    descriptor, the names of the table stay distinct and every host name
    kept is a name of the table; and for every name used the interim
    state gets a copy to a host array of the table: from the name itself
    when it is on the device, to the name itself from its shadow
    otherwise. *)
Theorem create_copy_out_returns (cloned : Py.dict string) (st : CopyOut)
    (arrays_used : list string) :
  host_names_kept st ->
  device_names cloned st arrays_used ->
  exists st',
    _create_copy_out names_iter cloned st arrays_used = Py.Ok st'
    /\ host_names_kept st'
    /\ (forall k d, Py.get k (co_arrays st) = Some d ->
        Py.get k (co_arrays st') = Some d)
    /\ (forall n, n ∈ arrays_used ->
        exists dev host,
          (dev, host) ∈ co_copies st'
          /\ host ∈ Py.keys (co_arrays st')
          /\ (n ∈ Py.keys (co_gpu_scalars st) \/ n ∈ Py.keys (co_on_gpu st) ->
              dev = n)
          /\ (n ∉ Py.keys (co_gpu_scalars st) -> n ∉ Py.keys (co_on_gpu st) ->
              host = n /\ Py.get n cloned = Some dev)).
Proof.
  intros Hkept Hdev. unfold _create_copy_out.
  set (st0 := {| co_arrays := co_arrays st;
                 co_gpu_scalars := co_gpu_scalars st;
                 co_on_gpu := co_on_gpu st; co_copies := [];
                 co_mapping := [] |}).
  assert (Hmem : forall n, n ∈ names_iter arrays_used <-> n ∈ arrays_used).
  { intros n. by rewrite names_iter_perm, elem_of_remove_dups. }
  destruct (copy_out_loop cloned (names_iter arrays_used) st0)
    as (st' & Hrun & Hkept' & Hget & _ & _ & _ & _ & _ & _ & Hall).
  - exact Hkept.
  - intros n Hn. apply Hdev. by apply Hmem.
  - exists st'. split; [exact Hrun|]. split; [done|]. split; [exact Hget|].
    intros n Hn. destruct (Hall n (proj2 (Hmem n) Hn))
      as (dev & host & H1 & H2 & H3 & H4 & H5).
    exists dev, host. split_and!; [done|done| |exact H5].
    intros [Hin|Hin].
    + by destruct (H3 Hin).
    + destruct (decide (n ∈ Py.keys (co_gpu_scalars st0))) as [Hin1|Hno1].
      * by destruct (H3 Hin1).
      * by destruct (H4 Hno1 Hin).
Qed.

(** The host copies are made once: when [find_new_name] gives no empty
    name, a call of [_create_copy_out] after another, on names the earlier
    call was made on, returns and adds no descriptor and keeps the host
    names; the interim states of two blocks that use the same scalar copy
    it to the same host array. *)
Theorem create_copy_out_keeps_host_names (cloned : Py.dict string)
    (st st' : CopyOut) (arrays_used again : list string) :
  (forall n used, find_new_name ("host_" +:+ n) used ≠ EmptyString) ->
  host_names_kept st ->
  device_names cloned st arrays_used ->
  again ⊆ arrays_used ->
  _create_copy_out names_iter cloned st arrays_used = Py.Ok st' ->
  exists st'',
    _create_copy_out names_iter cloned st' again = Py.Ok st''
    /\ co_arrays st'' = co_arrays st'
    /\ co_gpu_scalars st'' = co_gpu_scalars st'
    /\ co_on_gpu st'' = co_on_gpu st'.
Proof.
  intros Hne Hkept Hdev Hsub Hrun1. unfold _create_copy_out in *.
  set (st0 := {| co_arrays := co_arrays st;
                 co_gpu_scalars := co_gpu_scalars st;
                 co_on_gpu := co_on_gpu st; co_copies := [];
                 co_mapping := [] |}) in *.
  assert (Hmem : forall l n, n ∈ names_iter l <-> n ∈ l).
  { intros l n. by rewrite names_iter_perm, elem_of_remove_dups. }
  destruct (copy_out_loop cloned (names_iter arrays_used) st0)
    as (st1 & Hrun & Hkept' & Hget & Hkeys & Hgs & Hog & _ & _ & _ & Hall).
  { exact Hkept. }
  { intros n Hn. apply Hdev. by apply Hmem. }
  rewrite Hrun in Hrun1. injection Hrun1 as ->.
  assert (Hnamed : forall table n, resolved table n -> named table n).
  { intros table n (h & Hh & [Hn|[used Hu]]); exists h; [done|].
    split; [done|]. specialize (Hne n used). rewrite <- Hu in Hne.
    by destruct h. }
  set (st2 := {| co_arrays := co_arrays st';
                 co_gpu_scalars := co_gpu_scalars st';
                 co_on_gpu := co_on_gpu st'; co_copies := [];
                 co_mapping := [] |}).
  apply (copy_out_loop_stable cloned (names_iter again) st2).
  - exact Hkept'.
  - intros n Hn. apply Hmem, Hsub in Hn. destruct (Hdev n Hn) as [Ha Hw].
    split; [by apply Hkeys|]. cbn [st2 co_gpu_scalars co_on_gpu].
    by rewrite Hgs, Hog.
  - intros n Hn. apply Hmem, Hsub in Hn.
    destruct (Hall n (proj2 (Hmem _ n) Hn)) as (dev & host & _ & _ & H3 & H4 & _).
    cbn [st2 co_gpu_scalars co_on_gpu]. rewrite Hgs, Hog. split.
    + intros Hin. apply Hnamed. by destruct (H3 Hin).
    + intros Hno Hin. apply Hnamed. by destruct (H4 Hno Hin).
Qed.

End InterimCopyOut.
End WithExternals.

Import Examples.

Lemma interim_tables_ready :
  (forall l : list string, remove_dups l ≡ₚ remove_dups l)
  /\ host_names_kept interim_tables
  /\ device_names [("y", "gpu_y")] interim_tables ["s"; "y"]
  /\ (forall n used, find_new_name ("host_" +:+ n) used ≠ EmptyString).
Proof.
  split; [done|]. split.
  { split_and!.
    - apply (bool_decide_unpack _). by vm_compute.
    - intros n h H. simpl in H. by destruct (String.eqb n "s").
    - intros n h H. discriminate H. }
  split.
  { intros n Hn. apply elem_of_cons in Hn as [->|Hn].
    - split; [apply (bool_decide_unpack _); by vm_compute|].
      left. apply (bool_decide_unpack _). by vm_compute.
    - apply list_elem_of_singleton in Hn as ->.
      split; [apply (bool_decide_unpack _); by vm_compute|].
      right. right. apply (bool_decide_unpack _). by vm_compute. }
  intros n used. simpl. by case_bool_decide.
Defined.

(** The two theorems on the scalar [s] and the array [y]: the scalar is
    copied to a new host array [host_s], the shadow of [y] to [y]; a
    second call for the scalar adds nothing. *)
Lemma create_copy_out_returns_witness :
  exists st',
    _create_copy_out remove_dups [("y", "gpu_y")] interim_tables ["s"; "y"]
    = Py.Ok st'
    /\ co_copies st' = [("s", "host_s"); ("gpu_y", "y")]
    /\ host_names_kept st'.
Proof.
  eexists. split; [vm_compute; reflexivity|].
  split; [vm_compute; reflexivity|].
  destruct interim_tables_ready as (H0 & H1 & H2 & _).
  destruct (create_copy_out_returns remove_dups H0 [("y", "gpu_y")]
              interim_tables ["s"; "y"] H1 H2)
    as (st2 & Hrun & Hkept & _).
  match goal with
  | |- host_names_kept ?T =>
      assert (E : Py.Ok T = Py.Ok st2) by (rewrite <- Hrun; by vm_compute)
  end.
  injection E as <-. exact Hkept.
Defined.

Lemma create_copy_out_keeps_host_names_witness :
  exists st' st'',
    _create_copy_out remove_dups [("y", "gpu_y")] interim_tables ["s"; "y"]
    = Py.Ok st'
    /\ _create_copy_out remove_dups [("y", "gpu_y")] st' ["s"] = Py.Ok st''
    /\ co_arrays st'' = co_arrays st'.
Proof.
  destruct interim_tables_ready as (H0 & H1 & H2 & H3).
  destruct (create_copy_out_returns remove_dups H0 [("y", "gpu_y")]
              interim_tables ["s"; "y"] H1 H2) as (st1 & Hst1 & _).
  destruct (create_copy_out_keeps_host_names remove_dups H0
              [("y", "gpu_y")] interim_tables st1 ["s"; "y"] ["s"]
              H3 H1 H2) as (st'' & Hr & Ha & _).
  - intros x Hx. apply list_elem_of_singleton in Hx as ->. left.
  - exact Hst1.
  - by exists st1, st''.
Defined.

End CopyOutMore.
